(** * trading_strategies.py: strategy engine, backtest simulator and
      performance analyzer, embedded over binary64 floats.

    Python [float] and numpy [float64] are IEEE binary64, which is what
    Rocq's primitive [float] is, so scalar arithmetic is transcribed
    operator by operator.  A pandas [DataFrame] is a mutable object: it
    lives in a store and is passed around by reference. *)

From Stdlib Require Import ZArith List Floats Lia Bool Sorting.Sorted.
From stdpp Require Import gmap strings list fin_maps.

Set Warnings "-inexact-float".
Local Open Scope string_scope.
Local Open Scope list_scope.

(** ** Exceptions and fallible results *)

Inductive exn : Type :=
  | ValueError
  | KeyError
  | IndexError
  | TypeError
  | OverflowError
  | ZeroDivisionError.

Inductive result (A : Type) : Type :=
  | Ok (a : A)
  | Err (e : exn).
Arguments Ok {A} a.
Arguments Err {A} e.

#[global] Instance result_ret : MRet result := fun A a => Ok a.
#[global] Instance result_bind : MBind result := fun A B f m =>
  match m with
  | Ok a => f a
  | Err e => Err e
  end.

(** ** Binary64 helpers *)

Module F.

(** Conversion of a Python [int] to a float (round to nearest even). *)
Definition of_int (z : Z) : float :=
  SF2Prim (binary_normalize prec emax z 0 false).

Definition of_nat (n : nat) : float := of_int (Z.of_nat n).

(** Truncation toward zero of a finite value [±m·2^e]. *)
Definition trunc_finite (s : bool) (m : positive) (e : Z) : Z :=
  let a := match e with
           | Zneg p => Z.shiftr (Zpos m) (Zpos p)
           | _ => Z.shiftl (Zpos m) e
           end in
  if s then Z.opp a else a.

(** Floor of a finite value [±m·2^e]. *)
Definition floor_finite (s : bool) (m : positive) (e : Z) : Z :=
  let n := if s then Zneg m else Zpos m in
  match e with
  | Zneg p => Z.shiftr n (Zpos p)
  | _ => Z.shiftl n e
  end.

(** Python's [int(x)] on a float: truncation toward zero;
    [OverflowError] on an infinity, [ValueError] on NaN. *)
Definition py_int (x : float) : result Z :=
  match Prim2SF x with
  | S754_zero _ => Ok 0%Z
  | S754_finite s m e => Ok (trunc_finite s m e)
  | S754_infinity _ => Err OverflowError
  | S754_nan => Err ValueError
  end.

(** Mathematical floor, on the same domain. *)
Definition floor (x : float) : result Z :=
  match Prim2SF x with
  | S754_zero _ => Ok 0%Z
  | S754_finite s m e => Ok (floor_finite s m e)
  | S754_infinity _ => Err OverflowError
  | S754_nan => Err ValueError
  end.

Definition gtb (x y : float) : bool := (y <? x)%float.
Definition geb (x y : float) : bool := (y <=? x)%float.
(** Python's [x != y]: true on unordered operands. *)
Definition neb (x y : float) : bool := negb (x =? y)%float.

Definition sum (l : list float) : float :=
  fold_left PrimFloat.add l 0%float.

End F.

(** ** The backtest simulator: [BacktestExecutor] *)

Inductive Trade : Type :=
  | BUY (date : Z) (shares : Z) (price cost capital : float)
  | SELL (date : Z) (shares : Z) (price proceeds capital : float).

Record Position : Type := mkPosition {
  p_date : Z;
  p_shares : Z;
  p_price : float;
  p_equity : float;
  p_capital : float;
  p_market_value : float
}.

(** A [DataFrame]: a row index (timestamps) and named columns.  A row
    read through [iloc] upcasts every cell to float64, so an int64
    column such as [signal] is kept by its float64 values. *)
Record DataFrame : Type := mkFrame {
  index : list Z;
  columns : gmap string (list float)
}.

Record Row : Type := mkRow {
  name : Z;
  cells : gmap string float
}.

(** [df.iloc[i]]: the row's label and the cell of every column.  In a
    frame pandas builds every column is as long as the index
    ([wf_frame] below), so every column has a cell. *)
Definition iloc (df : DataFrame) (i : nat) : result Row :=
  match index df !! i with
  | Some d => Ok (mkRow d (omap (fun c : list float => c !! i) (columns df)))
  | None => Err IndexError
  end.

(** [row[k]] *)
Definition getitem (r : Row) (k : string) : result float :=
  match cells r !! k with
  | Some v => Ok v
  | None => Err KeyError
  end.

(** [df[k]] *)
Definition getcol (df : DataFrame) (k : string) : result (list float) :=
  match columns df !! k with
  | Some c => Ok c
  | None => Err KeyError
  end.

(** [s.iloc[-1]] and [df.index[-1]] *)
Definition iloc_last {A : Type} (l : list A) : result A :=
  match last l with
  | Some x => Ok x
  | None => Err IndexError
  end.

Abbreviation Dict := (gmap string float).

(** [d.get(k, default)] *)
Definition dict_get (d : Dict) (k : string) (dflt : float) : float :=
  default dflt (d !! k).

Definition default_commission : float := 0.001%float.
Definition default_slippage : float := 0.0005%float.

Definition default_config : Dict :=
  <["initial_capital" := 100000%float]>
  (<["commission" := default_commission]>
  (<["slippage" := default_slippage]> ∅)).

(** The loop-carried variables of [execute_backtest]. *)
Record SimState : Type := mkSim {
  capital : float;
  shares : Z;
  trades : list Trade;
  equity : list float;
  positions : list Position
}.

Definition init_state (initial_capital : float) : SimState :=
  mkSim initial_capital 0 [] [initial_capital] [].

(** The trading branch of the loop body (lines 448-477). *)
Definition trade_step (commission slippage : float) (date : Z)
    (price sig : float) (st : SimState) : result SimState :=
  if (sig =? 1)%float && (shares st =? 0)%Z then
    shares_to_buy ← F.py_int (capital st * 0.95 / price)%float;
    if (0 <? shares_to_buy)%Z then
      let cost := (F.of_int shares_to_buy * price * (1 + commission + slippage))%float in
      let capital' := (capital st - cost)%float in
      Ok (mkSim capital' shares_to_buy
            (trades st ++
              [BUY date shares_to_buy price cost
                 (capital' + F.of_int shares_to_buy * price)%float])
            (equity st) (positions st))
    else Ok st
  else if (sig =? -1)%float && (0 <? shares st)%Z then
    let proceeds := (F.of_int (shares st) * price * (1 - commission - slippage))%float in
    let capital' := (capital st + proceeds)%float in
    Ok (mkSim capital' 0
          (trades st ++ [SELL date (shares st) price proceeds capital'])
          (equity st) (positions st))
  else Ok st.

(** The bookkeeping at the end of the loop body (lines 480-490). *)
Definition record_step (date : Z) (price : float) (st : SimState) : SimState :=
  let current_equity := (capital st + F.of_int (shares st) * price)%float in
  mkSim (capital st) (shares st) (trades st)
    (equity st ++ [current_equity])
    (positions st ++
      [mkPosition date (shares st) price current_equity (capital st)
         (F.of_int (shares st) * price)%float]).

(** One iteration of [for i in range(len(signals))]. *)
Definition bar_step (commission slippage : float) (signals : DataFrame)
    (st : SimState) (i : nat) : result SimState :=
  signal ← iloc signals i;
  price ← getitem signal "Close";
  sig ← getitem signal "signal";
  st1 ← trade_step commission slippage (name signal) price sig st;
  Ok (record_step (name signal) price st1).

Fixpoint run_bars (commission slippage : float) (signals : DataFrame)
    (st : SimState) (idxs : list nat) : result SimState :=
  match idxs with
  | [] => Ok st
  | i :: idxs' =>
      st' ← bar_step commission slippage signals st i;
      run_bars commission slippage signals st' idxs'
  end.

(** The forced liquidation after the loop (lines 493-505). *)
Definition liquidate (commission slippage : float) (data : DataFrame)
    (st : SimState) : result SimState :=
  if (0 <? shares st)%Z then
    close ← getcol data "Close";
    final_price ← iloc_last close;
    let proceeds := (F.of_int (shares st) * final_price * (1 - commission - slippage))%float in
    let capital' := (capital st + proceeds)%float in
    date ← iloc_last (index data);
    Ok (mkSim capital' (shares st)
          (trades st ++ [SELL date (shares st) final_price proceeds capital'])
          (equity st) (positions st))
  else Ok st.

(** ** numpy kernels used by the analyzer

    Reductions are written as left-to-right sums; numpy's pairwise
    summation differs from that only in rounding. *)

Module Np.

(** [np.diff(a)] *)
Fixpoint diff (a : list float) : list float :=
  match a with
  | x :: (y :: _) as t => (y - x)%float :: diff t
  | _ => []
  end.

(** [a[:-1]] *)
Definition but_last (a : list float) : list float :=
  take (length a - 1) a.

(** [np.mean(a)]: NaN on an empty array. *)
Definition mean (a : list float) : float :=
  (F.sum a / F.of_nat (length a))%float.

(** [np.std(a)]: population standard deviation. *)
Definition std (a : list float) : float :=
  let m := mean a in
  sqrt (mean (map (fun x => ((x - m) * (x - m))%float) a)).

(** [np.maximum(x, y)]: propagates NaN. *)
Definition maximum (x y : float) : float :=
  if is_nan x then x
  else if is_nan y then y
  else if (x <? y)%float then y else x.

(** [np.minimum(x, y)]: propagates NaN. *)
Definition minimum (x y : float) : float :=
  if is_nan x then x
  else if is_nan y then y
  else if (y <? x)%float then y else x.

Fixpoint accumulate_from (acc : float) (a : list float) : list float :=
  match a with
  | [] => []
  | x :: t => let acc' := maximum acc x in acc' :: accumulate_from acc' t
  end.

(** [np.maximum.accumulate(a)] *)
Definition maximum_accumulate (a : list float) : list float :=
  match a with
  | [] => []
  | x :: t => x :: accumulate_from x t
  end.

(** [np.min(a)]: [ValueError] on an empty array. *)
Definition min (a : list float) : result float :=
  match a with
  | [] => Err ValueError
  | x :: t => Ok (fold_left minimum t x)
  end.

End Np.

(** ** The performance analyzer *)

Record Summary : Type := mkSummary {
  s_initial_capital : float;
  s_final_capital : float;
  s_total_return : float;
  s_absolute_return : float;
  s_sharpe_ratio : float;
  s_sortino_ratio : float;
  s_calmar_ratio : float;
  s_max_drawdown : float;
  s_volatility : float;
  s_win_rate : float;
  s_total_trades : nat
}.

Record Metrics : Type := mkMetrics {
  m_sharpe_ratio : float;
  m_sortino_ratio : float;
  m_calmar_ratio : float;
  m_max_drawdown : float;
  m_volatility : float;
  m_win_rate : float
}.

Record BacktestResult : Type := mkResult {
  r_summary : Summary;
  r_equity : list float;
  r_trades : list Trade;
  r_positions : list Position;
  r_daily_returns : list float;
  r_metrics : Metrics
}.

Definition is_sell (t : Trade) : bool :=
  match t with SELL _ _ _ _ _ => true | BUY _ _ _ _ _ => false end.

(** [t['proceeds'] > 0]; only evaluated on SELL trades. *)
Definition proceeds_positive (t : Trade) : bool :=
  match t with
  | SELL _ _ _ proceeds _ => F.gtb proceeds 0
  | BUY _ _ _ _ _ => false
  end.

Definition sell_trades (trades : list Trade) : list Trade :=
  List.filter is_sell trades.

Definition winning_trades (trades : list Trade) : nat :=
  length (List.filter proceeds_positive (sell_trades trades)).

Definition total_trades (trades : list Trade) : nat :=
  length (sell_trades trades).

(** Lines 555-558. *)
Definition win_rate (trades : list Trade) : float :=
  if (0 <? total_trades trades)%nat
  then (F.of_nat (winning_trades trades) / F.of_nat (total_trades trades))%float
  else 0%float.

Definition daily_returns (equity : list float) : list float :=
  zip_with PrimFloat.div (Np.diff equity) (Np.but_last equity).

Definition volatility (dr : list float) : float :=
  (Np.std dr * sqrt 252)%float.

(** Line 539. *)
Definition sharpe_ratio (dr : list float) : float :=
  if F.gtb (volatility dr) 0
  then (Np.mean dr * 252 / volatility dr)%float
  else 0%float.

Definition negative_returns (dr : list float) : list float :=
  List.filter (fun r => (r <? 0)%float) dr.

(** Line 548. *)
Definition downside_deviation (dr : list float) : float :=
  if (0 <? length (negative_returns dr))%nat
  then Np.std (negative_returns dr)
  else 0%float.

(** Line 549. *)
Definition sortino_ratio (dr : list float) : float :=
  if F.gtb (downside_deviation dr) 0
  then (Np.mean dr * 252 / downside_deviation dr)%float
  else 0%float.

(** Lines 542-544. *)
Definition drawdown (equity : list float) : list float :=
  zip_with (fun e p => ((e - p) / p)%float) equity (Np.maximum_accumulate equity).

(** Line 552. *)
Definition calmar_ratio (total_return max_drawdown : float) : float :=
  if F.neb max_drawdown 0
  then (total_return * 252 / 365 / abs max_drawdown)%float
  else 0%float.

(** Line 527.  When the equity curve is only its seed, both operands
    are plain Python numbers and a zero divisor raises; otherwise the
    numerator is a numpy float64 and the division follows IEEE. *)
Definition total_return_of (equity : list float)
    (final_capital initial_capital : float) : result float :=
  if (length equity =? 1)%nat && (initial_capital =? 0)%float
  then Err ZeroDivisionError
  else Ok ((final_capital - initial_capital) / initial_capital)%float.

Definition calculate_performance_metrics (equity : list float)
    (trades : list Trade) (positions : list Position) (config : Dict)
    : result BacktestResult :=
  let initial_capital := dict_get config "initial_capital" 100000 in
  final_capital ← iloc_last equity;
  total_return ← total_return_of equity final_capital initial_capital;
  let absolute_return := (final_capital - initial_capital)%float in
  let dr := daily_returns equity in
  max_drawdown ← Np.min (drawdown equity);
  let calmar := calmar_ratio total_return max_drawdown in
  Ok (mkResult
        (mkSummary initial_capital final_capital (total_return * 100)%float
           absolute_return (sharpe_ratio dr) (sortino_ratio dr) calmar
           (max_drawdown * 100)%float (volatility dr * 100)%float
           (win_rate trades * 100)%float (total_trades trades))
        equity trades positions dr
        (mkMetrics (sharpe_ratio dr) (sortino_ratio dr) calmar max_drawdown
           (volatility dr) (win_rate trades))).

(** [BacktestExecutor.execute_backtest] *)
Definition execute_backtest (data signals : DataFrame) (config : option Dict)
    : result BacktestResult :=
  let config := default default_config config in
  let initial_capital := dict_get config "initial_capital" 100000 in
  let commission := dict_get config "commission" default_commission in
  let slippage := dict_get config "slippage" default_slippage in
  st ← run_bars commission slippage signals (init_state initial_capital)
         (seq 0 (length (index signals)));
  st' ← liquidate commission slippage data st;
  calculate_performance_metrics (equity st') (trades st') (positions st') config.

(** [config] after the [if config is None] default of line 425. *)
Definition effective_config (config : option Dict) : Dict :=
  default default_config config.

(** The loop state reached after the whole series, before liquidation. *)
Definition simulate (signals : DataFrame) (config : Dict) : result SimState :=
  run_bars (dict_get config "commission" default_commission)
    (dict_get config "slippage" default_slippage) signals
    (init_state (dict_get config "initial_capital" 100000))
    (seq 0 (length (index signals))).

(** A small frame for running the code: three bars, buy on the first,
    sell on the third. *)
Definition demo_frame : DataFrame :=
  mkFrame [1; 2; 3]%Z
    (<["Close" := [100; 110; 120]%float]>
    (<["signal" := [1; 0; -1]%float]> ∅)).

(** ** Specification vocabulary for trade logs *)

Definition is_buy (t : Trade) : bool := negb (is_sell t).

(** Replays a trade log from [held] shares.  A BUY is accepted only
    from a flat position and for a positive count; a SELL only from a
    long position and for all of it.  Returns the holdings left. *)
Fixpoint replay (held : Z) (log : list Trade) : option Z :=
  match log with
  | [] => Some held
  | BUY _ n _ _ _ :: rest =>
      if (held =? 0)%Z && (0 <? n)%Z then replay n rest else None
  | SELL _ n _ _ _ :: rest =>
      if (0 <? held)%Z && (n =? held)%Z then replay 0 rest else None
  end.

(** BUY, SELL, BUY, SELL, ... *)
Fixpoint alternates (expect_buy : bool) (log : list Trade) : bool :=
  match log with
  | [] => true
  | t :: rest => Bool.eqb (is_buy t) expect_buy && alternates (negb expect_buy) rest
  end.

(** Every column is as long as the index. *)
Definition wf_frame (df : DataFrame) : Prop :=
  forall k c, columns df !! k = Some c -> length c = length (index df).

(** What the trading branch of one loop iteration can do to the state:
    nothing, a BUY from a flat position, or a SELL of the whole
    position. *)
Inductive trade_effect (commission slippage : float) (date : Z) (price : float)
    (st st' : SimState) : Prop :=
  | te_none :
      st' = st -> trade_effect commission slippage date price st st'
  | te_buy (n : Z) :
      shares st = 0%Z -> (0 < n)%Z ->
      F.py_int (capital st * 0.95 / price)%float = Ok n ->
      st' = mkSim (capital st - F.of_int n * price * (1 + commission + slippage))%float n
              (trades st ++
                [BUY date n price
                   (F.of_int n * price * (1 + commission + slippage))%float
                   (capital st - F.of_int n * price * (1 + commission + slippage)
                    + F.of_int n * price)%float])
              (equity st) (positions st) ->
      trade_effect commission slippage date price st st'
  | te_sell :
      (0 < shares st)%Z ->
      st' = mkSim (capital st + F.of_int (shares st) * price * (1 - commission - slippage))%float 0
              (trades st ++
                [SELL date (shares st) price
                   (F.of_int (shares st) * price * (1 - commission - slippage))%float
                   (capital st + F.of_int (shares st) * price * (1 - commission - slippage))%float])
              (equity st) (positions st) ->
      trade_effect commission slippage date price st st'.

(** The simulator's accounting invariant: holdings are never negative
    and are what the trade log replays to. *)
Definition sim_inv (st : SimState) : Prop :=
  (0 <= shares st)%Z /\ replay 0 (trades st) = Some (shares st).

(** ** pandas Series kernels

    A Series is the list of its values in index order; an undefined
    value is NaN.  A result is as long as its input, and it is NaN
    wherever pandas' is for want of history: before [w] observations
    for a rolling statistic, before [p] earlier rows for a shift.

    Where a result is defined, its value here is the textbook formula
    summed left to right, on a series of finite values without gaps.
    pandas reaches the same quantities by running updates of its own
    (a compensated sum, exact on a window of equal values), counts an
    infinite observation as missing, and in [ewm] passes over a missing
    observation instead of carrying it on.  Its values can therefore
    differ from these in the last bits, and on series with gaps or
    infinities.  The theorems about the strategies do not state such a
    value: they speak of where a column is NaN, of its length, and of
    how the columns of one frame, or of two runs, stand to each
    other. *)

Module Pd.

(** The [w] values ending at position [i]. *)
Definition window (w i : nat) (s : list float) : list float :=
  take w (drop (i + 1 - w) s).

(** [s.rolling(window=w).mean()]: NaN until [w] observations exist. *)
Definition rolling_mean (w : nat) (s : list float) : list float :=
  imap (fun i _ => if (i + 1 <? w)%nat then nan else Np.mean (window w i s)) s.

(** Sample standard deviation (ddof = 1) of one window. *)
Definition sample_std (a : list float) : float :=
  let m := Np.mean a in
  sqrt (F.sum (map (fun x => ((x - m) * (x - m))%float) a)
        / F.of_int (Z.of_nat (length a) - 1))%float.

(** [s.rolling(window=w).std()] *)
Definition rolling_std (w : nat) (s : list float) : list float :=
  imap (fun i _ => if (i + 1 <? w)%nat then nan else sample_std (window w i s)) s.

(** [s.shift(p)]: position [i] takes the value at [i - p], NaN when
    that falls outside the series. *)
Definition shift (p : Z) (s : list float) : list float :=
  imap (fun i _ =>
          let j := (Z.of_nat i - p)%Z in
          if (0 <=? j)%Z then default nan (s !! Z.to_nat j) else nan) s.

(** [s.diff()] *)
Definition diff (s : list float) : list float :=
  zip_with PrimFloat.sub s (shift 1 s).

(** [s.pct_change(periods=p)] on a series without gaps *)
Definition pct_change (p : Z) (s : list float) : list float :=
  zip_with (fun x y => (x / y - 1)%float) s (shift p s).

(** [s.where(s > 0, 0)] *)
Definition where_pos (s : list float) : list float :=
  map (fun x => if F.gtb x 0 then x else 0%float) s.

(** [s.where(s < 0, 0)] *)
Definition where_neg (s : list float) : list float :=
  map (fun x => if (x <? 0)%float then x else 0%float) s.

Definition neg (s : list float) : list float := map PrimFloat.opp s.

Fixpoint ewm_from (alpha prev : float) (s : list float) : list float :=
  match s with
  | [] => []
  | x :: t =>
      let y := (alpha * x + (1 - alpha) * prev)%float in
      y :: ewm_from alpha y t
  end.

(** [s.ewm(span=span, adjust=False).mean()]: seeded with the first
    value, smoothing factor [2 / (span + 1)]. *)
Definition ewm_mean (span : float) (s : list float) : list float :=
  match s with
  | [] => []
  | x :: t => x :: ewm_from (2 / (span + 1))%float x t
  end.

(** Element-wise comparisons, giving boolean masks. *)
Definition lt (a b : list float) : list bool := zip_with PrimFloat.ltb a b.
Definition gt (a b : list float) : list bool := zip_with F.gtb a b.
Definition le (a b : list float) : list bool := zip_with PrimFloat.leb a b.
Definition ge (a b : list float) : list bool := zip_with F.geb a b.
Definition lt_scalar (a : list float) (v : float) : list bool :=
  map (fun x => (x <? v)%float) a.
Definition gt_scalar (a : list float) (v : float) : list bool :=
  map (fun x => F.gtb x v) a.
Definition le_scalar (a : list float) (v : float) : list bool :=
  map (fun x => (x <=? v)%float) a.
Definition ge_scalar (a : list float) (v : float) : list bool :=
  map (fun x => F.geb x v) a.
Definition band (a b : list bool) : list bool := zip_with andb a b.

Definition add (a b : list float) : list float := zip_with PrimFloat.add a b.
Definition sub (a b : list float) : list float := zip_with PrimFloat.sub a b.
Definition div (a b : list float) : list float := zip_with PrimFloat.div a b.
Definition mul_scalar (a : list float) (v : float) : list float :=
  map (fun x => (x * v)%float) a.

(** The values of a column after [df.loc[mask, col] = v]. *)
Definition loc_assign (mask : list bool) (col : list float) (v : float) : list float :=
  zip_with (fun (m : bool) x => if m then v else x) mask col.

End Pd.

(** The RSI of one bar from its average gain and loss (lines 114-115). *)
Definition rsi_value (gain loss : float) : float :=
  (100 - 100 / (1 + gain / loss))%float.

(** Lines 111-115 and 229-233. *)
Definition rsi (period : nat) (close : list float) : list float :=
  let delta := Pd.diff close in
  let gain := Pd.rolling_mean period (Pd.where_pos delta) in
  let loss := Pd.rolling_mean period (Pd.neg (Pd.where_neg delta)) in
  zip_with rsi_value gain loss.

(** ** Mutable frames: a state-and-exception monad *)

Inductive outcome (S A : Type) : Type :=
  | Ret (a : A) (s : S)
  | Raise (e : exn) (s : S).
Arguments Ret {S A} a s.
Arguments Raise {S A} e s.

Definition M (S A : Type) : Type := S -> outcome S A.

Definition ret {S A : Type} (a : A) : M S A := fun s => Ret a s.

Definition bind {S A B : Type} (m : M S A) (f : A -> M S B) : M S B :=
  fun s => match m s with
           | Ret a s' => f a s'
           | Raise e s' => Raise e s'
           end.

Definition raise {S A : Type} (e : exn) : M S A := fun s => Raise e s.

Definition lift {S A : Type} (r : result A) : M S A :=
  match r with
  | Ok a => ret a
  | Err e => raise e
  end.

#[global] Instance M_ret {S : Type} : MRet (M S) := fun A a => ret a.
#[global] Instance M_bind {S : Type} : MBind (M S) := fun A B f m => bind m f.

(** [df[k]] as a read of the current frame. *)
Definition col (k : string) : M DataFrame (list float) :=
  fun df => match columns df !! k with
            | Some c => Ret c df
            | None => Raise KeyError df
            end.

Definition set_col (df : DataFrame) (k : string) (c : list float) : DataFrame :=
  mkFrame (index df) (<[k := c]> (columns df)).

(** [df[k] = c] *)
Definition assign (k : string) (c : list float) : M DataFrame unit :=
  fun df => Ret tt (set_col df k c).

(** [df[k] = v] for a scalar [v]: broadcast over the index. *)
Definition assign_scalar (k : string) (v : float) : M DataFrame unit :=
  fun df => Ret tt (set_col df k (replicate (length (index df)) v)).

(** [df.loc[mask, k] = v] *)
Definition loc_set (mask : list bool) (k : string) (v : float) : M DataFrame unit :=
  fun df => match columns df !! k with
            | Some c => Ret tt (set_col df k (Pd.loc_assign mask c v))
            | None => Raise KeyError df
            end.

(** ** Strategy parameters *)

Inductive pval : Type :=
  | PInt (z : Z)
  | PFloat (f : float).

Abbreviation Params := (gmap string pval).

(** [params.get(k, default)] *)
Definition pget (params : Params) (k : string) (dflt : pval) : pval :=
  default dflt (params !! k).

Definition as_float (v : pval) : float :=
  match v with
  | PInt z => F.of_int z
  | PFloat f => f
  end.

(** [rolling(window=v)] accepts a non-negative integer only. *)
Definition as_window (v : pval) : result nat :=
  match v with
  | PInt z => if (0 <=? z)%Z then Ok (Z.to_nat z) else Err ValueError
  | PFloat _ => Err ValueError
  end.

(** [shift(v)] and [pct_change(periods=v)] accept an integer only. *)
Definition as_periods (v : pval) : result Z :=
  match v with
  | PInt z => Ok z
  | PFloat _ => Err TypeError
  end.

(** [ewm(span=v)] rejects a span below one. *)
Definition as_span (v : pval) : result float :=
  if (as_float v <? 1)%float then Err ValueError else Ok (as_float v).

(** ** The six strategies: [TradingStrategies] *)

(** Lines 54-58: the parameters of the moving-average crossover. *)
Definition ma_defaults : Params :=
  <["fast_period" := PInt 10]> (<["slow_period" := PInt 20]> ∅).
Definition ma_fast_period (params : option Params) : pval :=
  pget (default ma_defaults params) "fast_period" (PInt 10).
Definition ma_slow_period (params : option Params) : pval :=
  pget (default ma_defaults params) "slow_period" (PInt 20).

Definition moving_average_crossover_body (params : option Params) : M DataFrame unit :=
  let fast_period := ma_fast_period params in
  let slow_period := ma_slow_period params in
  close ← col "Close";
  fw ← lift (as_window fast_period);
  assign "fast_ma" (Pd.rolling_mean fw close);;
  close ← col "Close";
  sw ← lift (as_window slow_period);
  assign "slow_ma" (Pd.rolling_mean sw close);;
  assign_scalar "signal" 0;;
  assign_scalar "position" 0;;
  fast_ma ← col "fast_ma";
  slow_ma ← col "slow_ma";
  loc_set (Pd.gt fast_ma slow_ma) "signal" 1;;
  fast_ma ← col "fast_ma";
  slow_ma ← col "slow_ma";
  loc_set (Pd.lt fast_ma slow_ma) "signal" (-1);;
  signal ← col "signal";
  assign "position" (Pd.diff signal).

(** Lines 105-108 and 190-193: the Bollinger columns. *)
Definition bollinger_columns (period : pval) (std : pval) : M DataFrame unit :=
  close ← col "Close";
  w ← lift (as_window period);
  assign "bb_middle" (Pd.rolling_mean w close);;
  close ← col "Close";
  w ← lift (as_window period);
  assign "bb_std" (Pd.rolling_std w close);;
  bb_middle ← col "bb_middle";
  bb_std ← col "bb_std";
  assign "bb_upper" (Pd.add bb_middle (Pd.mul_scalar bb_std (as_float std)));;
  bb_middle ← col "bb_middle";
  bb_std ← col "bb_std";
  assign "bb_lower" (Pd.sub bb_middle (Pd.mul_scalar bb_std (as_float std))).

(** Lines 111-115 and 229-233: the RSI column. *)
Definition rsi_column (period : pval) : M DataFrame unit :=
  close ← col "Close";
  w ← lift (as_window period);
  assign "rsi" (rsi w close).

(** Lines 89-102: the parameters of mean reversion. *)
Definition mr_defaults : Params :=
  <["bb_period" := PInt 20]> (<["bb_std" := PInt 2]>
  (<["rsi_period" := PInt 14]> (<["rsi_overbought" := PInt 70]>
  (<["rsi_oversold" := PInt 30]> ∅)))).
Definition mr_bb_period (params : option Params) : pval :=
  pget (default mr_defaults params) "bb_period" (PInt 20).
Definition mr_bb_std (params : option Params) : pval :=
  pget (default mr_defaults params) "bb_std" (PInt 2).
Definition mr_rsi_period (params : option Params) : pval :=
  pget (default mr_defaults params) "rsi_period" (PInt 14).
Definition mr_rsi_overbought (params : option Params) : pval :=
  pget (default mr_defaults params) "rsi_overbought" (PInt 70).
Definition mr_rsi_oversold (params : option Params) : pval :=
  pget (default mr_defaults params) "rsi_oversold" (PInt 30).

Definition mean_reversion_body (params : option Params) : M DataFrame unit :=
  let bb_period := mr_bb_period params in
  let bb_std := mr_bb_std params in
  let rsi_period := mr_rsi_period params in
  let rsi_overbought := mr_rsi_overbought params in
  let rsi_oversold := mr_rsi_oversold params in
  bollinger_columns bb_period bb_std;;
  rsi_column rsi_period;;
  assign_scalar "signal" 0;;
  close ← col "Close";
  bb_lower ← col "bb_lower";
  rsi ← col "rsi";
  let buy_condition :=
    Pd.band (Pd.le close (Pd.mul_scalar bb_lower 1.01))
            (Pd.le_scalar rsi (as_float rsi_oversold)) in
  loc_set buy_condition "signal" 1;;
  close ← col "Close";
  bb_upper ← col "bb_upper";
  rsi ← col "rsi";
  let sell_condition :=
    Pd.band (Pd.ge close (Pd.mul_scalar bb_upper 0.99))
            (Pd.ge_scalar rsi (as_float rsi_overbought)) in
  loc_set sell_condition "signal" (-1);;
  signal ← col "signal";
  assign "position" (Pd.diff signal).

(** Lines 150-154: the parameters of momentum. *)
Definition mo_defaults : Params :=
  <["lookback_period" := PInt 20]> (<["threshold" := PFloat 0.05]> ∅).
Definition mo_lookback_period (params : option Params) : pval :=
  pget (default mo_defaults params) "lookback_period" (PInt 20).
Definition mo_threshold (params : option Params) : pval :=
  pget (default mo_defaults params) "threshold" (PFloat 0.05).

Definition momentum_body (params : option Params) : M DataFrame unit :=
  let lookback_period := mo_lookback_period params in
  let threshold := mo_threshold params in
  close ← col "Close";
  p ← lift (as_periods lookback_period);
  assign "momentum" (Pd.pct_change p close);;
  assign_scalar "signal" 0;;
  momentum ← col "momentum";
  loc_set (Pd.gt_scalar momentum (as_float threshold)) "signal" 1;;
  momentum ← col "momentum";
  loc_set (Pd.lt_scalar momentum (- as_float threshold)%float) "signal" (-1);;
  signal ← col "signal";
  assign "position" (Pd.diff signal).

(** Lines 183-187: the parameters of the Bollinger strategy. *)
Definition bb_defaults : Params :=
  <["period" := PInt 20]> (<["std" := PInt 2]> ∅).
Definition bb_period (params : option Params) : pval :=
  pget (default bb_defaults params) "period" (PInt 20).
Definition bb_std (params : option Params) : pval :=
  pget (default bb_defaults params) "std" (PInt 2).

Definition bollinger_bands_body (params : option Params) : M DataFrame unit :=
  let period := bb_period params in
  let std := bb_std params in
  bollinger_columns period std;;
  bb_upper ← col "bb_upper";
  bb_lower ← col "bb_lower";
  bb_middle ← col "bb_middle";
  assign "bb_width" (Pd.div (Pd.sub bb_upper bb_lower) bb_middle);;
  assign_scalar "signal" 0;;
  close ← col "Close";
  bb_lower ← col "bb_lower";
  loc_set (Pd.le close bb_lower) "signal" 1;;
  close ← col "Close";
  bb_upper ← col "bb_upper";
  loc_set (Pd.ge close bb_upper) "signal" (-1);;
  signal ← col "signal";
  assign "position" (Pd.diff signal).

(** Lines 222-226: the parameters of RSI divergence. *)
Definition rd_defaults : Params :=
  <["period" := PInt 14]> (<["divergence_period" := PInt 20]> ∅).
Definition rd_period (params : option Params) : pval :=
  pget (default rd_defaults params) "period" (PInt 14).
Definition rd_divergence_period (params : option Params) : pval :=
  pget (default rd_defaults params) "divergence_period" (PInt 20).

Definition rsi_divergence_body (params : option Params) : M DataFrame unit :=
  let period := rd_period params in
  let divergence_period := rd_divergence_period params in
  rsi_column period;;
  close ← col "Close";
  dw ← lift (as_window divergence_period);
  assign "price_ma" (Pd.rolling_mean dw close);;
  rsi ← col "rsi";
  dw ← lift (as_window divergence_period);
  assign "rsi_ma" (Pd.rolling_mean dw rsi);;
  assign_scalar "signal" 0;;
  close ← col "Close";
  dp ← lift (as_periods divergence_period);
  rsi ← col "rsi";
  let bullish_divergence :=
    Pd.band (Pd.band (Pd.lt close (Pd.shift dp close))
                     (Pd.gt rsi (Pd.shift dp rsi)))
            (Pd.lt_scalar rsi 40) in
  loc_set bullish_divergence "signal" 1;;
  close ← col "Close";
  dp ← lift (as_periods divergence_period);
  rsi ← col "rsi";
  let bearish_divergence :=
    Pd.band (Pd.band (Pd.gt close (Pd.shift dp close))
                     (Pd.lt rsi (Pd.shift dp rsi)))
            (Pd.gt_scalar rsi 60) in
  loc_set bearish_divergence "signal" (-1);;
  signal ← col "signal";
  assign "position" (Pd.diff signal).

(** Lines 274-279: the parameters of the MACD crossover. *)
Definition macd_defaults : Params :=
  <["fast" := PInt 12]> (<["slow" := PInt 26]> (<["signal" := PInt 9]> ∅)).
Definition macd_fast (params : option Params) : pval :=
  pget (default macd_defaults params) "fast" (PInt 12).
Definition macd_slow (params : option Params) : pval :=
  pget (default macd_defaults params) "slow" (PInt 26).
Definition macd_signal (params : option Params) : pval :=
  pget (default macd_defaults params) "signal" (PInt 9).

Definition macd_crossover_body (params : option Params) : M DataFrame unit :=
  let fast := macd_fast params in
  let slow := macd_slow params in
  let signal := macd_signal params in
  close ← col "Close";
  fspan ← lift (as_span fast);
  let exp1 := Pd.ewm_mean fspan close in
  close ← col "Close";
  sspan ← lift (as_span slow);
  let exp2 := Pd.ewm_mean sspan close in
  assign "macd" (Pd.sub exp1 exp2);;
  macd ← col "macd";
  gspan ← lift (as_span signal);
  assign "macd_signal" (Pd.ewm_mean gspan macd);;
  macd ← col "macd";
  macd_signal ← col "macd_signal";
  assign "macd_histogram" (Pd.sub macd macd_signal);;
  assign_scalar "signal" 0;;
  macd ← col "macd";
  macd_signal ← col "macd_signal";
  loc_set (Pd.band (Pd.gt macd macd_signal)
                   (Pd.le (Pd.shift 1 macd) (Pd.shift 1 macd_signal))) "signal" 1;;
  macd ← col "macd";
  macd_signal ← col "macd_signal";
  loc_set (Pd.band (Pd.lt macd macd_signal)
                   (Pd.ge (Pd.shift 1 macd) (Pd.shift 1 macd_signal))) "signal" (-1);;
  signal ← col "signal";
  assign "position" (Pd.diff signal).

(** ** The object store

    Frames are objects; a variable holds a reference.  A strategy
    receives the reference [data], works on the object behind it and
    returns that same reference. *)

Abbreviation ref := nat.
Abbreviation store := (gmap nat DataFrame).

(** Runs frame code on the object behind [data].  References are only
    created by allocation, so the lookup cannot fail in a run of the
    program; the model answers a dangling one with [KeyError]. *)
Definition on_frame {A : Type} (data : ref) (m : M DataFrame A) : M store A :=
  fun σ => match σ !! data with
           | Some df =>
               match m df with
               | Ret a df' => Ret a (<[data := df']> σ)
               | Raise e df' => Raise e (<[data := df']> σ)
               end
           | None => Raise KeyError σ
           end.

Definition strategy_fn : Type := ref -> option Params -> M store ref.

(** A method that ends in [return data]. *)
Definition returning_data (body : option Params -> M DataFrame unit) : strategy_fn :=
  fun data params => on_frame data (body params);; mret data.

Definition moving_average_crossover : strategy_fn :=
  returning_data moving_average_crossover_body.
Definition mean_reversion : strategy_fn := returning_data mean_reversion_body.
Definition momentum : strategy_fn := returning_data momentum_body.
Definition bollinger_bands : strategy_fn := returning_data bollinger_bands_body.
Definition rsi_divergence : strategy_fn := returning_data rsi_divergence_body.
Definition macd_crossover : strategy_fn := returning_data macd_crossover_body.

(** [self.strategies], built in [__init__]. *)
Definition strategies : gmap string strategy_fn :=
  <["moving-average-crossover" := moving_average_crossover]>
  (<["mean-reversion" := mean_reversion]>
  (<["momentum" := momentum]>
  (<["bollinger-bands" := bollinger_bands]>
  (<["rsi-divergence" := rsi_divergence]>
  (<["macd-crossover" := macd_crossover]> ∅))))).

(** [self.strategies[name]], [None] when [name not in self.strategies]. *)
Definition lookup_strategy (name : string) : option strategy_fn :=
  strategies !! name.

(** [TradingStrategies.execute_strategy] *)
Definition execute_strategy (strategy_name : string) (data : ref)
    (params : option Params) : M store ref :=
  match lookup_strategy strategy_name with
  | None => raise ValueError
  | Some f => f data params
  end.

Definition strategy_ids : list string :=
  ["moving-average-crossover"; "mean-reversion"; "momentum";
   "bollinger-bands"; "rsi-divergence"; "macd-crossover"].

(** Thirty bars of one price, and a short rising series. *)
Definition flat_prices : DataFrame :=
  mkFrame (map Z.of_nat (seq 0 30)) (<["Close" := replicate 30 50%float]> ∅).

Definition rising_prices : DataFrame :=
  mkFrame [0; 1; 2; 3; 4; 5]%Z
    (<["Close" := [10; 11; 12; 13; 14; 15]%float]> ∅).


Definition count_sells (log : list Trade) : nat :=
  length (List.filter is_sell log).



Definition short_rsi : Params :=
  <["bb_period" := PInt 3]> (<["rsi_period" := PInt 2]> ∅).

(** The [signal] column after [df['signal'] = 0] on [n] rows followed
    by [df.loc[buy, 'signal'] = 1] and [df.loc[sell, 'signal'] = -1]. *)
Definition two_sided (n : nat) (buy sell : list bool) : list float :=
  Pd.loc_assign sell (Pd.loc_assign buy (replicate n 0%float) 1) (-1).

(** The reference [data] names a frame with a [Close] column as long as
    its index. *)
Definition has_prices (σ : store) (data : ref) (df : DataFrame)
    (close : list float) : Prop :=
  σ !! data = Some df /\ columns df !! "Close" = Some close /\
  length close = length (index df).

(** ** What a strategy may change *)

Definition price_columns : list string :=
  ["Open"; "High"; "Low"; "Close"; "Volume"].

(** The columns each method assigns (the left-hand sides [data[...] =]
    and [data.loc[..., 'signal'] =] of its body). *)
Definition ma_writes : list string :=
  ["fast_ma"; "slow_ma"; "signal"; "position"].
Definition mr_writes : list string :=
  ["bb_middle"; "bb_std"; "bb_upper"; "bb_lower"; "rsi"; "signal"; "position"].
Definition mo_writes : list string :=
  ["momentum"; "signal"; "position"].
Definition bb_writes : list string :=
  ["bb_middle"; "bb_std"; "bb_upper"; "bb_lower"; "bb_width"; "signal"; "position"].
Definition rd_writes : list string :=
  ["rsi"; "price_ma"; "rsi_ma"; "signal"; "position"].
Definition macd_writes : list string :=
  ["macd"; "macd_signal"; "macd_histogram"; "signal"; "position"].

(** Identifier, method and assigned columns of the six strategies. *)
Definition strategy_table : list (string * strategy_fn * list string) :=
  [("moving-average-crossover", moving_average_crossover, ma_writes);
   ("mean-reversion", mean_reversion, mr_writes);
   ("momentum", momentum, mo_writes);
   ("bollinger-bands", bollinger_bands, bb_writes);
   ("rsi-divergence", rsi_divergence, rd_writes);
   ("macd-crossover", macd_crossover, macd_writes)].

(** [df'] is [df] except possibly in the columns named in [W]. *)
Definition touches_only (W : list string) (df df' : DataFrame) : Prop :=
  index df' = index df /\
  forall k, k ∉ W -> columns df' !! k = columns df !! k.

(** Frame code that, returning or raising, changes columns of [W] only. *)
Definition confined (W : list string) {A : Type} (m : M DataFrame A) : Prop :=
  forall df,
    match m df with
    | Ret _ df' => touches_only W df df'
    | Raise _ df' => touches_only W df df'
    end.

(** Frame code that, when it returns, leaves [signal] and [position]
    columns behind. *)
Definition leaves_signal {A : Type} (m : M DataFrame A) : Prop :=
  forall df a df', m df = Ret a df' ->
    is_Some (columns df' !! "signal") /\ is_Some (columns df' !! "position").

(** The store after a call on [data]: every other object is as it was,
    and the object behind [data] is still there, changed in [W] only. *)
Definition store_effect (W : list string) (data : ref) (σ σ' : store) : Prop :=
  (forall l, l <> data -> σ' !! l = σ !! l) /\
  match σ !! data with
  | Some df => exists df', σ' !! data = Some df' /\ touches_only W df df'
  | None => σ' !! data = None
  end.

(** A method that works in place on the frame it is given. *)
Definition in_place (W : list string) (f : strategy_fn) : Prop :=
  forall data params σ,
    match f data params σ with
    | Ret r σ' =>
        r = data /\ store_effect W data σ σ' /\
        exists df', σ' !! data = Some df' /\
          is_Some (columns df' !! "signal") /\
          is_Some (columns df' !! "position")
    | Raise _ σ' => store_effect W data σ σ'
    end.

Definition short_windows : Params :=
  <["fast_period" := PInt 2]> (<["slow_period" := PInt 3]> ∅).

Definition short_band : Params :=
  <["period" := PInt 3]> ∅.

(** ** The six strategies as a closed variant, for stating properties *)

Inductive strategy : Type :=
  | MovingAverageCrossover
  | MeanReversion
  | Momentum
  | BollingerBands
  | RsiDivergence
  | MacdCrossover.

Definition strategy_id (s : strategy) : string :=
  match s with
  | MovingAverageCrossover => "moving-average-crossover"
  | MeanReversion => "mean-reversion"
  | Momentum => "momentum"
  | BollingerBands => "bollinger-bands"
  | RsiDivergence => "rsi-divergence"
  | MacdCrossover => "macd-crossover"
  end.

Definition method (s : strategy) : strategy_fn :=
  match s with
  | MovingAverageCrossover => moving_average_crossover
  | MeanReversion => mean_reversion
  | Momentum => momentum
  | BollingerBands => bollinger_bands
  | RsiDivergence => rsi_divergence
  | MacdCrossover => macd_crossover
  end.

Definition is_ok {A : Type} (r : result A) : Prop := exists a, r = Ok a.

Definition window_of (v : pval) : nat :=
  match as_window v with Ok w => w | Err _ => 0 end.

Definition periods_of (v : pval) : Z :=
  match as_periods v with Ok p => p | Err _ => 0%Z end.

(** Parameters pandas accepts: integer windows and periods, spans of
    at least one. *)
Definition valid_params (s : strategy) (params : option Params) : Prop :=
  match s with
  | MovingAverageCrossover =>
      is_ok (as_window (ma_fast_period params)) /\
      is_ok (as_window (ma_slow_period params))
  | MeanReversion =>
      is_ok (as_window (mr_bb_period params)) /\
      is_ok (as_window (mr_rsi_period params))
  | Momentum => is_ok (as_periods (mo_lookback_period params))
  | BollingerBands => is_ok (as_window (bb_period params))
  | RsiDivergence =>
      is_ok (as_window (rd_period params)) /\
      is_ok (as_window (rd_divergence_period params))
  | MacdCrossover =>
      is_ok (as_span (macd_fast params)) /\
      is_ok (as_span (macd_slow params)) /\
      is_ok (as_span (macd_signal params))
  end.

(** Bar [i] lies where an indicator the strategy compares is still
    undefined: fewer than [window] bars so far for a rolling statistic,
    fewer than [periods] earlier bars for a shifted series.  The RSI
    divergence compares the RSI with the RSI of [divergence_period]
    bars earlier, which needs [period] bars of its own, so its window
    is the sum of the two. *)
Definition warm_up (s : strategy) (params : option Params) (i : nat) : Prop :=
  match s with
  | MovingAverageCrossover =>
      i + 1 < window_of (ma_fast_period params) \/
      i + 1 < window_of (ma_slow_period params)
  | MeanReversion =>
      i + 1 < window_of (mr_bb_period params) \/
      i + 1 < window_of (mr_rsi_period params)
  | Momentum => (Z.of_nat i < periods_of (mo_lookback_period params))%Z
  | BollingerBands => i + 1 < window_of (bb_period params)
  | RsiDivergence =>
      i < window_of (rd_divergence_period params) \/
      i + 1 < window_of (rd_period params)
              + window_of (rd_divergence_period params)
  | MacdCrossover => i = 0
  end.

(** The call returns the reference it was given, and in the frame
    behind it the signal at bar [i] is [v]. *)
Definition signal_at (m : M store ref) (σ : store) (data : ref) (i : nat)
    (v : float) : Prop :=
  exists σ' df' signal,
    m σ = Ret data σ' /\ σ' !! data = Some df' /\
    columns df' !! "signal" = Some signal /\ signal !! i = Some v.

(** ** Further vocabulary for the simulator *)

Definition count_buys (log : list Trade) : nat :=
  length (List.filter is_buy log).

(** The bars of [signals] carry no [+1] in their [signal] column. *)
Definition no_buy_signal (signals : DataFrame) : Prop :=
  forall sigcol, columns signals !! "signal" = Some sigcol ->
    Forall (fun x => (x =? 1)%float = false) sigcol.

(** What the loop records for bar [i]: the row's label and close, and
    an equity that is cash plus market value. *)
Definition position_of_bar (signals : DataFrame) (i : nat) (pos : Position) : Prop :=
  exists row,
    iloc signals i = Ok row /\
    p_date pos = name row /\
    getitem row "Close" = Ok (p_price pos) /\
    p_market_value pos = (F.of_int (p_shares pos) * p_price pos)%float /\
    p_equity pos = (p_capital pos + p_market_value pos)%float.

(** The sign a binary64 value carries; NaN carries none. *)
Definition sf_signed (s : bool) (f : spec_float) : Prop :=
  match f with
  | S754_zero s' => s' = s
  | S754_infinity s' => s' = s
  | S754_finite s' _ _ => s' = s
  | S754_nan => True
  end.


(** A positive finite binary64 value. *)
Definition positive_finite (x : float) : Prop :=
  exists m e, Prim2SF x = S754_finite false m e.

(** Consecutive entries never decrease. *)
Fixpoint non_decreasing (l : list float) : Prop :=
  match l with
  | x :: (y :: _) as t => (x <=? y)%float = true /\ non_decreasing t
  | _ => True
  end.

(** ** Strategies as column plans

    What an embedded method leaves in the frame, written as the list
    of columns it computes from the prices alone.  The plan is a means
    of proof: it shows that a run is a function of the [Close] column
    and the row count, and the theorems state what follows from that
    for the runs themselves. *)

(** [data[k] = c] for each [(k, c)] of the list, in order. *)
Definition write_all (plan : list (string * list float)) (df : DataFrame) : DataFrame :=
  fold_left (fun d kc => set_col d (fst kc) (snd kc)) plan df.

(** The column a plan leaves under [k]: its last binding of [k]. *)
Fixpoint plan_lookup (plan : list (string * list float)) (k : string)
    : option (list float) :=
  match plan with
  | [] => None
  | (k', c) :: rest =>
      match plan_lookup rest k with
      | Some c' => Some c'
      | None => if decide (k' = k) then Some c else None
      end
  end.

Definition span_of (v : pval) : float := as_float v.

Definition band_middle (w : nat) (close : list float) : list float :=
  Pd.rolling_mean w close.
Definition band_std (w : nat) (close : list float) : list float :=
  Pd.rolling_std w close.
Definition band_upper (w : nat) (k : float) (close : list float) : list float :=
  Pd.add (band_middle w close) (Pd.mul_scalar (band_std w close) k).
Definition band_lower (w : nat) (k : float) (close : list float) : list float :=
  Pd.sub (band_middle w close) (Pd.mul_scalar (band_std w close) k).

Definition ma_signal (params : option Params) (close : list float) (n : nat)
    : list float :=
  let fast := Pd.rolling_mean (window_of (ma_fast_period params)) close in
  let slow := Pd.rolling_mean (window_of (ma_slow_period params)) close in
  two_sided n (Pd.gt fast slow) (Pd.lt fast slow).

Definition ma_columns (params : option Params) (close : list float) (n : nat)
    : list (string * list float) :=
  [("fast_ma", Pd.rolling_mean (window_of (ma_fast_period params)) close);
   ("slow_ma", Pd.rolling_mean (window_of (ma_slow_period params)) close);
   ("signal", ma_signal params close n);
   ("position", Pd.diff (ma_signal params close n))].

Definition mr_signal (params : option Params) (close : list float) (n : nat)
    : list float :=
  let w := window_of (mr_bb_period params) in
  let k := as_float (mr_bb_std params) in
  let r := rsi (window_of (mr_rsi_period params)) close in
  two_sided n
    (Pd.band (Pd.le close (Pd.mul_scalar (band_lower w k close) 1.01))
             (Pd.le_scalar r (as_float (mr_rsi_oversold params))))
    (Pd.band (Pd.ge close (Pd.mul_scalar (band_upper w k close) 0.99))
             (Pd.ge_scalar r (as_float (mr_rsi_overbought params)))).

Definition mr_columns (params : option Params) (close : list float) (n : nat)
    : list (string * list float) :=
  let w := window_of (mr_bb_period params) in
  let k := as_float (mr_bb_std params) in
  [("bb_middle", band_middle w close);
   ("bb_std", band_std w close);
   ("bb_upper", band_upper w k close);
   ("bb_lower", band_lower w k close);
   ("rsi", rsi (window_of (mr_rsi_period params)) close);
   ("signal", mr_signal params close n);
   ("position", Pd.diff (mr_signal params close n))].

Definition mo_signal (params : option Params) (close : list float) (n : nat)
    : list float :=
  let m := Pd.pct_change (periods_of (mo_lookback_period params)) close in
  let thr := as_float (mo_threshold params) in
  two_sided n (Pd.gt_scalar m thr) (Pd.lt_scalar m (- thr)%float).

Definition mo_columns (params : option Params) (close : list float) (n : nat)
    : list (string * list float) :=
  [("momentum", Pd.pct_change (periods_of (mo_lookback_period params)) close);
   ("signal", mo_signal params close n);
   ("position", Pd.diff (mo_signal params close n))].

Definition bb_signal (params : option Params) (close : list float) (n : nat)
    : list float :=
  let w := window_of (bb_period params) in
  let k := as_float (bb_std params) in
  two_sided n (Pd.le close (band_lower w k close))
              (Pd.ge close (band_upper w k close)).

Definition bb_columns (params : option Params) (close : list float) (n : nat)
    : list (string * list float) :=
  let w := window_of (bb_period params) in
  let k := as_float (bb_std params) in
  [("bb_middle", band_middle w close);
   ("bb_std", band_std w close);
   ("bb_upper", band_upper w k close);
   ("bb_lower", band_lower w k close);
   ("bb_width",
    Pd.div (Pd.sub (band_upper w k close) (band_lower w k close))
           (band_middle w close));
   ("signal", bb_signal params close n);
   ("position", Pd.diff (bb_signal params close n))].

Definition rd_signal (params : option Params) (close : list float) (n : nat)
    : list float :=
  let r := rsi (window_of (rd_period params)) close in
  let dp := Z.of_nat (window_of (rd_divergence_period params)) in
  two_sided n
    (Pd.band (Pd.band (Pd.lt close (Pd.shift dp close))
                      (Pd.gt r (Pd.shift dp r)))
             (Pd.lt_scalar r 40))
    (Pd.band (Pd.band (Pd.gt close (Pd.shift dp close))
                      (Pd.lt r (Pd.shift dp r)))
             (Pd.gt_scalar r 60)).

Definition rd_columns (params : option Params) (close : list float) (n : nat)
    : list (string * list float) :=
  let r := rsi (window_of (rd_period params)) close in
  let dw := window_of (rd_divergence_period params) in
  [("rsi", r);
   ("price_ma", Pd.rolling_mean dw close);
   ("rsi_ma", Pd.rolling_mean dw r);
   ("signal", rd_signal params close n);
   ("position", Pd.diff (rd_signal params close n))].

Definition macd_line (params : option Params) (close : list float) : list float :=
  Pd.sub (Pd.ewm_mean (span_of (macd_fast params)) close)
         (Pd.ewm_mean (span_of (macd_slow params)) close).

Definition macd_signal_line (params : option Params) (close : list float)
    : list float :=
  Pd.ewm_mean (span_of (macd_signal params)) (macd_line params close).

Definition macd_signal_column (params : option Params) (close : list float)
    (n : nat) : list float :=
  let m := macd_line params close in
  let g := macd_signal_line params close in
  two_sided n
    (Pd.band (Pd.gt m g) (Pd.le (Pd.shift 1 m) (Pd.shift 1 g)))
    (Pd.band (Pd.lt m g) (Pd.ge (Pd.shift 1 m) (Pd.shift 1 g))).

Definition macd_columns (params : option Params) (close : list float) (n : nat)
    : list (string * list float) :=
  [("macd", macd_line params close);
   ("macd_signal", macd_signal_line params close);
   ("macd_histogram",
    Pd.sub (macd_line params close) (macd_signal_line params close));
   ("signal", macd_signal_column params close n);
   ("position", Pd.diff (macd_signal_column params close n))].

(** The columns strategy [s] computes from a [Close] column on [n]
    rows. *)
Definition columns_of (s : strategy) (params : option Params)
    (close : list float) (n : nat) : list (string * list float) :=
  match s with
  | MovingAverageCrossover => ma_columns params close n
  | MeanReversion => mr_columns params close n
  | Momentum => mo_columns params close n
  | BollingerBands => bb_columns params close n
  | RsiDivergence => rd_columns params close n
  | MacdCrossover => macd_columns params close n
  end.

(** The method body behind [method s]. *)
Definition body_of (s : strategy) : option Params -> M DataFrame unit :=
  match s with
  | MovingAverageCrossover => moving_average_crossover_body
  | MeanReversion => mean_reversion_body
  | Momentum => momentum_body
  | BollingerBands => bollinger_bands_body
  | RsiDivergence => rsi_divergence_body
  | MacdCrossover => macd_crossover_body
  end.

(** A signal value: sell, none or buy. *)
Definition is_signal (x : float) : Prop :=
  x = (-1)%float \/ x = 0%float \/ x = 1%float.

(** The columns strategy [s] assigns. *)
Definition writes_of (s : strategy) : list string :=
  match s with
  | MovingAverageCrossover => ma_writes
  | MeanReversion => mr_writes
  | Momentum => mo_writes
  | BollingerBands => bb_writes
  | RsiDivergence => rd_writes
  | MacdCrossover => macd_writes
  end.

(** The same prices as [rising_prices] under other labels, with a
    volume column. *)
Definition relabelled_prices : DataFrame :=
  mkFrame [10; 20; 30; 40; 50; 60]%Z
    (<["Close" := [10; 11; 12; 13; 14; 15]%float]>
    (<["Volume" := [1; 2; 3; 4; 5; 6]%float]> ∅)).

(** The [signal] column of each strategy's plan. *)
Definition signal_of (s : strategy) (params : option Params)
    (close : list float) (n : nat) : list float :=
  match s with
  | MovingAverageCrossover => ma_signal params close n
  | MeanReversion => mr_signal params close n
  | Momentum => mo_signal params close n
  | BollingerBands => bb_signal params close n
  | RsiDivergence => rd_signal params close n
  | MacdCrossover => macd_signal_column params close n
  end.

(** The errors a backtest can still raise on a frame that has the
    columns it reads: [int()] of a non-finite share count, and the
    division by a zero initial capital on a series without bars. *)
Definition numeric_error (e : exn) : Prop :=
  e = OverflowError \/ e = ValueError \/ e = ZeroDivisionError.

(** ** The strategy catalogue

    [get_available_strategies] returns a literal list of dictionaries.
    The display texts ([name], [description] and each parameter's
    [description]) are left out; everything else is kept. *)

Record ParamInfo : Type := mkParam {
  a_type : string;
  a_default : pval;
  a_min : pval;
  a_max : pval
}.

Record StrategyInfo : Type := mkInfo {
  i_id : string;
  i_category : string;
  i_parameters : list (string * ParamInfo)
}.

(** [TradingStrategies.get_available_strategies] *)
Definition get_available_strategies : list StrategyInfo :=
  [ mkInfo "moving-average-crossover" "trend-following"
      [ ("fast_period", mkParam "int" (PInt 10) (PInt 5) (PInt 50));
        ("slow_period", mkParam "int" (PInt 20) (PInt 10) (PInt 100)) ];
    mkInfo "mean-reversion" "mean-reversion"
      [ ("bb_period", mkParam "int" (PInt 20) (PInt 10) (PInt 50));
        ("bb_std", mkParam "float" (PInt 2) (PInt 1) (PInt 3));
        ("rsi_period", mkParam "int" (PInt 14) (PInt 10) (PInt 30));
        ("rsi_overbought", mkParam "int" (PInt 70) (PInt 60) (PInt 80));
        ("rsi_oversold", mkParam "int" (PInt 30) (PInt 20) (PInt 40)) ];
    mkInfo "momentum" "momentum"
      [ ("lookback_period", mkParam "int" (PInt 20) (PInt 10) (PInt 60));
        ("threshold",
         mkParam "float" (PFloat 0.05) (PFloat 0.01) (PFloat 0.20)) ];
    mkInfo "bollinger-bands" "mean-reversion"
      [ ("period", mkParam "int" (PInt 20) (PInt 10) (PInt 50));
        ("std", mkParam "float" (PInt 2) (PInt 1) (PInt 3)) ];
    mkInfo "rsi-divergence" "oscillator"
      [ ("period", mkParam "int" (PInt 14) (PInt 10) (PInt 30));
        ("divergence_period", mkParam "int" (PInt 20) (PInt 10) (PInt 50)) ];
    mkInfo "macd-crossover" "trend-following"
      [ ("fast", mkParam "int" (PInt 12) (PInt 8) (PInt 20));
        ("slow", mkParam "int" (PInt 26) (PInt 20) (PInt 40));
        ("signal", mkParam "int" (PInt 9) (PInt 5) (PInt 15)) ] ].

(** The catalogue lists parameter [k] of strategy [s] with default [d]. *)
Definition catalogue_default (s : strategy) (k : string) (d : pval) : Prop :=
  exists info a,
    In info get_available_strategies /\ i_id info = strategy_id s /\
    In (k, a) (i_parameters info) /\ a_default a = d.

(** ** Data preparation *)

(** One step of an insertion sort on [(label, position)] pairs: the
    new pair goes before the first pair whose label is not smaller. *)
Fixpoint insert_by_label (p : Z * nat) (l : list (Z * nat)) : list (Z * nat) :=
  match l with
  | [] => [p]
  | q :: t =>
      if (fst p <=? fst q)%Z then p :: l else q :: insert_by_label p t
  end.

Definition sort_by_label (l : list (Z * nat)) : list (Z * nat) :=
  foldr insert_by_label [] l.

(** The row positions of [idx] in ascending label order.  Among equal
    labels this keeps the original order; pandas' default sort does not
    promise one, and nothing below depends on it. *)
Definition argsort (idx : list Z) : list nat :=
  map snd (sort_by_label (zip idx (seq 0 (length idx)))).

(** [l] read at the positions [order], as [take] does in pandas. *)
Definition take_at {A : Type} (order : list nat) (l : list A) : list A :=
  omap (fun i => l !! i) order.

(** [df.sort_index()]: a new frame, every column and the index
    reordered by the same permutation. *)
Definition sort_index (df : DataFrame) : DataFrame :=
  let order := argsort (index df) in
  mkFrame (take_at order (index df)) (take_at order <$> columns df).

(** A new object in the store. *)
Definition alloc (df : DataFrame) : M store ref :=
  fun σ => let r := fresh (dom σ) in Ret r (<[r := df]> σ).

(** The frame behind a reference. *)
Definition deref (data : ref) : M store DataFrame :=
  on_frame data (fun df => Ret df df).

Definition prepared_columns : list string :=
  ["returns"; "log_returns"; "volume_ma"; "volume_ratio"].

Section Prepare.

(** [np.log] on one float64.  Binary64 arithmetic here has no
    logarithm, so the function is a parameter: what is proved of
    [prepare_data] holds for every choice of it. *)
Variable log : float -> float.

(** Lines 633-640, on the sorted frame. *)
Definition prepare_data_body : M DataFrame unit :=
  close ← col "Close";
  assign "returns" (Pd.pct_change 1 close);;
  close ← col "Close";
  assign "log_returns" (Pd.diff (map log close));;
  volume ← col "Volume";
  assign "volume_ma" (Pd.rolling_mean 20 volume);;
  volume ← col "Volume";
  volume_ma ← col "volume_ma";
  assign "volume_ratio" (Pd.div volume volume_ma).

(** [DataProcessor.prepare_data]: the local name [data] is rebound to
    the sorted copy, which is what the assignments write to and what is
    returned. *)
Definition prepare_data (data : ref) : M store ref :=
  df ← deref data;
  sorted ← alloc (sort_index df);
  on_frame sorted prepare_data_body;;
  mret sorted.

End Prepare.

(** A frame with volumes, out of order. *)
Definition unsorted_bars : DataFrame :=
  mkFrame [3; 1; 2]%Z
    (<["Close" := [12; 10; 11]%float]>
    (<["Volume" := [300; 100; 200]%float]> ∅)).

(** * Proofs *)

(** ** The result monad *)

Lemma bind_Ok {A B : Type} (m : result A) (f : A -> result B) (b : B) :
  m ≫= f = Ok b <-> exists a, m = Ok a /\ f a = Ok b.
Proof.
  destruct m as [a|e]; cbn; split.
  - intros H; exists a; auto.
  - intros (a' & [= <-] & H); exact H.
  - discriminate.
  - intros (a' & [=] & _).
Qed.

Ltac inv_bind H :=
  let a := fresh "a" in
  let Ha := fresh "Ha" in
  apply bind_Ok in H; destruct H as (a & Ha & H).

(** ** Truncation and floor agree wherever the simulator looks *)

Lemma trunc_floor_finite (s : bool) (m : positive) (e : Z) :
  ((0 <? F.floor_finite s m e) = (0 <? F.trunc_finite s m e))%Z /\
  ((0 < F.trunc_finite s m e)%Z -> F.floor_finite s m e = F.trunc_finite s m e).
Proof.
  unfold F.floor_finite, F.trunc_finite.
  destruct s; [|split; reflexivity].
  assert (Hfl : (match e with
                 | Z.neg p => Z.shiftr (Z.neg m) (Z.pos p)
                 | _ => Z.shiftl (Z.neg m) e
                 end < 0)%Z).
  { destruct e as [|p|p].
    - rewrite Z.shiftl_mul_pow2 by lia. cbn. lia.
    - rewrite Z.shiftl_mul_pow2 by lia.
      assert (0 < 2 ^ Z.pos p)%Z by (apply Z.pow_pos_nonneg; lia). nia.
    - rewrite Z.shiftr_div_pow2 by lia.
      apply Z.div_lt_upper_bound; [apply Z.pow_pos_nonneg; lia | lia]. }
  assert (Htr : (0 <= match e with
                 | Z.neg p => Z.shiftr (Z.pos m) (Z.pos p)
                 | _ => Z.shiftl (Z.pos m) e
                 end)%Z).
  { destruct e; [apply Z.shiftl_nonneg | apply Z.shiftl_nonneg
                | apply Z.shiftr_nonneg]; lia. }
  split; [|lia].
  destruct (Z.ltb_spec 0 (match e with
                 | Z.neg p => Z.shiftr (Z.neg m) (Z.pos p)
                 | _ => Z.shiftl (Z.neg m) e
                 end)); [lia|].
  symmetry. apply Z.ltb_ge. lia.
Qed.

Lemma py_int_floor (x : float) (t : Z) :
  F.py_int x = Ok t ->
  exists n, F.floor x = Ok n /\
    ((0 <? n) = (0 <? t))%Z /\ ((0 < t)%Z -> n = t).
Proof.
  unfold F.py_int, F.floor.
  destruct (Prim2SF x) as [sg|sg| |sg m e]; try discriminate.
  - intros [= <-]. exists 0%Z. auto.
  - intros [= <-]. exists (F.floor_finite sg m e).
    split; [reflexivity|]. apply trunc_floor_finite.
Qed.

Lemma floor_py_int (x : float) (n : Z) :
  F.floor x = Ok n ->
  exists t, F.py_int x = Ok t /\
    ((0 <? n) = (0 <? t))%Z /\ ((0 < t)%Z -> n = t).
Proof.
  unfold F.py_int, F.floor.
  destruct (Prim2SF x) as [sg|sg| |sg m e]; try discriminate.
  - intros [= <-]. exists 0%Z. auto.
  - intros [= <-]. exists (F.trunc_finite sg m e).
    split; [reflexivity|]. apply trunc_floor_finite.
Qed.

(** ** The simulator *)

Section Simulator.
Variables commission slippage : float.
Variable signals : DataFrame.

Local Abbreviation step := (bar_step commission slippage signals).
Local Abbreviation run := (run_bars commission slippage signals).

Lemma trade_step_effect date price sig st st' :
  trade_step commission slippage date price sig st = Ok st' ->
  trade_effect commission slippage date price st st'.
Proof.
  unfold trade_step.
  destruct ((sig =? 1)%float && (shares st =? 0)%Z) eqn:Hb.
  - apply andb_true_iff in Hb as [_ Hz%Z.eqb_eq].
    intros H. inv_bind H.
    destruct (0 <? a)%Z eqn:Hpos.
    + injection H as <-. apply Z.ltb_lt in Hpos.
      eapply te_buy; eauto.
    + injection H as <-. now apply te_none.
  - destruct ((sig =? -1)%float && (0 <? shares st)%Z) eqn:Hs.
    + apply andb_true_iff in Hs as [_ Hp%Z.ltb_lt].
      intros [= <-]. now apply te_sell.
    + intros [= <-]. now apply te_none.
Qed.

Lemma bar_step_inv st i st' :
  step st i = Ok st' ->
  exists row price sig st1,
    iloc signals i = Ok row /\
    getitem row "Close" = Ok price /\
    getitem row "signal" = Ok sig /\
    trade_step commission slippage (name row) price sig st = Ok st1 /\
    st' = record_step (name row) price st1.
Proof.
  unfold bar_step. intros H.
  inv_bind H. rename a into row.
  inv_bind H. rename a into price.
  inv_bind H. rename a into sig.
  inv_bind H. rename a into st1.
  injection H as <-.
  exists row, price, sig, st1. auto.
Qed.

Lemma run_bars_app st l1 l2 st' :
  run st (l1 ++ l2) = Ok st' <->
  exists st1, run st l1 = Ok st1 /\ run st1 l2 = Ok st'.
Proof.
  revert st. induction l1 as [|i l1 IH]; intros st; cbn [run_bars app].
  - split; [intros H; exists st; auto | intros (st1 & [= <-] & H); exact H].
  - split.
    + intros H. inv_bind H. apply IH in H as (st1 & H1 & H2).
      exists st1. split; [|exact H2].
      apply bind_Ok. exists a. auto.
    + intros (st1 & H1 & H2). inv_bind H1.
      apply bind_Ok. exists a. split; [exact Ha|].
      apply IH. exists st1. auto.
Qed.

Lemma run_bars_snoc st l i st' :
  run st (l ++ [i]) = Ok st' <->
  exists st1, run st l = Ok st1 /\ step st1 i = Ok st'.
Proof.
  rewrite run_bars_app. split; intros (st1 & H1 & H2); exists st1; split; auto.
  - cbn in H2. inv_bind H2. now injection H2 as <-.
  - cbn. apply bind_Ok. exists st'. auto.
Qed.


Lemma replay_app (h : Z) (l1 l2 : list Trade) :
  replay h (l1 ++ l2) =
  (match replay h l1 with Some h' => replay h' l2 | None => None end).
Proof.
  revert h. induction l1 as [|t l1 IH]; intros h; [reflexivity|].
  destruct t as [d n p c k|d n p c k]; cbn [replay app].
  - destruct ((h =? 0)%Z && (0 <? n)%Z); [apply IH | reflexivity].
  - destruct ((0 <? h)%Z && (n =? h)%Z); [apply IH | reflexivity].
Qed.

Lemma replay_alternates (log : list Trade) :
  forall h h', replay h log = Some h' -> alternates (h =? 0)%Z log = true.
Proof.
  induction log as [|t log IH]; intros h h' H; [reflexivity|].
  destruct t as [d n p c k|d n p c k]; cbn [replay alternates] in *.
  - destruct (Z.eqb_spec h 0); [|discriminate].
    destruct (Z.ltb_spec 0 n); [|discriminate]. cbn in H.
    apply IH in H. destruct (Z.eqb_spec n 0); [lia|]. exact H.
  - destruct (Z.ltb_spec 0 h); [|discriminate].
    destruct (Z.eqb_spec n h); [|discriminate]. cbn in H.
    apply IH in H. destruct (Z.eqb_spec h 0); [lia|]. exact H.
Qed.

Lemma replay_parity (log : list Trade) :
  forall h h', replay h log = Some h' ->
    Nat.even (length log) = Bool.eqb (h =? 0)%Z (h' =? 0)%Z.
Proof.
  induction log as [|t log IH]; intros h h' H.
  - injection H as <-. cbn. now destruct (h =? 0)%Z.
  - cbn [length]. rewrite Nat.even_succ, <- Nat.negb_even.
    destruct t as [d n p c k|d n p c k]; cbn [replay] in H.
    + destruct (Z.eqb_spec h 0); [|discriminate].
      destruct (Z.ltb_spec 0 n); [|discriminate]. cbn in H.
      rewrite (IH _ _ H). destruct (Z.eqb_spec n 0); [lia|].
      now destruct (h' =? 0)%Z.
    + destruct (Z.ltb_spec 0 h); [|discriminate].
      destruct (Z.eqb_spec n h); [|discriminate]. cbn in H.
      rewrite (IH _ _ H). destruct (Z.eqb_spec h 0); [lia|].
      now destruct (h' =? 0)%Z.
Qed.

Lemma trade_effect_inv date price st st' :
  trade_effect commission slippage date price st st' ->
  sim_inv st -> sim_inv st'.
Proof.
  intros [->|n Hz Hn _ ->|Hp ->] [Hnn Hr]; unfold sim_inv; cbn [shares trades].
  - auto.
  - split; [lia|]. rewrite replay_app, Hr, Hz. cbn.
    destruct (Z.ltb_spec 0 n); [reflexivity | lia].
  - split; [lia|]. rewrite replay_app, Hr. cbn.
    destruct (Z.ltb_spec 0 (shares st)); [|lia].
    now rewrite Z.eqb_refl.
Qed.

Lemma step_inv st i st' :
  step st i = Ok st' -> sim_inv st -> sim_inv st'.
Proof.
  intros (row & price & sig & st1 & _ & _ & _ & Ht & ->)%bar_step_inv Hinv.
  apply trade_step_effect in Ht.
  exact (trade_effect_inv _ _ _ _ Ht Hinv).
Qed.

Lemma run_inv idxs : forall st st',
  run st idxs = Ok st' -> sim_inv st -> sim_inv st'.
Proof.
  induction idxs as [|i idxs IH]; intros st st' H Hinv; cbn in H.
  - now injection H as <-.
  - inv_bind H. eapply IH; [exact H|]. eapply step_inv; eauto.
Qed.

(** Each iteration appends exactly one equity point and one position
    record, both computed from the state the iteration leaves. *)
Lemma step_logs st i st' :
  step st i = Ok st' ->
  exists row price,
    iloc signals i = Ok row /\ getitem row "Close" = Ok price /\
    equity st' = equity st ++ [(capital st' + F.of_int (shares st') * price)%float] /\
    positions st' = positions st ++
      [mkPosition (name row) (shares st') price
         (capital st' + F.of_int (shares st') * price)%float (capital st')
         (F.of_int (shares st') * price)%float].
Proof.
  intros (row & price & sig & st1 & Hrow & Hp & _ & Ht & ->)%bar_step_inv.
  exists row, price. repeat split; auto.
  - apply trade_step_effect in Ht as [->|n _ _ _ ->| _ ->]; reflexivity.
  - apply trade_step_effect in Ht as [->|n _ _ _ ->| _ ->]; reflexivity.
Qed.

Lemma run_equity idxs : forall st st',
  run st idxs = Ok st' ->
  exists tail, equity st' = equity st ++ tail /\ length tail = length idxs.
Proof.
  induction idxs as [|i idxs IH]; intros st st' H; cbn in H.
  - injection H as <-. exists []. now rewrite app_nil_r.
  - inv_bind H. apply IH in H as (tail & -> & Hlen).
    apply step_logs in Ha as (row & price & _ & _ & -> & _).
    eexists (_ :: tail). rewrite <- app_assoc. cbn. split; [reflexivity|lia].
Qed.

Lemma run_positions idxs : forall st st',
  run st idxs = Ok st' ->
  Forall (fun p => (0 <= p_shares p)%Z) (positions st) -> sim_inv st ->
  Forall (fun p => (0 <= p_shares p)%Z) (positions st').
Proof.
  induction idxs as [|i idxs IH]; intros st st' H Hall Hinv; cbn in H.
  - now injection H as <-.
  - inv_bind H. eapply IH; [exact H| |eapply step_inv; eauto].
    pose proof (step_inv _ _ _ Ha Hinv) as [Hnn _].
    apply step_logs in Ha as (row & price & _ & _ & _ & ->).
    apply Forall_app. split; [exact Hall|]. constructor; [exact Hnn|constructor].
Qed.

End Simulator.

Lemma init_state_inv (c : float) : sim_inv (init_state c).
Proof. split; [cbn; lia | reflexivity]. Qed.

Lemma liquidate_inv commission slippage data st st' :
  liquidate commission slippage data st = Ok st' ->
  equity st' = equity st /\ positions st' = positions st /\
  ((shares st <= 0)%Z -> trades st' = trades st) /\
  ((0 < shares st)%Z ->
     exists close final_price date,
       getcol data "Close" = Ok close /\ iloc_last close = Ok final_price /\
       iloc_last (index data) = Ok date /\
       trades st' = trades st ++
         [SELL date (shares st) final_price
            (F.of_int (shares st) * final_price * (1 - commission - slippage))%float
            (capital st + F.of_int (shares st) * final_price * (1 - commission - slippage))%float]).
Proof.
  unfold liquidate. destruct (Z.ltb_spec 0 (shares st)) as [Hp|Hp].
  - intros H. inv_bind H. rename a into close.
    inv_bind H. rename a into final_price.
    inv_bind H. rename a into date. injection H as <-. cbn.
    repeat split; [lia|]. intros _. exists close, final_price, date. auto.
  - intros [= <-]. repeat split; auto. lia.
Qed.

Lemma cpm_fields eq tr pos cfg res :
  calculate_performance_metrics eq tr pos cfg = Ok res ->
  r_equity res = eq /\ r_trades res = tr /\ r_positions res = pos /\
  iloc_last eq = Ok (s_final_capital (r_summary res)) /\
  s_initial_capital (r_summary res) = dict_get cfg "initial_capital" 100000.
Proof.
  unfold calculate_performance_metrics. intros H.
  inv_bind H. rename a into final_capital.
  inv_bind H. rename a into total_return.
  inv_bind H. rename a into max_drawdown.
  injection H as <-. cbn. auto.
Qed.

Lemma execute_backtest_inv data signals config res :
  execute_backtest data signals config = Ok res ->
  let cfg := effective_config config in
  exists st st',
    simulate signals cfg = Ok st /\
    liquidate (dict_get cfg "commission" default_commission)
      (dict_get cfg "slippage" default_slippage) data st = Ok st' /\
    calculate_performance_metrics (equity st') (trades st') (positions st') cfg = Ok res.
Proof.
  intros H. cbv zeta. unfold execute_backtest, simulate, effective_config in *.
  inv_bind H. rename a into st. inv_bind H. rename a into st'.
  exists st, st'. auto.
Qed.

Lemma bar_step_effect commission slippage signals st i st' :
  bar_step commission slippage signals st i = Ok st' ->
  (trades st' = trades st /\ shares st' = shares st) \/
  (exists d n p cost cap,
     shares st = 0%Z /\ (0 < n)%Z /\
     trades st' = trades st ++ [BUY d n p cost cap] /\ shares st' = n) \/
  (exists d p proceeds cap,
     (0 < shares st)%Z /\
     trades st' = trades st ++ [SELL d (shares st) p proceeds cap] /\
     shares st' = 0%Z).
Proof.
  intros (row & price & sig & st1 & _ & _ & _ & Ht & ->)%bar_step_inv.
  apply trade_step_effect in Ht as [->|n Hz Hn _ ->|Hp ->]; cbn.
  - left. auto.
  - right. left. eauto 10.
  - right. right. eauto 10.
Qed.

(** C1. On every run of the simulator that returns: after any number
    of bars the shares accumulator is a non-negative integer and equals
    what the trade log so far replays to; one bar either leaves the log
    alone, or appends a BUY (only from zero shares) or a SELL (only from
    a positive holding, which it closes); every recorded position is
    non-negative; a position left open after the last bar is closed by
    one appended SELL at the last close of [data]; and the returned log
    replays to zero shares, alternates BUY, SELL, ... and has even
    length. *)
Theorem backtest_position_discipline data signals config res :
  execute_backtest data signals config = Ok res ->
  let cfg := effective_config config in
  let c := dict_get cfg "commission" default_commission in
  let s := dict_get cfg "slippage" default_slippage in
  let init := init_state (dict_get cfg "initial_capital" 100000) in
  (forall k st, run_bars c s signals init (seq 0 k) = Ok st ->
     (0 <= shares st)%Z /\ replay 0 (trades st) = Some (shares st)) /\
  (forall st i st', bar_step c s signals st i = Ok st' ->
     (trades st' = trades st /\ shares st' = shares st) \/
     (exists d n p cost cap,
        shares st = 0%Z /\ (0 < n)%Z /\
        trades st' = trades st ++ [BUY d n p cost cap] /\ shares st' = n) \/
     (exists d p proceeds cap,
        (0 < shares st)%Z /\
        trades st' = trades st ++ [SELL d (shares st) p proceeds cap] /\
        shares st' = 0%Z)) /\
  Forall (fun p => (0 <= p_shares p)%Z) (r_positions res) /\
  (exists st, simulate signals cfg = Ok st /\
     ((0 < shares st)%Z ->
        exists close final_price date proceeds cap,
          getcol data "Close" = Ok close /\ iloc_last close = Ok final_price /\
          r_trades res = trades st ++ [SELL date (shares st) final_price proceeds cap]) /\
     (shares st = 0%Z -> r_trades res = trades st)) /\
  replay 0 (r_trades res) = Some 0%Z /\
  alternates true (r_trades res) = true /\
  Nat.even (length (r_trades res)) = true.
Proof.
  intros H. cbv zeta.
  apply execute_backtest_inv in H as (st & st' & Hsim & Hliq & Hcpm).
  apply cpm_fields in Hcpm as (_ & Htr & Hpos & _).
  apply liquidate_inv in Hliq as (_ & Hp' & Hflat & Hopen).
  assert (Hinv : sim_inv st).
  { eapply run_inv; [exact Hsim | apply init_state_inv]. }
  assert (Hrep : replay 0 (r_trades res) = Some 0%Z).
  { rewrite Htr. destruct Hinv as [Hnn Hr].
    destruct (Z.eq_dec (shares st) 0%Z) as [Hz|Hnz].
    - rewrite Hflat by lia. now rewrite Hr, Hz.
    - destruct Hopen as (cl & fp & d & _ & _ & _ & ->); [lia|].
      rewrite replay_app, Hr. cbn.
      destruct (Z.ltb_spec 0 (shares st)); [|lia]. now rewrite Z.eqb_refl. }
  repeat split.
  - eapply (run_inv _ _ _ _ _ _ H). apply init_state_inv.
  - eapply (run_inv _ _ _ _ _ _ H). apply init_state_inv.
  - intros st0 i st0'. apply bar_step_effect.
  - rewrite Hpos, Hp'. eapply run_positions; [exact Hsim | constructor | apply init_state_inv].
  - exists st. split; [exact Hsim|]. split.
    + intros Hpos'. destruct (Hopen Hpos') as (cl & fp & d & Hc & Hl & _ & Ht).
      exists cl, fp, d. do 2 eexists. rewrite Htr. eauto.
    + intros Hz. rewrite Htr. apply Hflat. lia.
  - exact Hrep.
  - exact (replay_alternates _ _ _ Hrep).
  - now rewrite (replay_parity _ _ _ Hrep).
Qed.

Lemma backtest_position_discipline_witness :
  exists res, execute_backtest demo_frame demo_frame None = Ok res /\
    replay 0 (r_trades res) = Some 0%Z /\ length (r_trades res) = 2.
Proof.
  eexists. split; [vm_compute; reflexivity|].
  split; [|vm_compute; reflexivity].
  match goal with
  | |- replay _ (r_trades ?r) = _ =>
      destruct (backtest_position_discipline demo_frame demo_frame None r)
        as (_ & _ & _ & _ & Hflat & _)
  end.
  - vm_compute. reflexivity.
  - exact Hflat.
Defined.

(** C2. At a bar whose row reads as close [price] and signal [sig]:
    with signal +1 and no shares held, whenever floor(cash * 0.95 /
    price) is a number [n] the iteration returns, and for [n > 0] it
    holds [n] shares, cash is lower by exactly [n * price * (1 +
    commission + slippage)] and a BUY of [n] at [price] is appended,
    while for [n <= 0] nothing is traded; with signal -1 and shares
    held, the iteration returns with cash higher by exactly [shares *
    price * (1 - commission - slippage)], a SELL appended and no shares
    left; in every other case it returns with cash, shares and trade
    log unchanged. *)
Theorem bar_step_trading_rule commission slippage signals st i row price sig :
  iloc signals i = Ok row ->
  getitem row "Close" = Ok price ->
  getitem row "signal" = Ok sig ->
  ((sig =? 1)%float = true -> shares st = 0%Z ->
   forall n, F.floor (capital st * 0.95 / price)%float = Ok n ->
   exists st', bar_step commission slippage signals st i = Ok st' /\
     ((0 < n)%Z ->
        let cost := (F.of_int n * price * (1 + commission + slippage))%float in
        shares st' = n /\
        capital st' = (capital st - cost)%float /\
        trades st' = trades st ++
          [BUY (name row) n price cost (capital st' + F.of_int n * price)%float]) /\
     ((n <= 0)%Z ->
        shares st' = 0%Z /\ capital st' = capital st /\ trades st' = trades st)) /\
  ((sig =? -1)%float = true -> (0 < shares st)%Z ->
   exists st', bar_step commission slippage signals st i = Ok st' /\
     let proceeds := (F.of_int (shares st) * price * (1 - commission - slippage))%float in
     capital st' = (capital st + proceeds)%float /\
     trades st' = trades st ++
       [SELL (name row) (shares st) price proceeds (capital st')] /\
     shares st' = 0%Z) /\
  (~ ((sig =? 1)%float = true /\ shares st = 0%Z) ->
   ~ ((sig =? -1)%float = true /\ (0 < shares st)%Z) ->
   exists st', bar_step commission slippage signals st i = Ok st' /\
     capital st' = capital st /\ shares st' = shares st /\
     trades st' = trades st).
Proof.
  intros Hrow Hp Hs.
  unfold bar_step. rewrite Hrow. cbn. rewrite Hp. cbn. rewrite Hs. cbn.
  unfold trade_step. repeat split.
  - intros Hsig Hz n Hfl.
    rewrite Hsig, Hz. cbn.
    apply floor_py_int in Hfl as (t & -> & Hsign & Heq). cbn.
    destruct (Z.ltb_spec 0 t) as [Ht|Ht].
    + specialize (Heq Ht). subst t. cbn.
      eexists. split; [reflexivity|]. cbn. split; [auto|lia].
    + apply Z.ltb_ge in Hsign. cbn.
      eexists. split; [reflexivity|]. cbn. split; [lia|auto].
  - intros Hsig Hpos.
    assert (Hb : ((sig =? 1)%float && (shares st =? 0)%Z) = false).
    { apply andb_false_iff. right. apply Z.eqb_neq. lia. }
    rewrite Hb, Hsig. apply Z.ltb_lt in Hpos. rewrite Hpos. cbn.
    eexists. split; [reflexivity|]. cbn. auto.
  - intros Hn1 Hn2.
    destruct ((sig =? 1)%float && (shares st =? 0)%Z) eqn:Hb.
    { apply andb_true_iff in Hb as [Hb1 Hb2%Z.eqb_eq]. tauto. }
    destruct ((sig =? -1)%float && (0 <? shares st)%Z) eqn:Hb'.
    { apply andb_true_iff in Hb' as [Hb1 Hb2%Z.ltb_lt]. tauto. }
    cbn. eexists. split; [reflexivity|]. cbn. auto.
Qed.

Lemma bar_step_trading_rule_witness :
  exists st', bar_step default_commission default_slippage demo_frame
                (init_state 100000) 0 = Ok st' /\
    shares st' = 950%Z /\
    trades st' = [BUY 1 950 100 95142.499999999985 99857.500000000015].
Proof.
  destruct (bar_step_trading_rule default_commission default_slippage demo_frame
              (init_state 100000) 0 (mkRow 1 (<["Close" := 100%float]>
                                             (<["signal" := 1%float]> ∅)))
              100%float 1%float) as [Hbuy _].
  - vm_compute. reflexivity.
  - vm_compute. reflexivity.
  - vm_compute. reflexivity.
  - destruct (Hbuy eq_refl eq_refl 950%Z) as (st' & Hst & Hpos & _).
    + vm_compute. reflexivity.
    + exists st'. split; [exact Hst|].
      destruct Hpos as (Hsh & Hcap & Htr); [lia|].
      split; [exact Hsh|]. rewrite Htr, Hcap. vm_compute. reflexivity.
Defined.

Lemma run_equity_at commission slippage signals init N stN i :
  run_bars commission slippage signals init (seq 0 N) = Ok stN ->
  i < N ->
  exists st row price,
    run_bars commission slippage signals init (seq 0 (S i)) = Ok st /\
    iloc signals i = Ok row /\ getitem row "Close" = Ok price /\
    equity stN !! (length (equity init) + i) =
      Some (capital st + F.of_int (shares st) * price)%float.
Proof.
  intros Hrun Hi.
  replace N with (S i + (N - S i)) in Hrun by lia.
  rewrite seq_app in Hrun.
  apply run_bars_app in Hrun as (st & Hst & Hrest).
  pose proof Hst as Hst'.
  rewrite seq_S in Hst'. cbn [Nat.add] in Hst'.
  apply run_bars_snoc in Hst' as (sti & Hsti & Hstep).
  apply run_equity in Hsti as (tl1 & Heq1 & Hlen1).
  apply step_logs in Hstep as (row & price & Hrow & Hp & Heq & _).
  apply run_equity in Hrest as (tl2 & Heq2 & _).
  exists st, row, price. repeat split; auto.
  rewrite Heq2, Heq, Heq1, length_seq in *.
  rewrite <- !app_assoc.
  rewrite lookup_app_r by lia.
  rewrite lookup_app_r by lia.
  replace (length (equity init) + i - length (equity init) - length tl1) with 0 by lia.
  reflexivity.
Qed.

(** C3. When the simulator returns on a series of [N] bars, the equity
    curve has [N + 1] entries, the first is the initial capital, and
    entry [i + 1] is the cash plus shares times the close of bar [i],
    in the state reached after processing bars [0..i]. *)
Theorem equity_curve_shape data signals config res :
  execute_backtest data signals config = Ok res ->
  let cfg := effective_config config in
  let c := dict_get cfg "commission" default_commission in
  let s := dict_get cfg "slippage" default_slippage in
  let initial_capital := dict_get cfg "initial_capital" 100000 in
  let N := length (index signals) in
  length (r_equity res) = N + 1 /\
  r_equity res !! 0 = Some initial_capital /\
  forall i, i < N ->
    exists st row price,
      run_bars c s signals (init_state initial_capital) (seq 0 (S i)) = Ok st /\
      iloc signals i = Ok row /\ getitem row "Close" = Ok price /\
      r_equity res !! (S i) = Some (capital st + F.of_int (shares st) * price)%float.
Proof.
  intros H. cbv zeta.
  apply execute_backtest_inv in H as (st & st' & Hsim & Hliq & Hcpm).
  apply cpm_fields in Hcpm as (Heq & _).
  apply liquidate_inv in Hliq as (Heq' & _).
  rewrite Heq, Heq'. unfold simulate in Hsim.
  split; [|split].
  - apply run_equity in Hsim as (tl & -> & Hlen).
    rewrite length_app, Hlen, length_seq. cbn. lia.
  - apply run_equity in Hsim as (tl & -> & _). reflexivity.
  - intros i Hi.
    destruct (run_equity_at _ _ _ _ _ _ i Hsim Hi) as (sti & row & price & H1 & H2 & H3 & H4).
    exists sti, row, price. auto.
Qed.

Lemma equity_curve_shape_witness :
  exists res, execute_backtest demo_frame demo_frame None = Ok res /\
    length (r_equity res) = 4 /\ r_equity res !! 0 = Some 100000%float.
Proof.
  eexists. split; [vm_compute; reflexivity|].
  match goal with
  | |- length (r_equity ?r) = _ /\ _ =>
      destruct (equity_curve_shape demo_frame demo_frame None r)
        as (Hlen & Hhd & _)
  end.
  - vm_compute. reflexivity.
  - split; [exact Hlen | exact Hhd].
Defined.

Lemma cpm_total_return eq tr pos cfg res :
  calculate_performance_metrics eq tr pos cfg = Ok res ->
  1 < length eq ->
  let initial := dict_get cfg "initial_capital" 100000 in
  s_total_return (r_summary res) =
    ((s_final_capital (r_summary res) - initial) / initial * 100)%float.
Proof.
  unfold calculate_performance_metrics, total_return_of. intros H Hlen.
  inv_bind H. rename a into final_capital.
  destruct (Nat.eqb_spec (length eq) 1) as [Heq|_]; [lia|]. cbn in H.
  inv_bind H. rename a into max_drawdown.
  injection H as <-. reflexivity.
Qed.

Lemma iloc_close_lookup df i row price close :
  iloc df i = Ok row -> getitem row "Close" = Ok price ->
  getcol df "Close" = Ok close -> close !! i = Some price.
Proof.
  unfold iloc, getitem, getcol.
  destruct (index df !! i) as [d|]; [|discriminate]. intros [= <-]. cbn.
  rewrite lookup_omap.
  destruct (columns df !! "Close") as [c|]; [|discriminate]. cbn.
  destruct (c !! i) as [v|] eqn:Hv; [|discriminate].
  intros [= <-] [= <-]. exact Hv.
Qed.

(** C5. When shares are still held after the last bar of a run that
    returns: the equity curve is the one the loop built, neither
    extended nor revised; its last entry, which is the reported final
    capital and the basis of the total return, is the cash before
    liquidation plus shares times the last bar's close; and the log ends
    with a SELL whose recorded capital is that cash plus shares times
    the final close of [data] times (1 - commission - slippage).  When
    signals and prices are one well-formed frame the two closes are the
    same number. *)
Theorem terminal_liquidation_outside_equity data signals config st res :
  let cfg := effective_config config in
  let c := dict_get cfg "commission" default_commission in
  let s := dict_get cfg "slippage" default_slippage in
  let initial := dict_get cfg "initial_capital" 100000 in
  simulate signals cfg = Ok st ->
  (0 < shares st)%Z ->
  execute_backtest data signals config = Ok res ->
  r_equity res = equity st /\
  exists row price close final_price date,
    iloc signals (length (index signals) - 1) = Ok row /\
    getitem row "Close" = Ok price /\
    last (r_equity res) = Some (capital st + F.of_int (shares st) * price)%float /\
    s_final_capital (r_summary res) = (capital st + F.of_int (shares st) * price)%float /\
    s_total_return (r_summary res) =
      ((capital st + F.of_int (shares st) * price - initial) / initial * 100)%float /\
    getcol data "Close" = Ok close /\ iloc_last close = Ok final_price /\
    r_trades res = trades st ++
      [SELL date (shares st) final_price
         (F.of_int (shares st) * final_price * (1 - c - s))%float
         (capital st + F.of_int (shares st) * final_price * (1 - c - s))%float] /\
    (data = signals -> wf_frame signals -> final_price = price).
Proof.
  cbv zeta. intros Hsim Hpos H.
  apply execute_backtest_inv in H as (st0 & st' & Hsim' & Hliq & Hcpm).
  rewrite Hsim in Hsim'. injection Hsim' as <-.
  pose proof (cpm_fields _ _ _ _ _ Hcpm) as (Heq & Htr & _ & Hfin & _).
  apply liquidate_inv in Hliq as (Heq' & _ & _ & Hopen).
  destruct (Hopen Hpos) as (close & final_price & date & Hc & Hl & _ & Ht).
  rewrite Heq' in *. split; [exact Heq|].
  unfold simulate in Hsim.
  set (N := length (index signals)) in *.
  assert (HN : 0 < N).
  { destruct N; [|lia]. cbn in Hsim. injection Hsim as <-. cbn in Hpos. lia. }
  destruct (run_equity_at _ _ _ _ _ _ (N - 1) Hsim ltac:(lia))
    as (st1 & row & price & Hst1 & Hrow & Hp & Hlk).
  replace (S (N - 1)) with N in Hst1 by lia.
  rewrite Hsim in Hst1. injection Hst1 as <-.
  pose proof (run_equity _ _ _ _ _ _ Hsim) as (tl & Happ & Hlen).
  rewrite length_seq in Hlen. cbn in Hlk, Happ.
  assert (Hlast : last (equity st) = Some (capital st + F.of_int (shares st) * price)%float).
  { rewrite last_lookup, Happ. cbn [length]. rewrite Hlen. cbn [pred].
    rewrite <- Hlk, Happ. f_equal. lia. }
  exists row, price, close, final_price, date.
  assert (Hfc : s_final_capital (r_summary res) = (capital st + F.of_int (shares st) * price)%float).
  { unfold iloc_last in Hfin. rewrite Hlast in Hfin. now injection Hfin. }
  repeat split; auto.
  - now rewrite Heq.
  - rewrite (cpm_total_return _ _ _ _ _ Hcpm), Hfc; [reflexivity|].
    rewrite Happ. cbn. lia.
  - now rewrite Htr.
  - intros -> Hwf.
    pose proof (iloc_close_lookup _ _ _ _ _ Hrow Hp Hc) as Hlk'.
    unfold iloc_last in Hl. rewrite last_lookup in Hl.
    unfold getcol in Hc. destruct (columns signals !! "Close") as [cl|] eqn:Hcol; [|discriminate].
    injection Hc as <-. rewrite (Hwf _ _ Hcol) in Hl. fold N in Hl.
    replace (pred N) with (N - 1) in Hl by lia.
    rewrite Hlk' in Hl. now injection Hl.
Qed.

(** Two bars, bought on the first and never sold. *)
Lemma terminal_liquidation_outside_equity_witness :
  let df := mkFrame [1; 2]%Z
              (<["Close" := [100; 110]%float]> (<["signal" := [1; 0]%float]> ∅)) in
  exists st res,
    simulate df default_config = Ok st /\
    execute_backtest df df None = Ok res /\
    r_equity res = equity st /\
    s_final_capital (r_summary res) = 109357.50000000001%float /\
    exists d cost, last (r_trades res) = Some (SELL d 950 110 cost 109200.75000000001%float).
Proof.
  cbv zeta. eexists. eexists.
  split; [vm_compute; reflexivity|].
  split; [vm_compute; reflexivity|].
  match goal with
  | |- r_equity ?r = equity ?s /\ _ =>
      destruct (terminal_liquidation_outside_equity
                  (mkFrame [1; 2]%Z (<["Close" := [100; 110]%float]>
                                     (<["signal" := [1; 0]%float]> ∅)))
                  (mkFrame [1; 2]%Z (<["Close" := [100; 110]%float]>
                                     (<["signal" := [1; 0]%float]> ∅)))
                  None s r) as (Heq & _)
  end.
  - vm_compute. reflexivity.
  - vm_compute. reflexivity.
  - vm_compute. reflexivity.
  - split; [exact Heq|]. split; [vm_compute; reflexivity|].
    do 2 eexists. vm_compute. reflexivity.
Defined.

(** ** Binary64 facts, from the specification of the primitive operations *)

Lemma SFcompare_refl (a : spec_float) :
  a <> S754_nan -> SFcompare a a = Some Eq.
Proof.
  destruct a as [s|s| |s m e]; intros Hn; try congruence.
  - reflexivity.
  - destruct s; reflexivity.
  - cbn. rewrite Z.compare_refl, Pos.compare_cont_refl. destruct s; reflexivity.
Qed.

Lemma SFcompare_antisym (a b : spec_float) :
  SFcompare b a = option_map CompOpp (SFcompare a b).
Proof.
  destruct a as [s|s| |s m e], b as [s'|s'| |s' m' e']; cbn;
    try reflexivity; try (destruct s; reflexivity); try (destruct s'; reflexivity);
    try (destruct s, s'; reflexivity).
  assert (Hm : Pos.compare_cont Eq m' m = CompOpp (Pos.compare_cont Eq m m')).
  { symmetry. exact (Pos.compare_cont_antisym m m' Eq). }
  rewrite (Z.compare_antisym e e'), Hm.
  destruct s, s'; cbn; try reflexivity; destruct (e ?= e')%Z; cbn;
    reflexivity.
Qed.

Lemma is_nan_spec (x : float) :
  is_nan x = true <-> Prim2SF x = S754_nan.
Proof.
  unfold is_nan. rewrite FloatAxioms.eqb_spec. unfold SFeqb.
  destruct (Prim2SF x) as [s|s| |s m e] eqn:E.
  - cbn. split; discriminate.
  - rewrite SFcompare_refl by discriminate. cbn. split; discriminate.
  - cbn. split; reflexivity.
  - rewrite SFcompare_refl by discriminate. cbn. split; discriminate.
Qed.

Lemma is_nan_false (x : float) :
  is_nan x = false <-> Prim2SF x <> S754_nan.
Proof.
  rewrite <- is_nan_spec. destruct (is_nan x); split; congruence.
Qed.

Lemma is_nan_eq (x : float) : is_nan x = true -> x = nan.
Proof.
  intros H%is_nan_spec. apply Prim2SF_inj. rewrite H. reflexivity.
Qed.

Lemma ltb_nan_l (x y : float) : is_nan x = true -> (x <? y)%float = false.
Proof.
  intros H%is_nan_spec. rewrite FloatAxioms.ltb_spec, H. reflexivity.
Qed.

Lemma ltb_nan_r (x y : float) : is_nan y = true -> (x <? y)%float = false.
Proof.
  intros H%is_nan_spec. rewrite FloatAxioms.ltb_spec, H.
  unfold SFltb. now destruct (Prim2SF x).
Qed.

Lemma leb_nan_l (x y : float) : is_nan x = true -> (x <=? y)%float = false.
Proof.
  intros H%is_nan_spec. rewrite FloatAxioms.leb_spec, H. reflexivity.
Qed.

Lemma leb_nan_r (x y : float) : is_nan y = true -> (x <=? y)%float = false.
Proof.
  intros H%is_nan_spec. rewrite FloatAxioms.leb_spec, H.
  unfold SFleb. now destruct (Prim2SF x).
Qed.

Lemma add_nan_l (x y : float) : is_nan x = true -> is_nan (x + y)%float = true.
Proof.
  rewrite !is_nan_spec, FloatAxioms.add_spec. intros ->. reflexivity.
Qed.

Lemma add_nan_r (x y : float) : is_nan y = true -> is_nan (x + y)%float = true.
Proof.
  rewrite !is_nan_spec, FloatAxioms.add_spec. intros ->.
  unfold SF64add, SFadd. now destruct (Prim2SF x).
Qed.

Lemma sub_nan_l (x y : float) : is_nan x = true -> is_nan (x - y)%float = true.
Proof.
  rewrite !is_nan_spec, FloatAxioms.sub_spec. intros ->. reflexivity.
Qed.

Lemma sub_nan_r (x y : float) : is_nan y = true -> is_nan (x - y)%float = true.
Proof.
  rewrite !is_nan_spec, FloatAxioms.sub_spec. intros ->.
  unfold SF64sub, SFsub. now destruct (Prim2SF x).
Qed.

Lemma mul_nan_l (x y : float) : is_nan x = true -> is_nan (x * y)%float = true.
Proof.
  rewrite !is_nan_spec, FloatAxioms.mul_spec. intros ->. reflexivity.
Qed.

Lemma div_nan_l (x y : float) : is_nan x = true -> is_nan (x / y)%float = true.
Proof.
  rewrite !is_nan_spec, FloatAxioms.div_spec. intros ->. reflexivity.
Qed.

Lemma div_nan_r (x y : float) : is_nan y = true -> is_nan (x / y)%float = true.
Proof.
  rewrite !is_nan_spec, FloatAxioms.div_spec. intros ->.
  unfold SF64div, SFdiv. now destruct (Prim2SF x).
Qed.

Lemma ltb_asym (x y : float) : (x <? y)%float = true -> (y <? x)%float = false.
Proof.
  rewrite !FloatAxioms.ltb_spec. unfold SFltb.
  rewrite (SFcompare_antisym (Prim2SF x) (Prim2SF y)).
  destruct (SFcompare (Prim2SF x) (Prim2SF y)) as [[| |]|]; cbn; congruence.
Qed.

Lemma eqb_not_ltb (x y : float) :
  (x =? y)%float = true -> (x <? y)%float = false /\ (y <? x)%float = false.
Proof.
  rewrite FloatAxioms.eqb_spec, !FloatAxioms.ltb_spec. unfold SFeqb, SFltb.
  rewrite (SFcompare_antisym (Prim2SF x) (Prim2SF y)).
  destruct (SFcompare (Prim2SF x) (Prim2SF y)) as [[| |]|]; cbn; try discriminate.
  auto.
Qed.

Lemma SFcompare_some (a b : spec_float) :
  a <> S754_nan -> b <> S754_nan -> exists c, SFcompare a b = Some c.
Proof.
  destruct a as [s|s| |s m e], b as [s'|s'| |s' m' e']; intros Ha Hb;
    try congruence; cbn; eauto.
Qed.

(** Two defined values are ordered one way, the other, or equal. *)
Lemma float_trichotomy (x y : float) :
  is_nan x = false -> is_nan y = false ->
  (x <? y)%float = false -> (y <? x)%float = false -> (x =? y)%float = true.
Proof.
  rewrite !is_nan_false, FloatAxioms.eqb_spec, !FloatAxioms.ltb_spec. unfold SFeqb, SFltb.
  intros Hx Hy.
  rewrite (SFcompare_antisym (Prim2SF x) (Prim2SF y)).
  destruct (SFcompare_some _ _ Hx Hy) as ([| |] & ->); cbn; congruence.
Qed.

(** ** The analyzer's guards *)

Lemma eqb_zero_not_gtb (x : float) :
  (x =? 0)%float = true -> F.gtb x 0 = false.
Proof. intros H. unfold F.gtb. now apply eqb_not_ltb in H as [_ ?]. Qed.

Lemma Prim2SF_zero_iff (x : float) :
  (x =? 0)%float = true <-> exists s, Prim2SF x = S754_zero s.
Proof.
  rewrite FloatAxioms.eqb_spec. unfold SFeqb.
  change (Prim2SF 0) with (S754_zero false).
  destruct (Prim2SF x) as [s|s| |s m e]; cbn.
  - split; eauto.
  - split; [destruct s; discriminate | intros (? & [=])].
  - split; [discriminate | intros (? & [=])].
  - split; [destruct s; discriminate | intros (? & [=])].
Qed.

Lemma Prim2SF_pos (x : float) :
  (0 <? x)%float = true ->
  Prim2SF x = S754_infinity false \/ exists m e, Prim2SF x = S754_finite false m e.
Proof.
  rewrite FloatAxioms.ltb_spec. unfold SFltb.
  change (Prim2SF 0) with (S754_zero false).
  destruct (Prim2SF x) as [s|s| |s m e]; cbn; try discriminate.
  - destruct s; [discriminate|]. auto.
  - destruct s; [discriminate|]. eauto.
Qed.

(** Zero average loss against a positive average gain: IEEE division
    gives an infinity and the formula lands on 100. *)
Lemma rsi_value_zero_loss (gain loss : float) :
  (loss =? 0)%float = true -> (0 <? gain)%float = true ->
  rsi_value gain loss = 100%float.
Proof.
  intros (s & Hl)%Prim2SF_zero_iff Hg%Prim2SF_pos.
  unfold rsi_value. apply Prim2SF_inj.
  assert (Hq : Prim2SF (gain / loss) = S754_infinity s).
  { rewrite FloatAxioms.div_spec, Hl.
    destruct Hg as [->|(m & e & ->)]; reflexivity. }
  assert (Hd : Prim2SF (1 + gain / loss) = S754_infinity s).
  { rewrite FloatAxioms.add_spec, Hq. reflexivity. }
  assert (Hr : Prim2SF (100 / (1 + gain / loss)) = S754_zero s).
  { rewrite FloatAxioms.div_spec, Hd. reflexivity. }
  rewrite FloatAxioms.sub_spec, Hr. reflexivity.
Qed.

(** Zero average loss against zero average gain: 0/0, and the NaN
    reaches the RSI. *)
Lemma rsi_value_zero_both (gain loss : float) :
  (loss =? 0)%float = true -> (gain =? 0)%float = true ->
  rsi_value gain loss = nan.
Proof.
  intros (s & Hl)%Prim2SF_zero_iff (s' & Hg)%Prim2SF_zero_iff.
  unfold rsi_value. apply is_nan_eq.
  apply sub_nan_r, div_nan_r, add_nan_r, is_nan_spec.
  rewrite FloatAxioms.div_spec, Hl, Hg. reflexivity.
Qed.

Lemma cpm_metrics eq tr pos cfg res :
  calculate_performance_metrics eq tr pos cfg = Ok res ->
  let dr := daily_returns eq in
  r_daily_returns res = dr /\
  m_volatility (r_metrics res) = volatility dr /\
  m_sharpe_ratio (r_metrics res) = sharpe_ratio dr /\
  m_sortino_ratio (r_metrics res) = sortino_ratio dr /\
  m_win_rate (r_metrics res) = win_rate tr /\
  s_win_rate (r_summary res) = (win_rate tr * 100)%float /\
  s_total_trades (r_summary res) = total_trades tr /\
  exists total_return,
    total_return_of eq (s_final_capital (r_summary res))
      (dict_get cfg "initial_capital" 100000) = Ok total_return /\
    m_calmar_ratio (r_metrics res) =
      calmar_ratio total_return (m_max_drawdown (r_metrics res)).
Proof.
  unfold calculate_performance_metrics. intros H.
  inv_bind H. rename a into final_capital.
  inv_bind H. rename a into total_return.
  inv_bind H. rename a into max_drawdown.
  injection H as <-. cbn. repeat split. eauto.
Qed.

(** C6 (as the code has it). In every report the analyzer returns:
    the Sharpe ratio is 0 when volatility is 0, the Sortino ratio is 0
    when the downside deviation is 0 and in particular when no daily
    return is negative, the Calmar ratio is 0 when the maximum drawdown
    is 0.  The RSI has no guard: with zero average loss it is 100 when
    the average gain is positive, and NaN when the average gain is zero
    too. *)
Theorem degenerate_ratios_fall_back eq tr pos cfg res :
  calculate_performance_metrics eq tr pos cfg = Ok res ->
  let m := r_metrics res in
  ((m_volatility m =? 0)%float = true -> m_sharpe_ratio m = 0%float) /\
  ((downside_deviation (r_daily_returns res) =? 0)%float = true ->
     m_sortino_ratio m = 0%float) /\
  (negative_returns (r_daily_returns res) = [] ->
     downside_deviation (r_daily_returns res) = 0%float /\
     m_sortino_ratio m = 0%float) /\
  ((m_max_drawdown m =? 0)%float = true -> m_calmar_ratio m = 0%float) /\
  (forall gain loss, (loss =? 0)%float = true ->
     ((0 <? gain)%float = true -> rsi_value gain loss = 100%float) /\
     ((gain =? 0)%float = true -> rsi_value gain loss = nan)).
Proof.
  intros H. cbv zeta.
  apply cpm_metrics in H as (Hdr & Hv & Hsh & Hso & _ & _ & _ & tr' & _ & Hca).
  rewrite Hdr, Hv, Hsh, Hso, Hca.
  repeat split.
  - intros Hz. unfold sharpe_ratio. now rewrite (eqb_zero_not_gtb _ Hz).
  - intros Hz. unfold sortino_ratio. now rewrite (eqb_zero_not_gtb _ Hz).
  - unfold downside_deviation. now rewrite H.
  - unfold sortino_ratio, downside_deviation. now rewrite H.
  - intros Hz. unfold calmar_ratio, F.neb. now rewrite Hz.
  - now apply rsi_value_zero_loss.
  - now apply rsi_value_zero_both.
Qed.

Lemma degenerate_ratios_fall_back_witness :
  exists res,
    calculate_performance_metrics [100; 100; 100]%float [] [] default_config = Ok res /\
    m_sharpe_ratio (r_metrics res) = 0%float /\
    m_calmar_ratio (r_metrics res) = 0%float.
Proof.
  eexists. split; [vm_compute; reflexivity|].
  match goal with
  | |- m_sharpe_ratio (r_metrics ?r) = _ /\ _ =>
      destruct (degenerate_ratios_fall_back [100; 100; 100]%float [] []
                  default_config r) as (Hsh & _ & _ & Hca & _)
  end.
  - vm_compute. reflexivity.
  - split; [apply Hsh | apply Hca]; vm_compute; reflexivity.
Defined.

(** C6, refuted as stated: on thirty bars of one price, mean reversion
    with a two-bar RSI returns; at bar 5, past every warm-up, the
    average loss is zero, and the RSI it stores is NaN. *)
Lemma rsi_zero_loss_is_undefined :
  exists σ' df' close rsi_col,
    mean_reversion 0 (Some short_rsi) (<[0 := flat_prices]> ∅) = Ret 0 σ' /\
    σ' !! 0 = Some df' /\
    columns flat_prices !! "Close" = Some close /\
    Pd.rolling_mean 2 (Pd.neg (Pd.where_neg (Pd.diff close))) !! 5 = Some 0%float /\
    columns df' !! "rsi" = Some rsi_col /\
    rsi_col !! 5 = Some nan.
Proof.
  do 4 eexists.
  split; [vm_compute; reflexivity|].
  split; [vm_compute; reflexivity|].
  split; [vm_compute; reflexivity|].
  split; [vm_compute; reflexivity|].
  split; vm_compute; reflexivity.
Qed.

(** ** Win rate *)






(** ** Running frame code *)

Lemma run_col {A : Type} k (f : list float -> M DataFrame A) df c :
  columns df !! k = Some c -> (col k ≫= f) df = f c df.
Proof. intros H. unfold mbind, M_bind, bind, col. now rewrite H. Qed.

Lemma run_assign {A : Type} k c (f : unit -> M DataFrame A) df :
  (assign k c ≫= f) df = f tt (set_col df k c).
Proof. reflexivity. Qed.

Lemma run_assign_scalar {A : Type} k v (f : unit -> M DataFrame A) df :
  (assign_scalar k v ≫= f) df =
  f tt (set_col df k (replicate (length (index df)) v)).
Proof. reflexivity. Qed.

Lemma run_loc_set {A : Type} mask k v (f : unit -> M DataFrame A) df c :
  columns df !! k = Some c ->
  (loc_set mask k v ≫= f) df = f tt (set_col df k (Pd.loc_assign mask c v)).
Proof. intros H. unfold mbind, M_bind, bind, loc_set. now rewrite H. Qed.

Lemma run_lift {A B : Type} (r : result A) a (f : A -> M DataFrame B) df :
  r = Ok a -> (lift r ≫= f) df = f a df.
Proof. intros ->. reflexivity. Qed.

Lemma run_block {A B : Type} (m : M DataFrame A) (f : A -> M DataFrame B) df a df' :
  m df = Ret a df' -> (m ≫= f) df = f a df'.
Proof. intros H. unfold mbind, M_bind, bind. now rewrite H. Qed.

Lemma columns_set_col df k c :
  columns (set_col df k c) = <[k := c]> (columns df).
Proof. reflexivity. Qed.

Lemma index_set_col df k c : index (set_col df k c) = index df.
Proof. reflexivity. Qed.

Ltac solve_lookup :=
  rewrite ?columns_set_col;
  repeat first [ rewrite lookup_insert_eq | rewrite lookup_insert_ne by done ];
  first [ reflexivity | eassumption ].

Ltac frame_run :=
  repeat first
    [ rewrite run_assign
    | rewrite run_assign_scalar
    | erewrite run_lift by eassumption
    | erewrite run_col by solve_lookup
    | erewrite run_loc_set by solve_lookup ];
  rewrite ?index_set_col.

Lemma returning_data_run body data params (σ : store) df df' :
  σ !! data = Some df -> body params df = Ret tt df' ->
  returning_data body data params σ = Ret data (<[data := df']> σ).
Proof.
  intros Hσ Hb. unfold returning_data, mbind, M_bind, bind, on_frame.
  now rewrite Hσ, Hb.
Qed.

(** ** Reading series position by position *)

Lemma lookup_map_some {A B : Type} (f : A -> B) (l : list A) i x :
  l !! i = Some x -> map f l !! i = Some (f x).
Proof.
  revert i. induction l as [|y l IH]; intros [|i] H; try discriminate.
  - now injection H as ->.
  - cbn. now apply IH.
Qed.

Lemma lookup_zip_with_some {A B C : Type} (f : A -> B -> C) l k i x y :
  l !! i = Some x -> k !! i = Some y -> zip_with f l k !! i = Some (f x y).
Proof.
  revert k i. induction l as [|a l IH]; intros [|b k] [|i] Hl Hk; try discriminate.
  - cbn in *. now injection Hl as ->; injection Hk as ->.
  - cbn in *. now apply IH.
Qed.

Lemma lookup_imap_some {A B : Type} (f : nat -> A -> B) (l : list A) i x :
  l !! i = Some x -> imap f l !! i = Some (f i x).
Proof. intros H. now rewrite list_lookup_imap, H. Qed.

Lemma lookup_rolling_mean w (s : list float) i x :
  s !! i = Some x ->
  Pd.rolling_mean w s !! i =
    Some (if (i + 1 <? w)%nat then nan else Np.mean (Pd.window w i s)).
Proof. intros H. unfold Pd.rolling_mean. now rewrite (lookup_imap_some _ _ _ _ H). Qed.

Lemma lookup_rolling_std w (s : list float) i x :
  s !! i = Some x ->
  Pd.rolling_std w s !! i =
    Some (if (i + 1 <? w)%nat then nan else Pd.sample_std (Pd.window w i s)).
Proof. intros H. unfold Pd.rolling_std. now rewrite (lookup_imap_some _ _ _ _ H). Qed.

Lemma lookup_shift p (s : list float) i x :
  s !! i = Some x ->
  Pd.shift p s !! i =
    Some (if (0 <=? Z.of_nat i - p)%Z
          then default nan (s !! Z.to_nat (Z.of_nat i - p)) else nan).
Proof. intros H. unfold Pd.shift. now rewrite (lookup_imap_some _ _ _ _ H). Qed.

Lemma lookup_shift_early p (s : list float) i x :
  s !! i = Some x -> (Z.of_nat i < p)%Z -> Pd.shift p s !! i = Some nan.
Proof.
  intros H Hp. rewrite (lookup_shift _ _ _ _ H).
  destruct (Z.leb_spec 0 (Z.of_nat i - p)); [lia | reflexivity].
Qed.

Lemma lookup_loc_assign (mask : list bool) (c : list float) v i (b : bool) x :
  mask !! i = Some b -> c !! i = Some x ->
  Pd.loc_assign mask c v !! i = Some (if b then v else x).
Proof. intros Hm Hc. unfold Pd.loc_assign. now rewrite (lookup_zip_with_some _ _ _ _ _ _ Hm Hc). Qed.

Lemma lookup_two_sided n (buy sell : list bool) i (b1 b2 : bool) :
  i < n -> buy !! i = Some b1 -> sell !! i = Some b2 ->
  two_sided n buy sell !! i =
    Some (if b2 then (-1)%float else if b1 then 1%float else 0%float).
Proof.
  intros Hi Hb Hs. unfold two_sided.
  apply lookup_loc_assign; [exact Hs|].
  apply lookup_loc_assign; [exact Hb|].
  now apply lookup_replicate_2.
Qed.

Lemma lookup_lt_length {A : Type} (l : list A) i :
  i < length l -> exists x, l !! i = Some x.
Proof. intros H. now apply lookup_lt_is_Some_2. Qed.

(** ** Moving-average crossover *)

Lemma ma_run params df close fw sw :
  columns df !! "Close" = Some close ->
  as_window (ma_fast_period params) = Ok fw ->
  as_window (ma_slow_period params) = Ok sw ->
  let fast := Pd.rolling_mean fw close in
  let slow := Pd.rolling_mean sw close in
  let sig := two_sided (length (index df)) (Pd.gt fast slow) (Pd.lt fast slow) in
  exists df',
    moving_average_crossover_body params df = Ret tt df' /\
    index df' = index df /\
    columns df' !! "fast_ma" = Some fast /\
    columns df' !! "slow_ma" = Some slow /\
    columns df' !! "signal" = Some sig /\
    columns df' !! "position" = Some (Pd.diff sig).
Proof.
  intros Hc Hf Hs. cbv zeta.
  unfold moving_average_crossover_body. cbv zeta. frame_run.
  eexists. split; [reflexivity|].
  rewrite !columns_set_col, ?index_set_col.
  repeat split; solve_lookup.
Qed.

Lemma lookup_gt (a b : list float) i x y :
  a !! i = Some x -> b !! i = Some y -> Pd.gt a b !! i = Some (y <? x)%float.
Proof. intros. unfold Pd.gt. now erewrite lookup_zip_with_some by eassumption. Qed.

Lemma lookup_lt (a b : list float) i x y :
  a !! i = Some x -> b !! i = Some y -> Pd.lt a b !! i = Some (x <? y)%float.
Proof. intros. unfold Pd.lt. now erewrite lookup_zip_with_some by eassumption. Qed.

Lemma lookup_le (a b : list float) i x y :
  a !! i = Some x -> b !! i = Some y -> Pd.le a b !! i = Some (x <=? y)%float.
Proof. intros. unfold Pd.le. now erewrite lookup_zip_with_some by eassumption. Qed.

Lemma lookup_ge (a b : list float) i x y :
  a !! i = Some x -> b !! i = Some y -> Pd.ge a b !! i = Some (y <=? x)%float.
Proof. intros. unfold Pd.ge. now erewrite lookup_zip_with_some by eassumption. Qed.

Lemma lookup_band (a b : list bool) i (x y : bool) :
  a !! i = Some x -> b !! i = Some y -> Pd.band a b !! i = Some (x && y).
Proof. intros. unfold Pd.band. now erewrite lookup_zip_with_some by eassumption. Qed.

Lemma length_rolling_mean w (s : list float) :
  length (Pd.rolling_mean w s) = length s.
Proof. unfold Pd.rolling_mean. apply length_imap. Qed.

(** C9. Whenever the crossover runs on a frame with prices and valid
    windows, it returns, and at every bar where both moving averages
    are defined the signal is +1 when the fast average is above the slow
    one, -1 when it is below, 0 when they are equal, and one of the
    three is the case. *)
Theorem crossover_signal_is_sign_of_spread σ data df close params fw sw :
  has_prices σ data df close ->
  as_window (ma_fast_period params) = Ok fw ->
  as_window (ma_slow_period params) = Ok sw ->
  exists σ' df' fast_ma slow_ma signal,
    moving_average_crossover data params σ = Ret data σ' /\
    σ' !! data = Some df' /\
    columns df' !! "fast_ma" = Some fast_ma /\
    columns df' !! "slow_ma" = Some slow_ma /\
    columns df' !! "signal" = Some signal /\
    forall i f s,
      fast_ma !! i = Some f -> slow_ma !! i = Some s ->
      is_nan f = false -> is_nan s = false ->
      exists v, signal !! i = Some v /\
        ((s <? f)%float = true -> v = 1%float) /\
        ((f <? s)%float = true -> v = (-1)%float) /\
        ((f =? s)%float = true -> v = 0%float) /\
        ((s <? f)%float = true \/ (f <? s)%float = true \/ (f =? s)%float = true).
Proof.
  intros (Hσ & Hc & Hlen) Hf Hs.
  destruct (ma_run params df close fw sw Hc Hf Hs)
    as (df' & Hrun & Hidx & Hfast & Hslow & Hsig & _).
  exists (<[data := df']> σ), df'. do 3 eexists.
  split; [eapply returning_data_run; eauto|].
  split; [apply lookup_insert_eq|].
  do 3 (split; [eassumption|]).
  intros i f s Hfi Hsi Hnf Hns.
  assert (Hi : i < length (index df)).
  { apply lookup_lt_Some in Hfi. rewrite length_rolling_mean in Hfi. lia. }
  eexists. split.
  - apply lookup_two_sided; [exact Hi | eapply lookup_gt | eapply lookup_lt]; eassumption.
  - repeat split.
    + intros Hgt. rewrite (ltb_asym _ _ Hgt), Hgt. reflexivity.
    + intros Hlt. now rewrite Hlt.
    + intros Heq. apply eqb_not_ltb in Heq as [-> ->]. reflexivity.
    + destruct (s <? f)%float eqn:E1; [now left|].
      destruct (f <? s)%float eqn:E2; [now right; left|].
      right; right. now apply float_trichotomy.
Qed.

Lemma crossover_signal_is_sign_of_spread_witness :
  exists σ' df' signal,
    moving_average_crossover 0
      (Some (<["fast_period" := PInt 2]> (<["slow_period" := PInt 3]> ∅)))
      (<[0 := rising_prices]> ∅) = Ret 0 σ' /\
    σ' !! 0 = Some df' /\
    columns df' !! "signal" = Some signal /\
    signal !! 3 = Some 1%float.
Proof.
  destruct (crossover_signal_is_sign_of_spread (<[0 := rising_prices]> ∅) 0
              rising_prices [10; 11; 12; 13; 14; 15]%float
              (Some (<["fast_period" := PInt 2]> (<["slow_period" := PInt 3]> ∅)))
              2 3)
    as (σ' & df' & fast_ma & slow_ma & signal & Hrun & Hσ' & Hf & Hs & Hsig & Hsign).
  - repeat split; vm_compute; reflexivity.
  - vm_compute. reflexivity.
  - vm_compute. reflexivity.
  - exists σ', df', signal. repeat split; try assumption.
    assert (Hrun' : moving_average_crossover 0
              (Some (<["fast_period" := PInt 2]> (<["slow_period" := PInt 3]> ∅)))
              (<[0 := rising_prices]> ∅) = Ret 0 σ') by exact Hrun.
    vm_compute in Hrun'. injection Hrun' as <-.
    vm_compute in Hσ'. injection Hσ' as <-.
    vm_compute in Hf. injection Hf as <-.
    vm_compute in Hs. injection Hs as <-.
    destruct (Hsign 3 12.5%float 12%float) as (v & Hv & Hgt & _);
      try (vm_compute; reflexivity).
    rewrite Hv. f_equal. apply Hgt. vm_compute. reflexivity.
Defined.

(** ** Dispatch by identifier *)

Lemma strategies_unknown (name : string) :
  name ∉ strategy_ids -> lookup_strategy name = None.
Proof.
  unfold lookup_strategy, strategy_ids, strategies. intros Hn.
  repeat (rewrite lookup_insert_ne;
          [|intros <-; apply Hn; repeat first [apply list_elem_of_here | apply list_elem_of_further]]).
  apply lookup_empty.
Qed.

Lemma strategies_known (name : string) :
  name ∈ strategy_ids -> is_Some (lookup_strategy name).
Proof.
  unfold strategy_ids. intros H.
  repeat (apply elem_of_cons in H as [->|H];
          [unfold lookup_strategy, strategies;
           repeat first [rewrite lookup_insert_eq | rewrite lookup_insert_ne by done];
           eauto|]).
  now apply elem_of_nil in H.
Qed.

(** C10. For every identifier outside the six registered ones,
    [execute_strategy] raises [ValueError] and the store it was started
    in, with the price frame and every other object, is the store it
    leaves. *)
Theorem unknown_strategy_raises (name : string) (data : ref)
    (params : option Params) (σ : store) :
  name ∉ strategy_ids ->
  execute_strategy name data params σ = Raise ValueError σ.
Proof.
  intros Hn. unfold execute_strategy.
  now rewrite (strategies_unknown name Hn).
Qed.

Lemma unknown_strategy_raises_witness :
  execute_strategy "buy-the-dip" 0 None (<[0 := rising_prices]> ∅)
  = Raise ValueError (<[0 := rising_prices]> ∅).
Proof.
  apply unknown_strategy_raises.
  unfold strategy_ids. intros H.
  repeat (apply elem_of_cons in H as [H|H]; [discriminate|]).
  now apply elem_of_nil in H.
Defined.

(** ** Strategies work in place *)

Lemma touches_only_refl W df : touches_only W df df.
Proof. split; auto. Qed.

Lemma touches_only_trans W df1 df2 df3 :
  touches_only W df1 df2 -> touches_only W df2 df3 -> touches_only W df1 df3.
Proof.
  intros [Hi1 Hc1] [Hi2 Hc2]. split; [congruence|].
  intros k Hk. now rewrite Hc2, Hc1.
Qed.

Lemma touches_only_set_col W df k c :
  k ∈ W -> touches_only W df (set_col df k c).
Proof.
  intros Hk. split; [reflexivity|]. intros k' Hk'.
  rewrite columns_set_col, lookup_insert_ne; [reflexivity|].
  intros <-. contradiction.
Qed.

Lemma confined_bind W {A B : Type} (m : M DataFrame A) (f : A -> M DataFrame B) :
  confined W m -> (forall a, confined W (f a)) -> confined W (m ≫= f).
Proof.
  intros Hm Hf df. unfold mbind, M_bind, bind.
  specialize (Hm df). destruct (m df) as [a df1|e df1]; [|exact Hm].
  specialize (Hf a df1). destruct (f a df1) as [b df2|e df2];
    eapply touches_only_trans; eauto.
Qed.

Lemma confined_col W k : confined W (col k).
Proof.
  intros df. unfold col. destruct (columns df !! k); apply touches_only_refl.
Qed.

Lemma confined_lift W {A : Type} (r : result A) : confined W (lift (S := DataFrame) r).
Proof. intros df. destruct r; apply touches_only_refl. Qed.

Lemma confined_assign W k c : k ∈ W -> confined W (assign k c).
Proof. intros Hk df. now apply touches_only_set_col. Qed.

Lemma confined_assign_scalar W k v : k ∈ W -> confined W (assign_scalar k v).
Proof. intros Hk df. now apply touches_only_set_col. Qed.

Lemma confined_loc_set W mask k v : k ∈ W -> confined W (loc_set mask k v).
Proof.
  intros Hk df. unfold loc_set. destruct (columns df !! k).
  - now apply touches_only_set_col.
  - apply touches_only_refl.
Qed.

Lemma leaves_signal_bind {A B : Type} (m : M DataFrame A) (f : A -> M DataFrame B) :
  (forall a, leaves_signal (f a)) -> leaves_signal (m ≫= f).
Proof.
  intros Hf df b df'. unfold mbind, M_bind, bind.
  destruct (m df) as [a df1|e df1]; [|discriminate]. apply Hf.
Qed.

Lemma leaves_signal_tail (c : list float -> list float) :
  leaves_signal (signal ← col "signal"; assign "position" (c signal)).
Proof.
  intros df a df'. unfold mbind, M_bind, bind, col, assign.
  destruct (columns df !! "signal") as [s|] eqn:Hs; [|discriminate].
  intros [= _ <-]. rewrite columns_set_col.
  rewrite lookup_insert_ne by done. rewrite lookup_insert_eq, Hs. eauto.
Qed.

Ltac solve_elem :=
  repeat first [apply list_elem_of_here | apply list_elem_of_further].

Ltac confine :=
  repeat first
    [ apply confined_col
    | apply confined_lift
    | apply confined_assign; solve_elem
    | apply confined_assign_scalar; solve_elem
    | apply confined_loc_set; solve_elem
    | apply confined_bind; [|intros] ].

Ltac signal_left :=
  repeat first [ apply leaves_signal_tail | apply leaves_signal_bind; intros ].

Lemma returning_data_in_place W body :
  (forall params, confined W (body params)) ->
  (forall params, leaves_signal (body params)) ->
  in_place W (returning_data body).
Proof.
  intros Hc Hl data params σ.
  unfold returning_data, mbind, M_bind, bind, on_frame, mret, M_ret, ret.
  destruct (σ !! data) as [df|] eqn:Hσ.
  - specialize (Hc params df). specialize (Hl params df).
    destruct (body params df) as [[] df'|e df'].
    + split; [reflexivity|]. split.
      * split; [intros l Hne; now rewrite lookup_insert_ne|].
        rewrite Hσ. exists df'. split; [apply lookup_insert_eq | exact Hc].
      * exists df'. split; [apply lookup_insert_eq|]. now apply (Hl tt).
    + split; [intros l Hne; now rewrite lookup_insert_ne|].
      rewrite Hσ. exists df'. split; [apply lookup_insert_eq | exact Hc].
  - split; [auto|]. now rewrite Hσ.
Qed.

Lemma ma_in_place : in_place ma_writes moving_average_crossover.
Proof.
  apply returning_data_in_place; intros params;
    unfold moving_average_crossover_body; cbv zeta.
  - confine.
  - signal_left.
Qed.

Lemma mr_in_place : in_place mr_writes mean_reversion.
Proof.
  apply returning_data_in_place; intros params;
    unfold mean_reversion_body, bollinger_columns, rsi_column; cbv zeta.
  - confine.
  - signal_left.
Qed.

Lemma mo_in_place : in_place mo_writes momentum.
Proof.
  apply returning_data_in_place; intros params;
    unfold momentum_body; cbv zeta.
  - confine.
  - signal_left.
Qed.

Lemma bb_in_place : in_place bb_writes bollinger_bands.
Proof.
  apply returning_data_in_place; intros params;
    unfold bollinger_bands_body, bollinger_columns; cbv zeta.
  - confine.
  - signal_left.
Qed.

Lemma rd_in_place : in_place rd_writes rsi_divergence.
Proof.
  apply returning_data_in_place; intros params;
    unfold rsi_divergence_body, rsi_column; cbv zeta.
  - confine.
  - signal_left.
Qed.

Lemma macd_in_place : in_place macd_writes macd_crossover.
Proof.
  apply returning_data_in_place; intros params;
    unfold macd_crossover_body; cbv zeta.
  - confine.
  - signal_left.
Qed.

Ltac solve_not_elem :=
  let H := fresh in
  intros H;
  repeat (apply elem_of_cons in H as [H|H]; [discriminate|]);
  now apply elem_of_nil in H.

Ltac solve_registered :=
  unfold lookup_strategy, strategies;
  repeat first [rewrite lookup_insert_eq | rewrite lookup_insert_ne by done];
  reflexivity.

(** C4 (as the code has it). Each of the six registered strategies
    works in place: whatever the store, the reference and the
    parameters, a call leaves every other object alone and changes, in
    the frame it was given, only the columns it assigns, never the
    index nor a price column; when it returns, it returns the reference
    it was given, and that frame holds a [signal] and a [position]
    column. *)
Theorem strategies_work_in_place id f W :
  (id, f, W) ∈ strategy_table ->
  lookup_strategy id = Some f /\
  in_place W f /\
  Forall (fun k => k ∉ W) price_columns.
Proof.
  unfold strategy_table, price_columns. intros H.
  repeat (apply elem_of_cons in H as [[= -> -> ->]|H];
          [split; [solve_registered|];
           split; [|repeat constructor; solve_not_elem]|]).
  - apply ma_in_place.
  - apply mr_in_place.
  - apply mo_in_place.
  - apply bb_in_place.
  - apply rd_in_place.
  - apply macd_in_place.
  - now apply elem_of_nil in H.
Qed.

Lemma strategies_work_in_place_witness :
  lookup_strategy "momentum" = Some momentum /\
  in_place mo_writes momentum /\
  Forall (fun k => k ∉ mo_writes) price_columns.
Proof.
  apply (strategies_work_in_place "momentum" momentum mo_writes).
  unfold strategy_table. solve_elem.
Defined.

(** C4, refuted as stated: the crossover called on a six-bar price
    frame returns the reference it was given, and the frame behind it,
    which had no [signal] column, now has one and is no longer the input
    frame; a Bollinger call on the same reference then replaces that
    column, so the first call's result reads 0 at bar 3 where it read
    1. *)
Lemma strategy_call_changes_its_input :
  let σ0 : store := <[0 := rising_prices]> ∅ in
  exists σ1 df1 s1 σ2 df2 s2,
    moving_average_crossover 0 (Some short_windows) σ0 = Ret 0 σ1 /\
    σ1 !! 0 = Some df1 /\
    columns rising_prices !! "signal" = None /\
    columns df1 !! "signal" = Some s1 /\
    df1 <> rising_prices /\
    bollinger_bands 0 (Some short_band) σ1 = Ret 0 σ2 /\
    σ2 !! 0 = Some df2 /\
    columns df2 !! "signal" = Some s2 /\
    s1 !! 3 = Some 1%float /\ s2 !! 3 = Some 0%float.
Proof.
  cbv zeta. do 6 eexists.
  split; [vm_compute; reflexivity|].
  split; [vm_compute; reflexivity|].
  split; [vm_compute; reflexivity|].
  split; [vm_compute; reflexivity|].
  split.
  { intros H. apply (f_equal (fun d => columns d !! "signal")) in H.
    vm_compute in H. discriminate. }
  split; [vm_compute; reflexivity|].
  split; [vm_compute; reflexivity|].
  split; [vm_compute; reflexivity|].
  split; vm_compute; reflexivity.
Qed.

(** ** Series lookups for the remaining kernels *)

Lemma run_assoc {A B C : Type} (m : M DataFrame A) (f : A -> M DataFrame B)
    (g : B -> M DataFrame C) df :
  ((m ≫= f) ≫= g) df = (m ≫= (fun x => f x ≫= g)) df.
Proof. unfold mbind, M_bind, bind. now destruct (m df). Qed.

Ltac frame_run_blocks :=
  repeat first
    [ rewrite run_assoc
    | rewrite run_assign
    | rewrite run_assign_scalar
    | erewrite run_lift by eassumption
    | erewrite run_col by solve_lookup
    | erewrite run_loc_set by solve_lookup ];
  rewrite ?index_set_col.

Lemma lookup_add (a b : list float) i x y :
  a !! i = Some x -> b !! i = Some y -> Pd.add a b !! i = Some (x + y)%float.
Proof. intros. unfold Pd.add. now erewrite lookup_zip_with_some by eassumption. Qed.

Lemma lookup_sub (a b : list float) i x y :
  a !! i = Some x -> b !! i = Some y -> Pd.sub a b !! i = Some (x - y)%float.
Proof. intros. unfold Pd.sub. now erewrite lookup_zip_with_some by eassumption. Qed.

Lemma lookup_mul_scalar (a : list float) v i x :
  a !! i = Some x -> Pd.mul_scalar a v !! i = Some (x * v)%float.
Proof. intros. unfold Pd.mul_scalar. now erewrite lookup_map_some by eassumption. Qed.

Lemma lookup_lt_scalar (a : list float) v i x :
  a !! i = Some x -> Pd.lt_scalar a v !! i = Some (x <? v)%float.
Proof. intros. unfold Pd.lt_scalar. now erewrite lookup_map_some by eassumption. Qed.

Lemma lookup_gt_scalar (a : list float) v i x :
  a !! i = Some x -> Pd.gt_scalar a v !! i = Some (v <? x)%float.
Proof. intros. unfold Pd.gt_scalar. now erewrite lookup_map_some by eassumption. Qed.

Lemma lookup_le_scalar (a : list float) v i x :
  a !! i = Some x -> Pd.le_scalar a v !! i = Some (x <=? v)%float.
Proof. intros. unfold Pd.le_scalar. now erewrite lookup_map_some by eassumption. Qed.

Lemma lookup_ge_scalar (a : list float) v i x :
  a !! i = Some x -> Pd.ge_scalar a v !! i = Some (v <=? x)%float.
Proof. intros. unfold Pd.ge_scalar. now erewrite lookup_map_some by eassumption. Qed.

Lemma lookup_diff (s : list float) i x :
  s !! i = Some x ->
  exists y, Pd.shift 1 s !! i = Some y /\ Pd.diff s !! i = Some (x - y)%float.
Proof.
  intros H. eexists. split; [eapply lookup_shift; eassumption|].
  unfold Pd.diff. eapply lookup_zip_with_some; [eassumption|].
  eapply lookup_shift; eassumption.
Qed.

Lemma lookup_pct_change p (s : list float) i x y :
  s !! i = Some x -> Pd.shift p s !! i = Some y ->
  Pd.pct_change p s !! i = Some (x / y - 1)%float.
Proof. intros. unfold Pd.pct_change. now erewrite lookup_zip_with_some by eassumption. Qed.

Lemma lookup_rsi w (close : list float) i x :
  close !! i = Some x ->
  exists g l,
    rsi w close !! i =
      Some (rsi_value (if (i + 1 <? w)%nat then nan else g)
                      (if (i + 1 <? w)%nat then nan else l)).
Proof.
  intros H. destruct (lookup_diff _ _ _ H) as (y & _ & Hd).
  do 2 eexists. unfold rsi.
  eapply lookup_zip_with_some.
  - eapply lookup_rolling_mean. unfold Pd.where_pos.
    eapply lookup_map_some. exact Hd.
  - eapply lookup_rolling_mean. unfold Pd.neg, Pd.where_neg.
    eapply lookup_map_some, lookup_map_some. exact Hd.
Qed.

Lemma rsi_value_nan_gain (l : float) : is_nan (rsi_value nan l) = true.
Proof.
  unfold rsi_value. apply sub_nan_r, div_nan_r, add_nan_r, div_nan_l. reflexivity.
Qed.

Lemma lookup_rsi_warm w (close : list float) i x :
  close !! i = Some x -> i + 1 < w ->
  exists r, rsi w close !! i = Some r /\ is_nan r = true.
Proof.
  intros H Hw. destruct (lookup_rsi w _ _ _ H) as (g & l & Hr).
  apply Nat.ltb_lt in Hw. rewrite Hw in Hr.
  eexists. split; [exact Hr | apply rsi_value_nan_gain].
Qed.

Lemma lookup_rolling_mean_warm w (s : list float) i x :
  s !! i = Some x -> i + 1 < w -> Pd.rolling_mean w s !! i = Some nan.
Proof.
  intros H Hw. rewrite (lookup_rolling_mean _ _ _ _ H).
  apply Nat.ltb_lt in Hw. now rewrite Hw.
Qed.

Lemma lookup_rolling_std_warm w (s : list float) i x :
  s !! i = Some x -> i + 1 < w -> Pd.rolling_std w s !! i = Some nan.
Proof.
  intros H Hw. rewrite (lookup_rolling_std _ _ _ _ H).
  apply Nat.ltb_lt in Hw. now rewrite Hw.
Qed.

Lemma lookup_ewm_mean_0 span (s : list float) x :
  s !! 0 = Some x -> Pd.ewm_mean span s !! 0 = Some x.
Proof. destruct s; [discriminate|]. cbn. auto. Qed.

Lemma as_window_periods v w :
  as_window v = Ok w -> as_periods v = Ok (Z.of_nat w).
Proof.
  destruct v as [z|f]; cbn; [|discriminate].
  destruct (Z.leb_spec 0 z); [|discriminate].
  intros [= <-]. f_equal. lia.
Qed.

Lemma window_of_ok v w : as_window v = Ok w -> window_of v = w.
Proof. unfold window_of. now intros ->. Qed.

Lemma periods_of_ok v p : as_periods v = Ok p -> periods_of v = p.
Proof. unfold periods_of. now intros ->. Qed.

(** A signal column assigned through two masks that are both off at
    bar [i] still holds its initial 0 there. *)
Lemma two_sided_off n (buy sell : list bool) i :
  i < n -> buy !! i = Some false -> sell !! i = Some false ->
  two_sided n buy sell !! i = Some 0%float.
Proof. intros Hi Hb Hs. now rewrite (lookup_two_sided _ _ _ _ _ _ Hi Hb Hs). Qed.

(** ** Warm-up bars, strategy by strategy *)

Lemma ma_warm params df close fw sw i c :
  columns df !! "Close" = Some close ->
  length close = length (index df) ->
  as_window (ma_fast_period params) = Ok fw ->
  as_window (ma_slow_period params) = Ok sw ->
  close !! i = Some c ->
  i + 1 < fw \/ i + 1 < sw ->
  exists df' signal,
    moving_average_crossover_body params df = Ret tt df' /\
    columns df' !! "signal" = Some signal /\ signal !! i = Some 0%float.
Proof.
  intros Hc Hlen Hf Hs Hi Hw.
  destruct (ma_run params df close fw sw Hc Hf Hs)
    as (df' & Hrun & _ & _ & _ & Hsig & _).
  exists df'. eexists. split; [exact Hrun|]. split; [exact Hsig|].
  pose proof (lookup_rolling_mean fw _ _ _ Hi) as Hfa.
  pose proof (lookup_rolling_mean sw _ _ _ Hi) as Hsl.
  apply two_sided_off.
  - apply lookup_lt_Some in Hi. lia.
  - rewrite (lookup_gt _ _ _ _ _ Hfa Hsl). f_equal.
    destruct Hw as [Hw%Nat.ltb_lt|Hw%Nat.ltb_lt]; rewrite Hw.
    + now apply ltb_nan_r.
    + now apply ltb_nan_l.
  - rewrite (lookup_lt _ _ _ _ _ Hfa Hsl). f_equal.
    destruct Hw as [Hw%Nat.ltb_lt|Hw%Nat.ltb_lt]; rewrite Hw.
    + now apply ltb_nan_l.
    + now apply ltb_nan_r.
Qed.

Lemma bb_run params df close w :
  columns df !! "Close" = Some close ->
  as_window (bb_period params) = Ok w ->
  let k := as_float (bb_std params) in
  let mid := Pd.rolling_mean w close in
  let sd := Pd.rolling_std w close in
  let upper := Pd.add mid (Pd.mul_scalar sd k) in
  let lower := Pd.sub mid (Pd.mul_scalar sd k) in
  let sig := two_sided (length (index df)) (Pd.le close lower) (Pd.ge close upper) in
  exists df',
    bollinger_bands_body params df = Ret tt df' /\
    columns df' !! "signal" = Some sig.
Proof.
  intros Hc Hw. cbv zeta.
  unfold bollinger_bands_body, bollinger_columns. cbv zeta. frame_run_blocks.
  eexists. split; [reflexivity|].
  rewrite !columns_set_col. solve_lookup.
Qed.

(** Inside the window both bands are NaN. *)
Lemma bands_warm w k (close : list float) i c :
  close !! i = Some c -> i + 1 < w ->
  exists lo up,
    Pd.sub (Pd.rolling_mean w close) (Pd.mul_scalar (Pd.rolling_std w close) k) !! i = Some lo /\
    Pd.add (Pd.rolling_mean w close) (Pd.mul_scalar (Pd.rolling_std w close) k) !! i = Some up /\
    is_nan lo = true /\ is_nan up = true.
Proof.
  intros Hi Hw.
  pose proof (lookup_rolling_mean_warm _ _ _ _ Hi Hw) as Hm.
  pose proof (lookup_rolling_std_warm _ _ _ _ Hi Hw) as Hs.
  do 2 eexists. split; [|split].
  - eapply lookup_sub; [exact Hm | eapply lookup_mul_scalar; exact Hs].
  - eapply lookup_add; [exact Hm | eapply lookup_mul_scalar; exact Hs].
  - split; [now apply sub_nan_l | now apply add_nan_l].
Qed.

(** Past or inside the window, both bands have a value. *)
Lemma bands_some w k (close : list float) i c :
  close !! i = Some c ->
  exists lo up,
    Pd.sub (Pd.rolling_mean w close) (Pd.mul_scalar (Pd.rolling_std w close) k) !! i = Some lo /\
    Pd.add (Pd.rolling_mean w close) (Pd.mul_scalar (Pd.rolling_std w close) k) !! i = Some up.
Proof.
  intros Hi.
  pose proof (lookup_rolling_mean w _ _ _ Hi) as Hm.
  pose proof (lookup_rolling_std w _ _ _ Hi) as Hs.
  do 2 eexists. split.
  - eapply lookup_sub; [exact Hm | eapply lookup_mul_scalar; exact Hs].
  - eapply lookup_add; [exact Hm | eapply lookup_mul_scalar; exact Hs].
Qed.

Lemma bb_warm params df close w i c :
  columns df !! "Close" = Some close ->
  length close = length (index df) ->
  as_window (bb_period params) = Ok w ->
  close !! i = Some c ->
  i + 1 < w ->
  exists df' signal,
    bollinger_bands_body params df = Ret tt df' /\
    columns df' !! "signal" = Some signal /\ signal !! i = Some 0%float.
Proof.
  intros Hc Hlen Hp Hi Hw.
  destruct (bb_run params df close w Hc Hp) as (df' & Hrun & Hsig).
  exists df'. eexists. split; [exact Hrun|]. split; [exact Hsig|].
  destruct (bands_warm w (as_float (bb_std params)) _ _ _ Hi Hw)
    as (lo & up & Hlo & Hup & Nlo & Nup).
  apply two_sided_off.
  - apply lookup_lt_Some in Hi. lia.
  - rewrite (lookup_le _ _ _ _ _ Hi Hlo). f_equal. now apply leb_nan_r.
  - rewrite (lookup_ge _ _ _ _ _ Hi Hup). f_equal. now apply leb_nan_l.
Qed.

Lemma mr_run params df close w rw :
  columns df !! "Close" = Some close ->
  as_window (mr_bb_period params) = Ok w ->
  as_window (mr_rsi_period params) = Ok rw ->
  let k := as_float (mr_bb_std params) in
  let mid := Pd.rolling_mean w close in
  let sd := Pd.rolling_std w close in
  let upper := Pd.add mid (Pd.mul_scalar sd k) in
  let lower := Pd.sub mid (Pd.mul_scalar sd k) in
  let r := rsi rw close in
  let buy := Pd.band (Pd.le close (Pd.mul_scalar lower 1.01))
                     (Pd.le_scalar r (as_float (mr_rsi_oversold params))) in
  let sell := Pd.band (Pd.ge close (Pd.mul_scalar upper 0.99))
                      (Pd.ge_scalar r (as_float (mr_rsi_overbought params))) in
  exists df',
    mean_reversion_body params df = Ret tt df' /\
    columns df' !! "signal" = Some (two_sided (length (index df)) buy sell).
Proof.
  intros Hc Hw Hr. cbv zeta.
  unfold mean_reversion_body, bollinger_columns, rsi_column. cbv zeta.
  frame_run_blocks.
  eexists. split; [reflexivity|].
  rewrite !columns_set_col. solve_lookup.
Qed.

Lemma mr_warm params df close w rw i c :
  columns df !! "Close" = Some close ->
  length close = length (index df) ->
  as_window (mr_bb_period params) = Ok w ->
  as_window (mr_rsi_period params) = Ok rw ->
  close !! i = Some c ->
  i + 1 < w \/ i + 1 < rw ->
  exists df' signal,
    mean_reversion_body params df = Ret tt df' /\
    columns df' !! "signal" = Some signal /\ signal !! i = Some 0%float.
Proof.
  intros Hc Hlen Hp Hr Hi Hw.
  destruct (mr_run params df close w rw Hc Hp Hr) as (df' & Hrun & Hsig).
  exists df'. eexists. split; [exact Hrun|]. split; [exact Hsig|].
  destruct (lookup_rsi rw _ _ _ Hi) as (g & l & Hrsi).
  apply two_sided_off.
  - apply lookup_lt_Some in Hi. lia.
  - destruct Hw as [Hw|Hw].
    + destruct (bands_warm w (as_float (mr_bb_std params)) _ _ _ Hi Hw)
        as (lo & up & Hlo & _ & Nlo & _).
      erewrite lookup_band;
        [|eapply lookup_le; [exact Hi | eapply lookup_mul_scalar; exact Hlo]
         |eapply lookup_le_scalar; exact Hrsi].
      f_equal. rewrite leb_nan_r; [reflexivity | now apply mul_nan_l].
    + destruct (bands_some w (as_float (mr_bb_std params)) _ _ _ Hi)
        as (lo & up & Hlo & _).
      erewrite lookup_band;
        [|eapply lookup_le; [exact Hi | eapply lookup_mul_scalar; exact Hlo]
         |eapply lookup_le_scalar; exact Hrsi].
      f_equal. apply Nat.ltb_lt in Hw. rewrite Hw.
      rewrite (leb_nan_l _ _ (rsi_value_nan_gain nan)). apply andb_false_r.
  - destruct Hw as [Hw|Hw].
    + destruct (bands_warm w (as_float (mr_bb_std params)) _ _ _ Hi Hw)
        as (lo & up & _ & Hup & _ & Nup).
      erewrite lookup_band;
        [|eapply lookup_ge; [exact Hi | eapply lookup_mul_scalar; exact Hup]
         |eapply lookup_ge_scalar; exact Hrsi].
      f_equal. rewrite leb_nan_l; [reflexivity | now apply mul_nan_l].
    + destruct (bands_some w (as_float (mr_bb_std params)) _ _ _ Hi)
        as (lo & up & _ & Hup).
      erewrite lookup_band;
        [|eapply lookup_ge; [exact Hi | eapply lookup_mul_scalar; exact Hup]
         |eapply lookup_ge_scalar; exact Hrsi].
      f_equal. apply Nat.ltb_lt in Hw. rewrite Hw.
      rewrite (leb_nan_r _ _ (rsi_value_nan_gain nan)). apply andb_false_r.
Qed.

Lemma mo_run params df close p :
  columns df !! "Close" = Some close ->
  as_periods (mo_lookback_period params) = Ok p ->
  let m := Pd.pct_change p close in
  let thr := as_float (mo_threshold params) in
  exists df',
    momentum_body params df = Ret tt df' /\
    columns df' !! "signal" =
      Some (two_sided (length (index df)) (Pd.gt_scalar m thr)
              (Pd.lt_scalar m (- thr)%float)).
Proof.
  intros Hc Hp. cbv zeta.
  unfold momentum_body. cbv zeta. frame_run_blocks.
  eexists. split; [reflexivity|].
  rewrite !columns_set_col. solve_lookup.
Qed.

Lemma mo_warm params df close p i c :
  columns df !! "Close" = Some close ->
  length close = length (index df) ->
  as_periods (mo_lookback_period params) = Ok p ->
  close !! i = Some c ->
  (Z.of_nat i < p)%Z ->
  exists df' signal,
    momentum_body params df = Ret tt df' /\
    columns df' !! "signal" = Some signal /\ signal !! i = Some 0%float.
Proof.
  intros Hc Hlen Hp Hi Hw.
  destruct (mo_run params df close p Hc Hp) as (df' & Hrun & Hsig).
  exists df'. eexists. split; [exact Hrun|]. split; [exact Hsig|].
  pose proof (lookup_shift_early _ _ _ _ Hi Hw) as Hsh.
  pose proof (lookup_pct_change _ _ _ _ _ Hi Hsh) as Hm.
  assert (Hn : is_nan (c / nan - 1)%float = true).
  { apply sub_nan_l, div_nan_r. reflexivity. }
  apply two_sided_off.
  - apply lookup_lt_Some in Hi. lia.
  - rewrite (lookup_gt_scalar _ _ _ _ Hm). f_equal. now apply ltb_nan_r.
  - rewrite (lookup_lt_scalar _ _ _ _ Hm). f_equal. now apply ltb_nan_l.
Qed.

Lemma rd_run params df close rw dw :
  columns df !! "Close" = Some close ->
  as_window (rd_period params) = Ok rw ->
  as_window (rd_divergence_period params) = Ok dw ->
  let r := rsi rw close in
  let dp := Z.of_nat dw in
  let buy := Pd.band (Pd.band (Pd.lt close (Pd.shift dp close))
                              (Pd.gt r (Pd.shift dp r)))
                     (Pd.lt_scalar r 40) in
  let sell := Pd.band (Pd.band (Pd.gt close (Pd.shift dp close))
                               (Pd.lt r (Pd.shift dp r)))
                      (Pd.gt_scalar r 60) in
  exists df',
    rsi_divergence_body params df = Ret tt df' /\
    columns df' !! "signal" = Some (two_sided (length (index df)) buy sell).
Proof.
  intros Hc Hr Hd. cbv zeta.
  pose proof (as_window_periods _ _ Hd) as Hdp.
  unfold rsi_divergence_body, rsi_column. cbv zeta. frame_run_blocks.
  eexists. split; [reflexivity|].
  rewrite !columns_set_col. solve_lookup.
Qed.

Lemma rd_warm params df close rw dw i c :
  columns df !! "Close" = Some close ->
  length close = length (index df) ->
  as_window (rd_period params) = Ok rw ->
  as_window (rd_divergence_period params) = Ok dw ->
  close !! i = Some c ->
  i < dw \/ i + 1 < rw + dw ->
  exists df' signal,
    rsi_divergence_body params df = Ret tt df' /\
    columns df' !! "signal" = Some signal /\ signal !! i = Some 0%float.
Proof.
  intros Hc Hlen Hr Hd Hi Hw.
  destruct (rd_run params df close rw dw Hc Hr Hd) as (df' & Hrun & Hsig).
  exists df'. eexists. split; [exact Hrun|]. split; [exact Hsig|].
  destruct (lookup_rsi rw _ _ _ Hi) as (g & l & Hrsi).
  pose proof (lookup_shift (Z.of_nat dw) _ _ _ Hi) as Hsc.
  pose proof (lookup_shift (Z.of_nat dw) _ _ _ Hrsi) as Hsr.
  assert (Hcases : i < dw \/ (dw <= i /\ i - dw + 1 < rw)) by lia.
  clear Hw.
  assert (Hearlier : dw <= i -> i - dw + 1 < rw ->
            exists r, rsi rw close !! Z.to_nat (Z.of_nat i - Z.of_nat dw) = Some r /\
                      is_nan r = true).
  { intros Hge Hlt. replace (Z.to_nat (Z.of_nat i - Z.of_nat dw)) with (i - dw) by lia.
    destruct (lookup_lt_length close (i - dw)) as (c' & Hc').
    { apply lookup_lt_Some in Hi. lia. }
    exact (lookup_rsi_warm rw close (i - dw) c' Hc' Hlt). }
  apply two_sided_off.
  - apply lookup_lt_Some in Hi. lia.
  - erewrite lookup_band;
      [|eapply lookup_band; [eapply lookup_lt | eapply lookup_gt]; eassumption
       |eapply lookup_lt_scalar; exact Hrsi].
    f_equal. destruct Hcases as [Hlt|[Hge Hlt]].
    + destruct (Z.leb_spec 0 (Z.of_nat i - Z.of_nat dw)); [lia|].
      rewrite (ltb_nan_r c nan eq_refl). reflexivity.
    + destruct (Hearlier Hge Hlt) as (r & -> & Hnan).
      destruct (Z.leb_spec 0 (Z.of_nat i - Z.of_nat dw)); [|lia].
      cbn [default from_option]. unfold F.gtb.
      rewrite (ltb_nan_l r _ Hnan). now rewrite andb_false_r.
  - erewrite lookup_band;
      [|eapply lookup_band; [eapply lookup_gt | eapply lookup_lt]; eassumption
       |eapply lookup_gt_scalar; exact Hrsi].
    f_equal. destruct Hcases as [Hlt|[Hge Hlt]].
    + destruct (Z.leb_spec 0 (Z.of_nat i - Z.of_nat dw)); [lia|].
      unfold F.gtb. rewrite (ltb_nan_l nan c eq_refl). reflexivity.
    + destruct (Hearlier Hge Hlt) as (r & -> & Hnan).
      destruct (Z.leb_spec 0 (Z.of_nat i - Z.of_nat dw)); [|lia].
      cbn [default from_option].
      rewrite (ltb_nan_r _ r Hnan). now rewrite andb_false_r.
Qed.

Lemma macd_run params df close fs ss gs :
  columns df !! "Close" = Some close ->
  as_span (macd_fast params) = Ok fs ->
  as_span (macd_slow params) = Ok ss ->
  as_span (macd_signal params) = Ok gs ->
  let macd := Pd.sub (Pd.ewm_mean fs close) (Pd.ewm_mean ss close) in
  let sg := Pd.ewm_mean gs macd in
  let buy := Pd.band (Pd.gt macd sg) (Pd.le (Pd.shift 1 macd) (Pd.shift 1 sg)) in
  let sell := Pd.band (Pd.lt macd sg) (Pd.ge (Pd.shift 1 macd) (Pd.shift 1 sg)) in
  exists df',
    macd_crossover_body params df = Ret tt df' /\
    columns df' !! "signal" = Some (two_sided (length (index df)) buy sell).
Proof.
  intros Hc Hf Hs Hg. cbv zeta.
  unfold macd_crossover_body. cbv zeta. frame_run_blocks.
  eexists. split; [reflexivity|].
  rewrite !columns_set_col. solve_lookup.
Qed.

Lemma macd_warm params df close fs ss gs c :
  columns df !! "Close" = Some close ->
  length close = length (index df) ->
  as_span (macd_fast params) = Ok fs ->
  as_span (macd_slow params) = Ok ss ->
  as_span (macd_signal params) = Ok gs ->
  close !! 0 = Some c ->
  exists df' signal,
    macd_crossover_body params df = Ret tt df' /\
    columns df' !! "signal" = Some signal /\ signal !! 0 = Some 0%float.
Proof.
  intros Hc Hlen Hf Hs Hg Hi.
  destruct (macd_run params df close fs ss gs Hc Hf Hs Hg) as (df' & Hrun & Hsig).
  exists df'. eexists. split; [exact Hrun|]. split; [exact Hsig|].
  pose proof (lookup_sub _ _ _ _ _ (lookup_ewm_mean_0 fs _ _ Hi)
                (lookup_ewm_mean_0 ss _ _ Hi)) as Hm.
  pose proof (lookup_ewm_mean_0 gs _ _ Hm) as Hg0.
  pose proof (lookup_shift_early 1 _ _ _ Hm ltac:(lia)) as Hsm.
  pose proof (lookup_shift_early 1 _ _ _ Hg0 ltac:(lia)) as Hsg.
  apply two_sided_off.
  - apply lookup_lt_Some in Hi. lia.
  - erewrite lookup_band;
      [|eapply lookup_gt; eassumption | eapply lookup_le; eassumption].
    f_equal. rewrite (leb_nan_l nan nan eq_refl). apply andb_false_r.
  - erewrite lookup_band;
      [|eapply lookup_lt; eassumption | eapply lookup_ge; eassumption].
    f_equal. rewrite (leb_nan_l nan nan eq_refl). apply andb_false_r.
Qed.

Lemma lookup_strategy_method (s : strategy) :
  lookup_strategy (strategy_id s) = Some (method s).
Proof. destruct s; solve_registered. Qed.

Lemma signal_at_of_body body s params (σ : store) data df i v :
  method s = returning_data body ->
  σ !! data = Some df ->
  (exists df' signal,
     body params df = Ret tt df' /\
     columns df' !! "signal" = Some signal /\ signal !! i = Some v) ->
  signal_at (execute_strategy (strategy_id s) data params) σ data i v.
Proof.
  intros Hm Hσ (df' & signal & Hrun & Hsig & Hv).
  exists (<[data := df']> σ), df', signal.
  split; [|split; [apply lookup_insert_eq | auto]].
  unfold execute_strategy. rewrite lookup_strategy_method, Hm.
  eapply returning_data_run; eauto.
Qed.

(** C8. For each of the six strategies, on a frame with prices and
    with parameters pandas accepts, the call returns (nothing is
    raised), and at every bar inside the warm-up window the signal it
    stores is 0. *)
Theorem warm_up_bars_emit_zero s params σ data df close i :
  has_prices σ data df close ->
  valid_params s params ->
  warm_up s params i ->
  i < length close ->
  signal_at (execute_strategy (strategy_id s) data params) σ data i 0.
Proof.
  intros (Hσ & Hc & Hlen) Hvalid Hwarm Hi.
  destruct (lookup_lt_length _ _ Hi) as (c & Hci).
  destruct s; cbn [valid_params warm_up] in Hvalid, Hwarm.
  - destruct Hvalid as ((fw & Hf) & (sw & Hs)).
    rewrite (window_of_ok _ _ Hf), (window_of_ok _ _ Hs) in Hwarm.
    eapply signal_at_of_body; [reflexivity | exact Hσ |].
    eapply ma_warm; eauto.
  - destruct Hvalid as ((w & Hw) & (rw & Hr)).
    rewrite (window_of_ok _ _ Hw), (window_of_ok _ _ Hr) in Hwarm.
    eapply signal_at_of_body; [reflexivity | exact Hσ |].
    eapply mr_warm; eauto.
  - destruct Hvalid as (p & Hp).
    rewrite (periods_of_ok _ _ Hp) in Hwarm.
    eapply signal_at_of_body; [reflexivity | exact Hσ |].
    eapply mo_warm; eauto.
  - destruct Hvalid as (w & Hw).
    rewrite (window_of_ok _ _ Hw) in Hwarm.
    eapply signal_at_of_body; [reflexivity | exact Hσ |].
    eapply bb_warm; eauto.
  - destruct Hvalid as ((rw & Hr) & (dw & Hd)).
    rewrite (window_of_ok _ _ Hr), (window_of_ok _ _ Hd) in Hwarm.
    eapply signal_at_of_body; [reflexivity | exact Hσ |].
    eapply rd_warm; eauto.
  - destruct Hvalid as ((fs & Hf) & (ss & Hs) & (gs & Hg)).
    subst i.
    eapply signal_at_of_body; [reflexivity | exact Hσ |].
    eapply macd_warm; eauto.
Qed.

(** Bar 25 of thirty under the default RSI divergence (period 14,
    divergence period 20): the RSI itself is defined there, the RSI of
    twenty bars earlier is not. *)
Lemma warm_up_bars_emit_zero_witness :
  signal_at (execute_strategy "rsi-divergence" 0 None)
    (<[0 := flat_prices]> ∅) 0 25 0.
Proof.
  apply (warm_up_bars_emit_zero RsiDivergence None (<[0 := flat_prices]> ∅) 0
           flat_prices (replicate 30 50%float) 25).
  - repeat split; vm_compute; reflexivity.
  - split; [exists 14 | exists 20]; vm_compute; reflexivity.
  - right. vm_compute. lia.
  - vm_compute. lia.
Defined.

(** The defaults of every method are parameters pandas accepts. *)
Lemma valid_params_default (s : strategy) : valid_params s None.
Proof.
  destruct s; cbn [valid_params]; repeat split;
    eexists; vm_compute; reflexivity.
Qed.

(** * Further properties of the simulator *)

Lemma getitem_in_column df i row k v col :
  iloc df i = Ok row -> getitem row k = Ok v ->
  columns df !! k = Some col -> col !! i = Some v.
Proof.
  unfold iloc, getitem.
  destruct (index df !! i) as [d|]; [|discriminate]. intros [= <-]. cbn.
  rewrite lookup_omap. intros H Hc. rewrite Hc in H. cbn in H.
  destruct (col !! i) as [x|]; [|discriminate]. now injection H as ->.
Qed.

Lemma getitem_missing_column df i row k :
  iloc df i = Ok row -> columns df !! k = None -> getitem row k = Err KeyError.
Proof.
  unfold iloc, getitem.
  destruct (index df !! i) as [d|]; [|discriminate]. intros [= <-] Hc. cbn.
  now rewrite lookup_omap, Hc.
Qed.

Lemma run_no_buy commission slippage signals idxs : forall st st',
  no_buy_signal signals ->
  run_bars commission slippage signals st idxs = Ok st' ->
  shares st = 0%Z ->
  shares st' = 0%Z /\ trades st' = trades st /\ capital st' = capital st.
Proof.
  induction idxs as [|i idxs IH]; intros st st' Hno H Hz; cbn in H.
  - injection H as <-. auto.
  - apply bind_Ok in H as (st1 & Hstep & Hrest).
    apply bar_step_inv in Hstep
      as (row & price & sig & st0 & Hrow & Hp & Hs & Ht & ->).
    assert (Hsig : (sig =? 1)%float = false).
    { unfold getitem in Hs. destruct (cells row !! "signal") as [v|] eqn:Hc; [|discriminate].
      injection Hs as ->.
      unfold iloc in Hrow. destruct (index signals !! i); [|discriminate].
      injection Hrow as <-. cbn in Hc. rewrite lookup_omap in Hc.
      destruct (columns signals !! "signal") as [col|] eqn:Hcol; [|discriminate].
      cbn in Hc. specialize (Hno col Hcol).
      rewrite Forall_lookup in Hno. exact (Hno _ _ Hc). }
    unfold trade_step in Ht. rewrite Hsig, Hz in Ht. cbn in Ht.
    rewrite andb_false_r in Ht. injection Ht as <-.
    destruct (IH _ _ Hno Hrest Hz) as (H1 & H2 & H3). auto.
Qed.

(** X1. Without a [+1] in the signal column nothing is ever traded: the
    report has an empty trade log, no counted trade and a win rate of 0,
    whatever [-1] signals the series holds. *)
Theorem no_buy_signal_no_trade data signals config res :
  no_buy_signal signals ->
  execute_backtest data signals config = Ok res ->
  r_trades res = [] /\
  s_total_trades (r_summary res) = 0 /\
  m_win_rate (r_metrics res) = 0%float.
Proof.
  intros Hno H.
  apply execute_backtest_inv in H as (st & st' & Hsim & Hliq & Hcpm).
  unfold simulate in Hsim.
  destruct (run_no_buy _ _ _ _ _ _ Hno Hsim eq_refl) as (Hz & Ht & _).
  apply liquidate_inv in Hliq as (_ & _ & Hflat & _).
  rewrite Hflat, Ht in Hcpm by lia. cbn in Hcpm.
  pose proof (cpm_fields _ _ _ _ _ Hcpm) as (_ & Htr & _).
  apply cpm_metrics in Hcpm as (_ & _ & _ & _ & Hw & _ & Hn & _).
  rewrite Htr, Hw, Hn. auto.
Qed.

Lemma no_buy_signal_no_trade_witness :
  let df := mkFrame [1; 2; 3]%Z
              (<["Close" := [100; 90; 80]%float]>
              (<["signal" := [-1; 0; -1]%float]> ∅)) in
  exists res, execute_backtest df df None = Ok res /\ r_trades res = [].
Proof.
  cbv zeta. eexists. split; [vm_compute; reflexivity|].
  match goal with
  | |- r_trades ?r = _ =>
      destruct (no_buy_signal_no_trade
                  (mkFrame [1; 2; 3]%Z
                     (<["Close" := [100; 90; 80]%float]>
                     (<["signal" := [-1; 0; -1]%float]> ∅)))
                  (mkFrame [1; 2; 3]%Z
                     (<["Close" := [100; 90; 80]%float]>
                     (<["signal" := [-1; 0; -1]%float]> ∅)))
                  None r) as (Ht & _)
  end.
  - intros sigcol Hc. vm_compute in Hc. injection Hc as <-.
    repeat constructor.
  - vm_compute. reflexivity.
  - exact Ht.
Defined.

(** *** Degenerate prices *)

Lemma py_int_div_zero (x z : float) :
  (z =? 0)%float = true ->
  F.py_int (x / z) = Err OverflowError \/ F.py_int (x / z) = Err ValueError.
Proof.
  intros (s & Hz)%Prim2SF_zero_iff. unfold F.py_int.
  rewrite FloatAxioms.div_spec, Hz.
  destruct (Prim2SF x) as [sx|sx| |sx m e]; cbn; auto.
Qed.

(** X2. A buy signal on a flat position at a zero price never returns: the
    share count is [int] of an infinity or of NaN. *)
Theorem buy_at_zero_price_raises commission slippage signals st i row price sig :
  iloc signals i = Ok row ->
  getitem row "Close" = Ok price ->
  getitem row "signal" = Ok sig ->
  (sig =? 1)%float = true -> shares st = 0%Z ->
  (price =? 0)%float = true ->
  bar_step commission slippage signals st i = Err OverflowError \/
  bar_step commission slippage signals st i = Err ValueError.
Proof.
  intros Hrow Hp Hs Hsig Hz Hprice.
  unfold bar_step. rewrite Hrow. cbn. rewrite Hp. cbn. rewrite Hs. cbn.
  unfold trade_step. rewrite Hsig, Hz. cbn.
  destruct (py_int_div_zero (capital st * 0.95) price Hprice) as [-> | ->];
    cbn; auto.
Qed.

Lemma buy_at_zero_price_raises_witness :
  let df := mkFrame [1]%Z
              (<["Close" := [0]%float]> (<["signal" := [1]%float]> ∅)) in
  bar_step default_commission default_slippage df (init_state 100000) 0
    = Err OverflowError \/
  bar_step default_commission default_slippage df (init_state 100000) 0
    = Err ValueError.
Proof.
  cbv zeta.
  apply (buy_at_zero_price_raises _ _ _ _ _
           (mkRow 1 (<["Close" := 0%float]> (<["signal" := 1%float]> ∅)))
           0%float 1%float); vm_compute; reflexivity.
Defined.

Lemma binary_round_aux_signed sx mx ex lx :
  sf_signed sx (binary_round_aux prec emax sx mx ex lx).
Proof.
  unfold binary_round_aux.
  destruct (shr_fexp prec emax mx ex lx) as [mrs' e'].
  destruct (shr_fexp prec emax _ e' loc_Exact) as [mrs'' e''].
  destruct (shr_m mrs'') as [|p|p]; cbn; auto.
  destruct (e'' <=? emax - prec)%Z; cbn; auto.
Qed.

Lemma SFmul_signed sx sy x y :
  sf_signed sx x -> sf_signed sy y -> sf_signed (xorb sx sy) (SF64mul x y).
Proof.
  unfold SF64mul, SFmul.
  destruct x as [s|s| |s m e], y as [s'|s'| |s' m' e']; cbn;
    try (intros -> ->; reflexivity); auto.
  intros -> ->. apply binary_round_aux_signed.
Qed.

Lemma SFdiv_signed sx sy x y :
  sf_signed sx x -> sf_signed sy y -> sf_signed (xorb sx sy) (SF64div x y).
Proof.
  unfold SF64div, SFdiv.
  destruct x as [s|s| |s m e], y as [s'|s'| |s' m' e']; cbn;
    try (intros -> ->; reflexivity); auto.
  intros -> ->.
  destruct (SFdiv_core_binary prec emax (Z.pos m) e (Z.pos m') e') as [[mz ez] lz].
  apply binary_round_aux_signed.
Qed.

Lemma trunc_finite_neg m e : (F.trunc_finite true m e <= 0)%Z.
Proof.
  unfold F.trunc_finite.
  assert (0 <= match e with
               | Z.neg p => Z.shiftr (Z.pos m) (Z.pos p)
               | _ => Z.shiftl (Z.pos m) e
               end)%Z; [|lia].
  destruct e; [apply Z.shiftl_nonneg | apply Z.shiftl_nonneg
              | apply Z.shiftr_nonneg]; lia.
Qed.

Lemma py_int_signed_neg (x : float) t :
  sf_signed true (Prim2SF x) -> F.py_int x = Ok t -> (t <= 0)%Z.
Proof.
  unfold F.py_int. destruct (Prim2SF x) as [s|s| |s m e]; cbn; try discriminate.
  - intros _ [= <-]. lia.
  - intros -> [= <-]. apply trunc_finite_neg.
Qed.

Lemma neg_price_signed (price : float) :
  (price <? 0)%float = true -> sf_signed true (Prim2SF price).
Proof.
  rewrite FloatAxioms.ltb_spec. unfold SFltb.
  change (Prim2SF 0) with (S754_zero false).
  destruct (Prim2SF price) as [s|s| |s m e]; cbn; try discriminate; auto.
  - destruct s; [reflexivity | discriminate].
  - destruct s; [reflexivity | discriminate].
Qed.

Lemma nonneg_capital_cases (c : float) :
  (0 <=? c)%float = true ->
  (exists s, Prim2SF c = S754_zero s) \/ sf_signed false (Prim2SF c).
Proof.
  rewrite FloatAxioms.leb_spec. unfold SFleb.
  change (Prim2SF 0) with (S754_zero false).
  destruct (Prim2SF c) as [s|s| |s m e]; cbn; try discriminate; eauto.
  - destruct s; [discriminate | auto].
  - destruct s; [discriminate | auto].
Qed.

Lemma quotient_not_positive (c price : float) t :
  (0 <=? c)%float = true -> (price <? 0)%float = true ->
  F.py_int (c * 0.95 / price) = Ok t -> (t <= 0)%Z.
Proof.
  intros Hc Hp. pose proof (neg_price_signed _ Hp) as Hps.
  destruct (nonneg_capital_cases _ Hc) as [(s & Hz)|Hcs].
  - unfold F.py_int. rewrite FloatAxioms.div_spec, FloatAxioms.mul_spec, Hz.
    change (Prim2SF 0.95) with (S754_finite false 8556839292003942 (-53)).
    cbn. destruct (Prim2SF price) as [s'|s'| |s' m e]; cbn; try discriminate;
      intros [= <-]; lia.
  - apply py_int_signed_neg.
    rewrite FloatAxioms.div_spec, FloatAxioms.mul_spec.
    apply (SFdiv_signed false true); [|exact Hps].
    apply (SFmul_signed false false); [exact Hcs|].
    change (Prim2SF 0.95) with (S754_finite false 8556839292003942 (-53)).
    reflexivity.
Qed.

(** X3. A buy signal at a negative price, with cash that is not negative,
    never buys: the iteration either raises or leaves cash, shares and
    the trade log as they were. *)
Theorem buy_at_negative_price_never_buys commission slippage signals st i
    row price sig :
  iloc signals i = Ok row ->
  getitem row "Close" = Ok price ->
  getitem row "signal" = Ok sig ->
  (sig =? 1)%float = true -> shares st = 0%Z ->
  (price <? 0)%float = true -> (0 <=? capital st)%float = true ->
  match bar_step commission slippage signals st i with
  | Ok st' =>
      trades st' = trades st /\ shares st' = 0%Z /\ capital st' = capital st
  | Err e => e = OverflowError \/ e = ValueError
  end.
Proof.
  intros Hrow Hp Hs Hsig Hz Hneg Hcap.
  unfold bar_step. rewrite Hrow. cbn. rewrite Hp. cbn. rewrite Hs. cbn.
  unfold trade_step. rewrite Hsig, Hz. cbn.
  destruct (F.py_int (capital st * 0.95 / price)) as [t|e] eqn:Hq; cbn.
  - pose proof (quotient_not_positive _ _ _ Hcap Hneg Hq) as Ht.
    destruct (Z.ltb_spec 0 t); [lia|]. cbn. auto.
  - unfold F.py_int in Hq.
    destruct (Prim2SF (capital st * 0.95 / price)); try discriminate;
      injection Hq as <-; auto.
Qed.

Lemma buy_at_negative_price_never_buys_witness :
  let df := mkFrame [1]%Z
              (<["Close" := [-5]%float]> (<["signal" := [1]%float]> ∅)) in
  exists st', bar_step default_commission default_slippage df
                (init_state 100000) 0 = Ok st' /\ trades st' = [].
Proof.
  cbv zeta.
  pose proof (buy_at_negative_price_never_buys default_commission default_slippage
      (mkFrame [1]%Z (<["Close" := [-5]%float]> (<["signal" := [1]%float]> ∅)))
      (init_state 100000) 0
      (mkRow 1 (<["Close" := (-5)%float]> (<["signal" := 1%float]> ∅)))
      (-5)%float 1%float) as H.
  destruct (bar_step default_commission default_slippage
      (mkFrame [1]%Z (<["Close" := [-5]%float]> (<["signal" := [1]%float]> ∅)))
      (init_state 100000) 0) as [st'|e] eqn:E.
  - exists st'. split; [reflexivity|].
    apply H; vm_compute; reflexivity.
  - vm_compute in E. discriminate.
Defined.

(** *** Empty series and missing columns *)

(** X4. On a series without bars the backtest raises [ZeroDivisionError]
    when the initial capital is 0, and otherwise returns a report whose
    equity curve is the initial capital alone, with no trade, position
    or daily return, and zero Sharpe ratio, Sortino ratio and win rate. *)
Theorem empty_series_report data signals config :
  index signals = [] ->
  let c := dict_get (effective_config config) "initial_capital" 100000 in
  ((c =? 0)%float = true ->
     execute_backtest data signals config = Err ZeroDivisionError) /\
  ((c =? 0)%float = false ->
     exists res,
       execute_backtest data signals config = Ok res /\
       r_equity res = [c] /\ r_trades res = [] /\ r_positions res = [] /\
       r_daily_returns res = [] /\
       s_final_capital (r_summary res) = c /\
       s_total_trades (r_summary res) = 0 /\
       m_sharpe_ratio (r_metrics res) = 0%float /\
       m_sortino_ratio (r_metrics res) = 0%float /\
       m_win_rate (r_metrics res) = 0%float).
Proof.
  intros Hidx. cbv zeta.
  unfold execute_backtest. fold (effective_config config).
  rewrite Hidx. cbn [length seq run_bars mbind mret result_bind result_ret].
  unfold liquidate, init_state. cbn [shares Z.ltb Z.compare equity trades positions].
  unfold calculate_performance_metrics, iloc_last, total_return_of.
  cbn [last length Nat.eqb andb mbind result_bind].
  split; intros Hc; rewrite Hc; cbn [mbind result_bind].
  - reflexivity.
  - eexists. split; [reflexivity|]. cbn. repeat split.
Qed.

Lemma empty_series_report_witness :
  exists res,
    execute_backtest (mkFrame [] ∅) (mkFrame [] ∅) None = Ok res /\
    r_equity res = [100000%float] /\ r_trades res = [].
Proof.
  destruct (empty_series_report (mkFrame [] ∅) (mkFrame [] ∅) None eq_refl)
    as [_ H].
  destruct H as (res & Hres & Heq & Htr & _); [vm_compute; reflexivity|].
  exists res. auto.
Defined.

(** X5. With at least one bar and no [Close] or no [signal] column, the
    backtest raises [KeyError]. *)
Theorem backtest_missing_column data signals config :
  index signals <> [] ->
  columns signals !! "Close" = None \/ columns signals !! "signal" = None ->
  execute_backtest data signals config = Err KeyError.
Proof.
  intros Hidx Hmiss. unfold execute_backtest.
  destruct (index signals) as [|d idx] eqn:Hi; [congruence|].
  cbn [length seq run_bars]. unfold bar_step at 1.
  assert (Hrow : iloc signals 0 =
                 Ok (mkRow d (omap (fun c : list float => c !! 0) (columns signals)))).
  { unfold iloc. now rewrite Hi. }
  rewrite Hrow. cbn [mbind result_bind].
  destruct (getitem _ "Close") as [price|e] eqn:Hp.
  - cbn [mbind result_bind].
    destruct Hmiss as [Hm|Hm].
    + rewrite (getitem_missing_column _ _ _ _ Hrow Hm) in Hp. discriminate.
    + rewrite (getitem_missing_column _ _ _ _ Hrow Hm). reflexivity.
  - cbn [mbind result_bind]. unfold getitem in Hp.
    destruct (cells _ !! "Close"); [discriminate|]. now injection Hp as <-.
Qed.

Lemma backtest_missing_column_witness :
  execute_backtest rising_prices rising_prices None = Err KeyError.
Proof.
  apply backtest_missing_column.
  - discriminate.
  - right. vm_compute. reflexivity.
Defined.

(** *** What the price frame is used for *)

(** X6. When the loop ends without shares, or does not end, the first
    argument is never read: any two price frames give the same
    report. *)
Theorem flat_run_ignores_price_frame data1 data2 signals config :
  (forall st, simulate signals (effective_config config) = Ok st ->
     shares st = 0%Z) ->
  execute_backtest data1 signals config = execute_backtest data2 signals config.
Proof.
  intros Hflat. unfold execute_backtest. fold (effective_config config).
  unfold simulate in Hflat.
  destruct (run_bars _ _ signals _ _) as [st|e]; [|reflexivity].
  cbn [mbind result_bind]. unfold liquidate.
  now rewrite (Hflat st eq_refl).
Qed.

Lemma flat_run_ignores_price_frame_witness :
  execute_backtest demo_frame demo_frame None
  = execute_backtest (mkFrame [] ∅) demo_frame None.
Proof.
  apply flat_run_ignores_price_frame.
  intros st H. vm_compute in H. now injection H as <-.
Defined.

(** *** The positions log *)

Lemma run_positions_log commission slippage signals idxs : forall st st',
  run_bars commission slippage signals st idxs = Ok st' ->
  exists ps,
    positions st' = positions st ++ ps /\
    equity st' = equity st ++ map p_equity ps /\
    Forall2 (position_of_bar signals) idxs ps.
Proof.
  induction idxs as [|i idxs IH]; intros st st' H; cbn in H.
  - injection H as <-. exists []. rewrite !app_nil_r. repeat split. constructor.
  - apply bind_Ok in H as (st1 & Hstep & Hrest).
    apply step_logs in Hstep as (row & price & Hrow & Hp & Heq & Hpos).
    apply IH in Hrest as (ps & Hps & Hes & Hall).
    eexists (_ :: ps). rewrite Hps, Hes, Hpos, Heq, <- !app_assoc. cbn.
    repeat split. constructor; [|exact Hall].
    exists row. cbn. auto.
Qed.

(** X7. The report holds one position per bar, in order, each with the
    bar's label and close and with equity = cash + shares * close, and
    the equity curve is the initial capital followed by those
    equities. *)
Theorem positions_log_matches_equity data signals config res :
  execute_backtest data signals config = Ok res ->
  Forall2 (position_of_bar signals) (seq 0 (length (index signals)))
    (r_positions res) /\
  r_equity res =
    dict_get (effective_config config) "initial_capital" 100000
      :: map p_equity (r_positions res).
Proof.
  intros H.
  apply execute_backtest_inv in H as (st & st' & Hsim & Hliq & Hcpm).
  apply cpm_fields in Hcpm as (Heq & _ & Hpos & _).
  apply liquidate_inv in Hliq as (Heq' & Hpos' & _).
  apply run_positions_log in Hsim as (ps & Hps & Hes & Hall).
  rewrite Heq, Hpos, Heq', Hpos', Hps, Hes. cbn. auto.
Qed.

Lemma positions_log_matches_equity_witness :
  exists res,
    execute_backtest demo_frame demo_frame None = Ok res /\
    r_equity res = 100000%float :: map p_equity (r_positions res).
Proof.
  eexists. split; [vm_compute; reflexivity|].
  match goal with
  | |- r_equity ?r = _ =>
      destruct (positions_log_matches_equity demo_frame demo_frame None r)
        as (_ & Heq)
  end.
  - vm_compute. reflexivity.
  - exact Heq.
Defined.

(** *** Round trips *)

Lemma replay_counts (log : list Trade) : forall h h',
  replay h log = Some h' ->
  count_buys log + (if (h =? 0)%Z then 0 else 1)
  = count_sells log + (if (h' =? 0)%Z then 0 else 1).
Proof.
  unfold count_buys, count_sells.
  induction log as [|t log IH]; intros h h' H.
  - injection H as <-. reflexivity.
  - destruct t as [d n p c k|d n p c k]; cbn [replay] in H;
      cbn [List.filter is_buy is_sell negb length].
    + destruct (Z.eqb_spec h 0); [|discriminate].
      destruct (Z.ltb_spec 0 n); [|discriminate]. cbn in H.
      apply IH in H. destruct (Z.eqb_spec n 0); [lia|]. cbn [length]. lia.
    + destruct (Z.ltb_spec 0 h); [|discriminate].
      destruct (Z.eqb_spec n h); [|discriminate]. cbn in H.
      apply IH in H. destruct (Z.eqb_spec h 0); [lia|]. cbn [length].
      cbn in H. lia.
Qed.

Lemma returned_log_replays_flat data signals config res :
  execute_backtest data signals config = Ok res ->
  replay 0 (r_trades res) = Some 0%Z.
Proof.
  intros H.
  apply execute_backtest_inv in H as (st & st' & Hsim & Hliq & Hcpm).
  apply cpm_fields in Hcpm as (_ & Htr & _).
  apply liquidate_inv in Hliq as (_ & _ & Hflat & Hopen).
  assert (Hinv : sim_inv st).
  { eapply run_inv; [exact Hsim | apply init_state_inv]. }
  rewrite Htr. destruct Hinv as [Hnn Hr].
  destruct (Z.eq_dec (shares st) 0%Z) as [Hz|Hnz].
  - rewrite Hflat by lia. now rewrite Hr, Hz.
  - destruct Hopen as (cl & fp & d & _ & _ & _ & ->); [lia|].
    rewrite replay_app, Hr. cbn.
    destruct (Z.ltb_spec 0 (shares st)); [|lia]. now rewrite Z.eqb_refl.
Qed.

(** X8. The reported number of trades counts round trips: it is the number
    of SELL trades, which equals the number of BUY trades and half the
    length of the trade log. *)
Theorem total_trades_counts_round_trips data signals config res :
  execute_backtest data signals config = Ok res ->
  s_total_trades (r_summary res) = count_sells (r_trades res) /\
  count_buys (r_trades res) = count_sells (r_trades res) /\
  length (r_trades res) = 2 * s_total_trades (r_summary res).
Proof.
  intros H.
  pose proof (returned_log_replays_flat _ _ _ _ H) as Hrep.
  apply execute_backtest_inv in H as (st & st' & _ & _ & Hcpm).
  pose proof (cpm_fields _ _ _ _ _ Hcpm) as (_ & Htr & _).
  apply cpm_metrics in Hcpm as (_ & _ & _ & _ & _ & _ & Hn & _).
  pose proof (replay_counts _ _ _ Hrep) as Hc. cbn in Hc.
  rewrite Hn, Htr in *. unfold total_trades, sell_trades. fold (count_sells (trades st')).
  split; [reflexivity|]. split; [lia|].
  assert (Hlen : length (trades st') = count_buys (trades st') + count_sells (trades st')).
  { unfold count_buys, count_sells, is_buy. clear.
    induction (trades st') as [|t l IH]; [reflexivity|].
    cbn. destruct (is_sell t); cbn; lia. }
  lia.
Qed.

Lemma total_trades_counts_round_trips_witness :
  exists res,
    execute_backtest demo_frame demo_frame None = Ok res /\
    length (r_trades res) = 2 * s_total_trades (r_summary res).
Proof.
  eexists. split; [vm_compute; reflexivity|].
  match goal with
  | |- length (r_trades ?r) = _ =>
      destruct (total_trades_counts_round_trips demo_frame demo_frame None r)
        as (_ & _ & Hlen)
  end.
  - vm_compute. reflexivity.
  - exact Hlen.
Defined.

(** * Further properties of the analyzer *)

Lemma fold_minimum_nan (l : list float) (x : float) :
  is_nan x = true -> fold_left Np.minimum l x = x.
Proof.
  revert x. induction l as [|y l IH]; intros x Hx; [reflexivity|].
  cbn. unfold Np.minimum at 2. rewrite Hx. now apply IH.
Qed.

Lemma zero_drawdown_nan (e0 : float) :
  (e0 =? 0)%float = true -> is_nan ((e0 - e0) / e0) = true.
Proof.
  intros (s & Hz)%Prim2SF_zero_iff. apply is_nan_spec.
  rewrite FloatAxioms.div_spec, FloatAxioms.sub_spec, Hz.
  destruct s; reflexivity.
Qed.

Lemma abs_nan (x : float) : is_nan x = true -> is_nan (abs x) = true.
Proof. rewrite !is_nan_spec, abs_spec. now intros ->. Qed.

Lemma calmar_ratio_nan (tr md : float) :
  is_nan md = true -> calmar_ratio tr md = nan.
Proof.
  intros Hn. unfold calmar_ratio, F.neb.
  assert (Hz : (md =? 0)%float = false).
  { rewrite FloatAxioms.eqb_spec. apply is_nan_spec in Hn. now rewrite Hn. }
  rewrite Hz. cbn. apply is_nan_eq, div_nan_r, abs_nan, Hn.
Qed.

(** X9. When the equity curve starts at zero, the first drawdown is 0/0:
    every report the analyzer returns on such a curve has a NaN maximum
    drawdown, and the Calmar guard [max_drawdown != 0] lets it through,
    so the Calmar ratio is NaN too. *)
Theorem zero_start_gives_nan_drawdown e0 rest tr pos cfg res :
  (e0 =? 0)%float = true ->
  calculate_performance_metrics (e0 :: rest) tr pos cfg = Ok res ->
  m_max_drawdown (r_metrics res) = nan /\
  m_calmar_ratio (r_metrics res) = nan.
Proof.
  intros Hz H. unfold calculate_performance_metrics in H.
  apply bind_Ok in H as (final_capital & _ & H).
  apply bind_Ok in H as (total_return & _ & H).
  apply bind_Ok in H as (max_drawdown & Hmin & H).
  injection H as <-. cbn [r_metrics m_max_drawdown m_calmar_ratio].
  assert (Hmd : max_drawdown = nan).
  { unfold drawdown, Np.maximum_accumulate in Hmin. cbn in Hmin.
    injection Hmin as <-.
    rewrite fold_minimum_nan by now apply zero_drawdown_nan.
    now apply is_nan_eq, zero_drawdown_nan. }
  subst max_drawdown. split; [reflexivity|]. now apply calmar_ratio_nan.
Qed.

Lemma zero_start_gives_nan_drawdown_witness :
  exists res,
    calculate_performance_metrics [0; 10; 20]%float [] [] default_config = Ok res /\
    m_calmar_ratio (r_metrics res) = nan.
Proof.
  eexists. split; [vm_compute; reflexivity|].
  match goal with
  | |- m_calmar_ratio (r_metrics ?r) = _ =>
      destruct (zero_start_gives_nan_drawdown 0 [10; 20]%float [] []
                  default_config r) as (_ & Hc)
  end.
  - reflexivity.
  - vm_compute. reflexivity.
  - exact Hc.
Defined.

Lemma positive_finite_not_nan x : positive_finite x -> is_nan x = false.
Proof. intros (m & e & H). apply is_nan_false. rewrite H. discriminate. Qed.

Lemma positive_finite_leb_eq (x y : float) :
  positive_finite x -> positive_finite y ->
  (x <=? y)%float = true -> (x <? y)%float = false -> x = y.
Proof.
  intros (m & e & Hx) (m' & e' & Hy).
  rewrite FloatAxioms.leb_spec, FloatAxioms.ltb_spec, Hx, Hy.
  unfold SFleb, SFltb. cbn.
  destruct (e ?= e')%Z eqn:He; try discriminate.
  - destruct (Pos.compare_cont Eq m m') eqn:Hm; try discriminate.
    intros _ _. apply Z.compare_eq in He. apply Pos.compare_eq in Hm.
    apply Prim2SF_inj. congruence.
Qed.

Lemma maximum_of_leb (x y : float) :
  positive_finite x -> positive_finite y ->
  (x <=? y)%float = true -> Np.maximum x y = y.
Proof.
  intros Hx Hy Hle. unfold Np.maximum.
  rewrite (positive_finite_not_nan _ Hx), (positive_finite_not_nan _ Hy).
  destruct (x <? y)%float eqn:Hlt; [reflexivity|].
  now apply positive_finite_leb_eq.
Qed.

Lemma accumulate_non_decreasing (l : list float) : forall acc,
  positive_finite acc -> Forall positive_finite l ->
  non_decreasing (acc :: l) -> Np.accumulate_from acc l = l.
Proof.
  induction l as [|x l IH]; intros acc Ha Hall Hnd; [reflexivity|].
  inversion Hall as [|? ? Hx Hl]; subst.
  destruct Hnd as [Hle Hnd]. cbn.
  rewrite (maximum_of_leb _ _ Ha Hx Hle). f_equal. now apply IH.
Qed.

Lemma positive_finite_drawdown (x : float) :
  positive_finite x -> ((x - x) / x)%float = 0%float.
Proof.
  intros (m & e & Hx). apply Prim2SF_inj.
  rewrite FloatAxioms.div_spec, FloatAxioms.sub_spec, Hx.
  unfold SF64sub, SFsub. rewrite Z.sub_diag. reflexivity.
Qed.

Lemma zip_self_drawdown (l : list float) :
  Forall positive_finite l ->
  zip_with (fun e p => ((e - p) / p)%float) l l = map (fun _ => 0%float) l.
Proof.
  induction 1 as [|y l Hy _ IH]; [reflexivity|].
  cbn. now rewrite (positive_finite_drawdown _ Hy), IH.
Qed.

Lemma drawdown_non_decreasing (eq : list float) :
  Forall positive_finite eq -> non_decreasing eq ->
  drawdown eq = map (fun _ => 0%float) eq.
Proof.
  intros Hall Hnd. unfold drawdown, Np.maximum_accumulate.
  destruct eq as [|x l]; [reflexivity|].
  inversion Hall as [|? ? Hx Hl]; subst.
  rewrite (accumulate_non_decreasing _ _ Hx Hl Hnd).
  now apply zip_self_drawdown.
Qed.

Lemma fold_minimum_zeros {A : Type} (l : list A) :
  fold_left Np.minimum (map (fun _ => 0%float) l) 0%float = 0%float.
Proof. induction l as [|x l IH]; [reflexivity|]. cbn. exact IH. Qed.

(** X10. On an equity curve of positive finite values that never decreases,
    every report has a maximum drawdown of 0 and, by the fallback, a
    Calmar ratio of 0. *)
Theorem rising_equity_has_no_drawdown eq tr pos cfg res :
  Forall positive_finite eq -> non_decreasing eq ->
  calculate_performance_metrics eq tr pos cfg = Ok res ->
  m_max_drawdown (r_metrics res) = 0%float /\
  m_calmar_ratio (r_metrics res) = 0%float.
Proof.
  intros Hall Hnd H. unfold calculate_performance_metrics in H.
  apply bind_Ok in H as (final_capital & _ & H).
  apply bind_Ok in H as (total_return & _ & H).
  apply bind_Ok in H as (max_drawdown & Hmin & H).
  injection H as <-. cbn [r_metrics m_max_drawdown m_calmar_ratio].
  rewrite (drawdown_non_decreasing _ Hall Hnd) in Hmin.
  destruct eq as [|x l]; [discriminate|]. cbn in Hmin.
  rewrite fold_minimum_zeros in Hmin. injection Hmin as <-.
  split; reflexivity.
Qed.

Lemma rising_equity_has_no_drawdown_witness :
  exists res,
    calculate_performance_metrics [100; 100; 120]%float [] [] default_config = Ok res /\
    m_max_drawdown (r_metrics res) = 0%float.
Proof.
  eexists. split; [vm_compute; reflexivity|].
  match goal with
  | |- m_max_drawdown (r_metrics ?r) = _ =>
      destruct (rising_equity_has_no_drawdown [100; 100; 120]%float [] []
                  default_config r) as (Hm & _)
  end.
  - repeat constructor; do 2 eexists; vm_compute; reflexivity.
  - repeat split; vm_compute; reflexivity.
  - vm_compute. reflexivity.
  - exact Hm.
Defined.

(** * Further properties of the strategies *)

Lemma frame_eq (d1 d2 : DataFrame) :
  index d1 = index d2 -> columns d1 = columns d2 -> d1 = d2.
Proof. destruct d1, d2. cbn. now intros -> ->. Qed.

Lemma index_write_all plan df : index (write_all plan df) = index df.
Proof.
  revert df. induction plan as [|[k c] plan IH]; intros df; [reflexivity|].
  cbn. now rewrite IH.
Qed.

Lemma lookup_write_all plan : forall df k,
  columns (write_all plan df) !! k =
  match plan_lookup plan k with
  | Some c => Some c
  | None => columns df !! k
  end.
Proof.
  induction plan as [|[k' c] plan IH]; intros df k; [reflexivity|].
  cbn [write_all fold_left plan_lookup fst snd].
  fold (write_all plan (set_col df k' c)). rewrite IH.
  destruct (plan_lookup plan k); [reflexivity|].
  rewrite columns_set_col. destruct (decide (k' = k)) as [->|Hne].
  - apply lookup_insert_eq.
  - now apply lookup_insert_ne.
Qed.

Lemma write_all_idempotent plan df :
  write_all plan (write_all plan df) = write_all plan df.
Proof.
  apply frame_eq; [now rewrite !index_write_all|].
  apply map_eq. intros k. rewrite !lookup_write_all.
  now destruct (plan_lookup plan k).
Qed.

(** Two chains of column assignments over one frame agree when they
    agree on every key. *)
Ltac solve_side :=
  rewrite ?columns_set_col;
  repeat first
    [ rewrite lookup_insert_eq
    | rewrite lookup_insert_ne by (first [done | congruence]) ];
  reflexivity.

Ltac split_keys k keys :=
  lazymatch keys with
  | ?s :: ?rest =>
      destruct (decide (k = s)) as [->|?]; [solve_side | split_keys k rest]
  | _ => solve_side
  end.

Ltac frames_agree keys :=
  apply frame_eq; [reflexivity|];
  cbn [write_all fold_left fst snd];
  apply map_eq;
  let k := fresh "k" in
  intros k;
  let ks := eval hnf in keys in
  split_keys k ks.

Lemma ma_body_plan params df close fw sw :
  columns df !! "Close" = Some close ->
  as_window (ma_fast_period params) = Ok fw ->
  as_window (ma_slow_period params) = Ok sw ->
  moving_average_crossover_body params df
  = Ret tt (write_all (ma_columns params close (length (index df))) df).
Proof.
  intros Hc Hf Hs.
  unfold moving_average_crossover_body. cbv zeta. frame_run.
  unfold ma_columns, ma_signal.
  rewrite (window_of_ok _ _ Hf), (window_of_ok _ _ Hs).
  f_equal. unfold assign. f_equal. frames_agree ma_writes.
Qed.

Lemma mr_body_plan params df close w rw :
  columns df !! "Close" = Some close ->
  as_window (mr_bb_period params) = Ok w ->
  as_window (mr_rsi_period params) = Ok rw ->
  mean_reversion_body params df
  = Ret tt (write_all (mr_columns params close (length (index df))) df).
Proof.
  intros Hc Hw Hr.
  unfold mean_reversion_body, bollinger_columns, rsi_column. cbv zeta.
  frame_run_blocks.
  unfold mr_columns, mr_signal, band_upper, band_lower, band_middle, band_std.
  cbv zeta. rewrite (window_of_ok _ _ Hw), (window_of_ok _ _ Hr).
  f_equal. unfold assign. f_equal. frames_agree mr_writes.
Qed.

Lemma mo_body_plan params df close p :
  columns df !! "Close" = Some close ->
  as_periods (mo_lookback_period params) = Ok p ->
  momentum_body params df
  = Ret tt (write_all (mo_columns params close (length (index df))) df).
Proof.
  intros Hc Hp.
  unfold momentum_body. cbv zeta. frame_run_blocks.
  unfold mo_columns, mo_signal. cbv zeta. rewrite (periods_of_ok _ _ Hp).
  f_equal. unfold assign. f_equal. frames_agree mo_writes.
Qed.

Lemma bb_body_plan params df close w :
  columns df !! "Close" = Some close ->
  as_window (bb_period params) = Ok w ->
  bollinger_bands_body params df
  = Ret tt (write_all (bb_columns params close (length (index df))) df).
Proof.
  intros Hc Hw.
  unfold bollinger_bands_body, bollinger_columns. cbv zeta. frame_run_blocks.
  unfold bb_columns, bb_signal, band_upper, band_lower, band_middle, band_std.
  cbv zeta. rewrite (window_of_ok _ _ Hw).
  f_equal. unfold assign. f_equal. frames_agree bb_writes.
Qed.

Lemma rd_body_plan params df close rw dw :
  columns df !! "Close" = Some close ->
  as_window (rd_period params) = Ok rw ->
  as_window (rd_divergence_period params) = Ok dw ->
  rsi_divergence_body params df
  = Ret tt (write_all (rd_columns params close (length (index df))) df).
Proof.
  intros Hc Hr Hd.
  pose proof (as_window_periods _ _ Hd) as Hdp.
  unfold rsi_divergence_body, rsi_column. cbv zeta. frame_run_blocks.
  unfold rd_columns, rd_signal. cbv zeta.
  rewrite (window_of_ok _ _ Hr), (window_of_ok _ _ Hd).
  f_equal. unfold assign. f_equal. frames_agree rd_writes.
Qed.

Lemma as_span_ok v x : as_span v = Ok x -> span_of v = x.
Proof.
  unfold as_span, span_of. destruct (as_float v <? 1)%float; [discriminate|].
  now intros [= <-].
Qed.

Lemma macd_body_plan params df close fs ss gs :
  columns df !! "Close" = Some close ->
  as_span (macd_fast params) = Ok fs ->
  as_span (macd_slow params) = Ok ss ->
  as_span (macd_signal params) = Ok gs ->
  macd_crossover_body params df
  = Ret tt (write_all (macd_columns params close (length (index df))) df).
Proof.
  intros Hc Hf Hs Hg.
  unfold macd_crossover_body. cbv zeta. frame_run_blocks.
  unfold macd_columns, macd_signal_column, macd_signal_line, macd_line.
  cbv zeta.
  rewrite (as_span_ok _ _ Hf), (as_span_ok _ _ Hs), (as_span_ok _ _ Hg).
  f_equal. unfold assign. f_equal. frames_agree macd_writes.
Qed.

Lemma body_plan s params df close :
  columns df !! "Close" = Some close ->
  valid_params s params ->
  body_of s params df
  = Ret tt (write_all (columns_of s params close (length (index df))) df).
Proof.
  intros Hc Hv. destruct s; cbn [valid_params body_of columns_of] in *.
  - destruct Hv as ((fw & Hf) & (sw & Hs)). eapply ma_body_plan; eauto.
  - destruct Hv as ((w & Hw) & (rw & Hr)). eapply mr_body_plan; eauto.
  - destruct Hv as (p & Hp). eapply mo_body_plan; eauto.
  - destruct Hv as (w & Hw). eapply bb_body_plan; eauto.
  - destruct Hv as ((rw & Hr) & (dw & Hd)). eapply rd_body_plan; eauto.
  - destruct Hv as ((fs & Hf) & (ss & Hs) & (gs & Hg)).
    eapply macd_body_plan; eauto.
Qed.

Lemma method_body s : method s = returning_data (body_of s).
Proof. now destruct s. Qed.

Lemma execute_strategy_plan s params (σ : store) data df close :
  σ !! data = Some df ->
  columns df !! "Close" = Some close ->
  valid_params s params ->
  execute_strategy (strategy_id s) data params σ
  = Ret data
      (<[data := write_all (columns_of s params close (length (index df))) df]> σ).
Proof.
  intros Hσ Hc Hv. unfold execute_strategy.
  rewrite lookup_strategy_method, method_body.
  eapply returning_data_run; [exact Hσ|]. now apply body_plan.
Qed.

Lemma plan_lookup_close s params close n :
  plan_lookup (columns_of s params close n) "Close" = None.
Proof. now destruct s. Qed.

Lemma writes_of_plan s params close n :
  map fst (columns_of s params close n) = writes_of s.
Proof. now destruct s. Qed.

Lemma plan_lookup_some plan k :
  k ∈ map fst plan -> is_Some (plan_lookup plan k).
Proof.
  induction plan as [|[k' c] rest IH]; cbn; [now intros ?%elem_of_nil|].
  intros [->|Hk]%elem_of_cons.
  - destruct (plan_lookup rest k'); [eauto|].
    destruct (decide (k' = k')); [eauto|congruence].
  - destruct (IH Hk) as [c' ->]. eauto.
Qed.

Lemma plan_lookup_none plan k :
  k ∉ map fst plan -> plan_lookup plan k = None.
Proof.
  induction plan as [|[k' c] rest IH]; cbn; [reflexivity|].
  intros Hk. apply not_elem_of_cons in Hk as [Hne Hk].
  rewrite (IH Hk). destruct (decide (k' = k)); congruence.
Qed.

(** X11. What a strategy writes depends on the prices alone.  Run on
    two frames that have the same [Close] column and as many rows,
    whatever else they hold and however they are labelled, it returns
    on both, writes equal columns into both, and leaves the index and
    every column it does not assign as they were. *)
Theorem strategy_columns_depend_on_close_only s params (σ1 σ2 : store)
    d1 d2 df1 df2 close :
  σ1 !! d1 = Some df1 -> σ2 !! d2 = Some df2 ->
  columns df1 !! "Close" = Some close ->
  columns df2 !! "Close" = Some close ->
  length (index df1) = length (index df2) ->
  valid_params s params ->
  exists df1' df2',
    execute_strategy (strategy_id s) d1 params σ1 = Ret d1 (<[d1 := df1']> σ1) /\
    execute_strategy (strategy_id s) d2 params σ2 = Ret d2 (<[d2 := df2']> σ2) /\
    index df1' = index df1 /\ index df2' = index df2 /\
    (forall k, k ∈ writes_of s ->
       is_Some (columns df1' !! k) /\ columns df1' !! k = columns df2' !! k) /\
    (forall k, k ∉ writes_of s ->
       columns df1' !! k = columns df1 !! k /\
       columns df2' !! k = columns df2 !! k).
Proof.
  intros H1 H2 Hc1 Hc2 Hn Hv. do 2 eexists.
  split; [exact (execute_strategy_plan _ _ _ _ _ _ H1 Hc1 Hv)|].
  split; [exact (execute_strategy_plan _ _ _ _ _ _ H2 Hc2 Hv)|].
  split; [apply index_write_all|]. split; [apply index_write_all|].
  split.
  - intros k Hk. rewrite !lookup_write_all, <- Hn.
    rewrite <- (writes_of_plan s params close (length (index df1))) in Hk.
    destruct (plan_lookup_some _ _ Hk) as [c ->]. eauto.
  - intros k Hk. rewrite !lookup_write_all, <- Hn.
    rewrite <- (writes_of_plan s params close (length (index df1))) in Hk.
    now rewrite (plan_lookup_none _ _ Hk).
Qed.

Lemma strategy_columns_depend_on_close_only_witness :
  exists df1' df2',
    execute_strategy "momentum" 0 None (<[0 := rising_prices]> ∅)
      = Ret 0 (<[0 := df1']> (<[0 := rising_prices]> ∅)) /\
    execute_strategy "momentum" 0 None (<[0 := relabelled_prices]> ∅)
      = Ret 0 (<[0 := df2']> (<[0 := relabelled_prices]> ∅)) /\
    columns df1' !! "signal" = columns df2' !! "signal".
Proof.
  destruct (strategy_columns_depend_on_close_only Momentum None
              (<[0 := rising_prices]> ∅) (<[0 := relabelled_prices]> ∅)
              0 0 rising_prices relabelled_prices
              [10; 11; 12; 13; 14; 15]%float)
    as (df1' & df2' & Hrun1 & Hrun2 & _ & _ & Hw & _).
  - reflexivity.
  - reflexivity.
  - reflexivity.
  - reflexivity.
  - reflexivity.
  - apply valid_params_default.
  - exists df1', df2'. split; [exact Hrun1|]. split; [exact Hrun2|].
    apply Hw. unfold writes_of, mo_writes. solve_elem.
Defined.

(** X12. Calling a strategy a second time with the same parameters changes
    nothing: the store after the second call is the store after the
    first. *)
Theorem strategy_call_is_idempotent s params (σ : store) data df close :
  σ !! data = Some df ->
  columns df !! "Close" = Some close ->
  valid_params s params ->
  exists σ1,
    execute_strategy (strategy_id s) data params σ = Ret data σ1 /\
    execute_strategy (strategy_id s) data params σ1 = Ret data σ1.
Proof.
  intros Hσ Hc Hv. eexists.
  split; [exact (execute_strategy_plan _ _ _ _ _ _ Hσ Hc Hv)|].
  set (df1 := write_all _ df).
  assert (Hc1 : columns df1 !! "Close" = Some close).
  { unfold df1. now rewrite lookup_write_all, plan_lookup_close. }
  rewrite (execute_strategy_plan s params _ data df1 close
             (lookup_insert_eq _ _ _) Hc1 Hv).
  subst df1. f_equal. rewrite insert_insert_eq, index_write_all. f_equal.
  apply write_all_idempotent.
Qed.

Lemma strategy_call_is_idempotent_witness :
  exists σ1,
    execute_strategy "bollinger-bands" 0 (Some short_band)
      (<[0 := rising_prices]> ∅) = Ret 0 σ1 /\
    execute_strategy "bollinger-bands" 0 (Some short_band) σ1 = Ret 0 σ1.
Proof.
  apply (strategy_call_is_idempotent BollingerBands (Some short_band)
           (<[0 := rising_prices]> ∅) 0 rising_prices
           [10; 11; 12; 13; 14; 15]%float).
  - reflexivity.
  - reflexivity.
  - exists 3. vm_compute. reflexivity.
Defined.

(** X13. A strategy is not disturbed by one that ran before it on the same
    frame: after [a] and then [b], every column [b] assigns (its
    [signal] and [position] among them) holds what a run of [b] alone
    on the original frame puts there, whatever [a] left behind. *)
Theorem later_strategy_ignores_earlier_columns a pa b pb (σ : store) data df close :
  σ !! data = Some df ->
  columns df !! "Close" = Some close ->
  valid_params a pa -> valid_params b pb ->
  exists σ1 σ2 σb df2 dfb,
    execute_strategy (strategy_id a) data pa σ = Ret data σ1 /\
    execute_strategy (strategy_id b) data pb σ1 = Ret data σ2 /\
    σ2 !! data = Some df2 /\
    execute_strategy (strategy_id b) data pb σ = Ret data σb /\
    σb !! data = Some dfb /\
    forall k, k ∈ writes_of b ->
      is_Some (columns dfb !! k) /\ columns df2 !! k = columns dfb !! k.
Proof.
  intros Hσ Hc Ha Hb. do 5 eexists.
  split; [exact (execute_strategy_plan _ _ _ _ _ _ Hσ Hc Ha)|].
  set (df1 := write_all _ df).
  assert (Hc1 : columns df1 !! "Close" = Some close).
  { unfold df1. now rewrite lookup_write_all, plan_lookup_close. }
  split; [exact (execute_strategy_plan b pb _ data df1 close
                   (lookup_insert_eq _ _ _) Hc1 Hb)|].
  split; [apply lookup_insert_eq|].
  split; [exact (execute_strategy_plan _ _ _ _ _ _ Hσ Hc Hb)|].
  split; [apply lookup_insert_eq|].
  intros k Hk. subst df1. rewrite !lookup_write_all, index_write_all.
  rewrite <- (writes_of_plan b pb close (length (index df))) in Hk.
  destruct (plan_lookup_some _ _ Hk) as [c ->]. eauto.
Qed.

Lemma later_strategy_ignores_earlier_columns_witness :
  exists σ1 σ2 σb df2 dfb,
    execute_strategy "moving-average-crossover" 0 (Some short_windows)
      (<[0 := rising_prices]> ∅) = Ret 0 σ1 /\
    execute_strategy "bollinger-bands" 0 (Some short_band) σ1 = Ret 0 σ2 /\
    σ2 !! 0 = Some df2 /\
    execute_strategy "bollinger-bands" 0 (Some short_band)
      (<[0 := rising_prices]> ∅) = Ret 0 σb /\
    σb !! 0 = Some dfb /\
    columns df2 !! "signal" = columns dfb !! "signal".
Proof.
  destruct (later_strategy_ignores_earlier_columns
              MovingAverageCrossover (Some short_windows)
              BollingerBands (Some short_band)
              (<[0 := rising_prices]> ∅) 0 rising_prices
              [10; 11; 12; 13; 14; 15]%float)
    as (σ1 & σ2 & σb & df2 & dfb & H1 & H2 & H3 & H4 & H5 & Hk).
  - reflexivity.
  - reflexivity.
  - split; [exists 2 | exists 3]; vm_compute; reflexivity.
  - exists 3. vm_compute. reflexivity.
  - exists σ1, σ2, σb, df2, dfb. repeat split; try assumption.
    apply Hk. unfold writes_of, bb_writes. solve_elem.
Defined.

(** *** Missing prices and rejected parameters *)

Lemma run_col_none {A : Type} k (f : list float -> M DataFrame A) df :
  columns df !! k = None -> (col k ≫= f) df = Raise KeyError df.
Proof. intros H. unfold mbind, M_bind, bind, col. now rewrite H. Qed.

Lemma body_without_close s params df :
  columns df !! "Close" = None -> body_of s params df = Raise KeyError df.
Proof.
  intros Hc.
  destruct s; cbn [body_of];
    unfold moving_average_crossover_body, mean_reversion_body, momentum_body,
      bollinger_bands_body, rsi_divergence_body, macd_crossover_body,
      bollinger_columns, rsi_column; cbv zeta;
    rewrite ?run_assoc; now rewrite run_col_none.
Qed.

(** X14. On a frame without a [Close] column every strategy raises
    [KeyError] and leaves the store as it was. *)
Theorem strategy_without_close_raises s params (σ : store) data df :
  σ !! data = Some df ->
  columns df !! "Close" = None ->
  execute_strategy (strategy_id s) data params σ = Raise KeyError σ.
Proof.
  intros Hσ Hc. unfold execute_strategy.
  rewrite lookup_strategy_method, method_body.
  unfold returning_data, mbind, M_bind, bind, on_frame.
  rewrite Hσ, (body_without_close s params df Hc).
  now rewrite (insert_id _ _ _ Hσ).
Qed.

Lemma strategy_without_close_raises_witness :
  execute_strategy "momentum" 0 None (<[0 := mkFrame [1; 2]%Z ∅]> ∅)
  = Raise KeyError (<[0 := mkFrame [1; 2]%Z ∅]> ∅).
Proof.
  apply (strategy_without_close_raises Momentum None _ 0 (mkFrame [1; 2]%Z ∅)).
  - reflexivity.
  - reflexivity.
Defined.

Lemma as_window_err v e : as_window v = Err e -> e = ValueError.
Proof.
  destruct v as [z|f]; cbn; [destruct (0 <=? z)%Z|]; congruence.
Qed.

(** X15. The crossover validates its windows one at a time.  A rejected
    fast window raises [ValueError] before anything is written; a
    rejected slow window raises it after [fast_ma] has been added, and
    the frame keeps that column, one entry per price, with nothing
    else changed. *)
Theorem crossover_rejected_window params (σ : store) data df close :
  σ !! data = Some df ->
  columns df !! "Close" = Some close ->
  (forall e, as_window (ma_fast_period params) = Err e ->
     moving_average_crossover data params σ = Raise ValueError σ) /\
  (forall fw e,
     as_window (ma_fast_period params) = Ok fw ->
     as_window (ma_slow_period params) = Err e ->
     exists fast_ma,
       length fast_ma = length close /\
       moving_average_crossover data params σ
       = Raise ValueError (<[data := set_col df "fast_ma" fast_ma]> σ)).
Proof.
  intros Hσ Hc. split.
  - intros e He. pose proof (as_window_err _ _ He) as ->.
    unfold moving_average_crossover, returning_data, mbind, M_bind, bind, on_frame.
    rewrite Hσ. unfold moving_average_crossover_body. cbv zeta.
    rewrite (run_col _ _ _ _ Hc).
    unfold mbind, M_bind, bind. rewrite He. cbn.
    now rewrite (insert_id _ _ _ Hσ).
  - intros fw e Hf He. pose proof (as_window_err _ _ He) as ->.
    exists (Pd.rolling_mean fw close). split; [apply length_rolling_mean|].
    unfold moving_average_crossover, returning_data, mbind, M_bind, bind, on_frame.
    rewrite Hσ. unfold moving_average_crossover_body. cbv zeta.
    rewrite (run_col _ _ _ _ Hc). erewrite run_lift by exact Hf.
    rewrite run_assign. erewrite run_col by solve_lookup.
    unfold mbind, M_bind, bind. rewrite He. cbn. reflexivity.
Qed.

Lemma crossover_rejected_window_witness :
  exists fast_ma,
    length fast_ma = 6 /\
    moving_average_crossover 0
      (Some (<["fast_period" := PInt 2]> (<["slow_period" := PInt (-3)]> ∅)))
      (<[0 := rising_prices]> ∅)
    = Raise ValueError
        (<[0 := set_col rising_prices "fast_ma" fast_ma]>
           (<[0 := rising_prices]> ∅)).
Proof.
  destruct (crossover_rejected_window
              (Some (<["fast_period" := PInt 2]> (<["slow_period" := PInt (-3)]> ∅)))
              (<[0 := rising_prices]> ∅) 0 rising_prices
              [10; 11; 12; 13; 14; 15]%float) as [_ H].
  - reflexivity.
  - reflexivity.
  - apply (H 2 ValueError); vm_compute; reflexivity.
Defined.

(** *** Shape of the written columns *)

Lemma length_ewm_from alpha prev s : length (Pd.ewm_from alpha prev s) = length s.
Proof.
  revert prev. induction s as [|x t IH]; intros prev; cbn; [easy|].
  now rewrite IH.
Qed.

Lemma length_ewm_mean span s : length (Pd.ewm_mean span s) = length s.
Proof. destruct s; cbn; [easy|]. now rewrite length_ewm_from. Qed.

Ltac len :=
  unfold band_upper, band_lower, band_middle, band_std, macd_signal_line,
    macd_line, rsi, two_sided, Pd.loc_assign, Pd.band,
    Pd.lt, Pd.gt, Pd.le, Pd.ge, Pd.lt_scalar, Pd.gt_scalar, Pd.le_scalar,
    Pd.ge_scalar, Pd.add, Pd.sub, Pd.div, Pd.mul_scalar, Pd.diff,
    Pd.pct_change, Pd.where_pos, Pd.where_neg, Pd.neg, Pd.shift,
    Pd.rolling_mean, Pd.rolling_std;
  cbv zeta;
  repeat first
    [ rewrite length_zip_with | rewrite length_imap | rewrite length_map
    | rewrite length_replicate | rewrite length_ewm_mean ];
  lia.

Lemma plan_lookup_in plan k c : plan_lookup plan k = Some c -> In (k, c) plan.
Proof.
  induction plan as [|[k' c'] rest IH]; cbn; [easy|].
  destruct (plan_lookup rest k) as [c''|].
  - intros [= ->]. right. now apply IH.
  - destruct (decide (k' = k)) as [->|]; [|easy].
    intros [= ->]. now left.
Qed.

Lemma columns_of_length s params close n :
  length close = n ->
  Forall (fun kc => length (snd kc) = n) (columns_of s params close n).
Proof.
  intros Hn.
  destruct s; cbn [columns_of];
    unfold ma_columns, mr_columns, mo_columns, bb_columns, rd_columns,
      macd_columns, ma_signal, mr_signal, mo_signal, bb_signal, rd_signal,
      macd_signal_column;
    cbv zeta; repeat constructor; cbn [snd]; len.
Qed.

Lemma loc_assign_forall (P : float -> Prop) mask col v :
  P v -> Forall P col -> Forall P (Pd.loc_assign mask col v).
Proof.
  intros Hv Hc. revert mask.
  induction Hc as [|x col Hx Hc IH]; intros [|m mask]; cbn; try constructor.
  - now destruct m.
  - apply IH.
Qed.

Lemma two_sided_is_signal n buy sell : Forall is_signal (two_sided n buy sell).
Proof.
  unfold two_sided.
  apply loc_assign_forall; [now left|].
  apply loc_assign_forall; [now right; right|].
  apply Forall_forall. intros x Hx.
  apply elem_of_replicate in Hx as [-> _]. now right; left.
Qed.

Lemma signal_of_is_signal s params close n :
  Forall is_signal (signal_of s params close n).
Proof. destruct s; apply two_sided_is_signal. Qed.

Lemma plan_lookup_signal s params close n :
  plan_lookup (columns_of s params close n) "signal"
  = Some (signal_of s params close n).
Proof. now destruct s. Qed.

Lemma plan_lookup_position s params close n :
  plan_lookup (columns_of s params close n) "position"
  = Some (Pd.diff (signal_of s params close n)).
Proof. now destruct s. Qed.

Lemma write_all_wf plan df :
  wf_frame df ->
  Forall (fun kc => length (snd kc) = length (index df)) plan ->
  wf_frame (write_all plan df).
Proof.
  intros Hwf Hplan k c. rewrite lookup_write_all, index_write_all.
  destruct (plan_lookup plan k) as [c'|] eqn:Hk.
  - intros [= <-]. apply plan_lookup_in in Hk.
    rewrite List.Forall_forall in Hplan.
    now apply (Hplan (k, c')).
  - apply Hwf.
Qed.

(** X16. A strategy keeps a rectangular frame rectangular, and its [signal]
    column has one entry per row, each of them -1, 0 or 1. *)
Theorem strategy_signal_shape s params (σ : store) data df close :
  σ !! data = Some df ->
  columns df !! "Close" = Some close ->
  wf_frame df ->
  valid_params s params ->
  exists df' signal,
    execute_strategy (strategy_id s) data params σ = Ret data (<[data := df']> σ) /\
    wf_frame df' /\
    columns df' !! "signal" = Some signal /\
    length signal = length (index df) /\
    Forall is_signal signal.
Proof.
  intros Hσ Hc Hwf Hv.
  pose proof (Hwf _ _ Hc) as Hn.
  pose proof (columns_of_length s params close _ Hn) as Hlen.
  do 2 eexists.
  split; [exact (execute_strategy_plan _ _ _ _ _ _ Hσ Hc Hv)|].
  split; [now apply write_all_wf|].
  split; [now rewrite lookup_write_all, plan_lookup_signal|].
  split.
  - rewrite List.Forall_forall in Hlen.
    apply (Hlen ("signal", signal_of s params close (length (index df)))).
    apply plan_lookup_in, plan_lookup_signal.
  - apply signal_of_is_signal.
Qed.

Lemma rising_prices_wf : wf_frame rising_prices.
Proof.
  intros k c. unfold rising_prices. cbn.
  repeat (rewrite lookup_insert; case_decide;
          [intros [= <-]; reflexivity|]).
  now rewrite lookup_empty.
Qed.

Lemma strategy_signal_shape_witness :
  exists df' signal,
    execute_strategy "macd-crossover" 0 None (<[0 := rising_prices]> ∅)
      = Ret 0 (<[0 := df']> (<[0 := rising_prices]> ∅)) /\
    columns df' !! "signal" = Some signal /\
    length signal = 6.
Proof.
  destruct (strategy_signal_shape MacdCrossover None
              (<[0 := rising_prices]> ∅) 0 rising_prices
              [10; 11; 12; 13; 14; 15]%float)
    as (df' & signal & Hrun & _ & Hsig & Hlen & _).
  - reflexivity.
  - reflexivity.
  - exact rising_prices_wf.
  - apply valid_params_default.
  - exists df', signal. repeat split; assumption.
Defined.

Lemma lookup_shift_one_0 (s : list float) x :
  s !! 0 = Some x -> Pd.shift 1 s !! 0 = Some nan.
Proof.
  intros H. unfold Pd.shift. rewrite list_lookup_imap, H. reflexivity.
Qed.

Lemma lookup_shift_one_S (s : list float) i x y :
  s !! i = Some x -> s !! S i = Some y -> Pd.shift 1 s !! S i = Some x.
Proof.
  intros Hx Hy. unfold Pd.shift. rewrite list_lookup_imap, Hy. cbn [fmap option_fmap option_map].
  cbv zeta.
  replace (Z.of_nat (S i) - 1)%Z with (Z.of_nat i) by lia.
  destruct (Z.leb_spec 0 (Z.of_nat i)); [|lia].
  now rewrite Nat2Z.id, Hx.
Qed.

(** X17. The [position] column is the bar-to-bar change of the final
    [signal] column: undefined (NaN) on the first row, and
    [signal[i+1] - signal[i]] on every later one. *)
Theorem position_is_signal_change s params (σ : store) data df close :
  σ !! data = Some df ->
  columns df !! "Close" = Some close ->
  valid_params s params ->
  exists df' signal position,
    execute_strategy (strategy_id s) data params σ = Ret data (<[data := df']> σ) /\
    columns df' !! "signal" = Some signal /\
    columns df' !! "position" = Some position /\
    (forall x, signal !! 0 = Some x ->
       exists p, position !! 0 = Some p /\ is_nan p = true) /\
    (forall i x y, signal !! i = Some x -> signal !! S i = Some y ->
       position !! S i = Some (y - x)%float).
Proof.
  intros Hσ Hc Hv. do 3 eexists.
  split; [exact (execute_strategy_plan _ _ _ _ _ _ Hσ Hc Hv)|].
  split; [now rewrite lookup_write_all, plan_lookup_signal|].
  split; [now rewrite lookup_write_all, plan_lookup_position|].
  split.
  - intros x Hx. exists (x - nan)%float. split.
    + unfold Pd.diff. rewrite lookup_zip_with, Hx.
      now rewrite (lookup_shift_one_0 _ _ Hx).
    + apply sub_nan_r. reflexivity.
  - intros i x y Hx Hy. unfold Pd.diff.
    rewrite lookup_zip_with, Hy.
    now rewrite (lookup_shift_one_S _ _ _ _ Hx Hy).
Qed.

Lemma position_is_signal_change_witness :
  exists df' signal position,
    execute_strategy "momentum" 0 (Some (<["lookback_period" := PInt 1]> ∅))
      (<[0 := rising_prices]> ∅)
      = Ret 0 (<[0 := df']> (<[0 := rising_prices]> ∅)) /\
    columns df' !! "signal" = Some signal /\
    columns df' !! "position" = Some position /\
    (forall i x y, signal !! i = Some x -> signal !! S i = Some y ->
       position !! S i = Some (y - x)%float).
Proof.
  destruct (position_is_signal_change Momentum
              (Some (<["lookback_period" := PInt 1]> ∅))
              (<[0 := rising_prices]> ∅) 0 rising_prices
              [10; 11; 12; 13; 14; 15]%float)
    as (df' & signal & position & Hrun & Hsig & Hpos & _ & Hstep).
  - reflexivity.
  - reflexivity.
  - exists 1%Z. vm_compute. reflexivity.
  - exists df', signal, position. repeat split; assumption.
Defined.

(** *** A strategy's frame in the backtest *)

Lemma bind_Err {A B : Type} (m : result A) (f : A -> result B) (e : exn) :
  m ≫= f = Err e -> m = Err e \/ exists a, m = Ok a /\ f a = Err e.
Proof.
  destruct m as [a|e']; cbn; intros H; [right; eauto | left; now injection H as ->].
Qed.

Lemma py_int_err x e : F.py_int x = Err e -> e = OverflowError \/ e = ValueError.
Proof.
  unfold F.py_int. destruct (Prim2SF x); intros [=]; subst; auto.
Qed.

Lemma trade_step_err commission slippage date price sig st e :
  trade_step commission slippage date price sig st = Err e ->
  e = OverflowError \/ e = ValueError.
Proof.
  unfold trade_step.
  destruct ((sig =? 1)%float && (shares st =? 0)%Z).
  - intros [H|(n & _ & H)]%bind_Err; [now apply py_int_err in H|].
    now destruct (0 <? n)%Z.
  - now destruct ((sig =? -1)%float && (0 <? shares st)%Z).
Qed.

Lemma getitem_present df i row k (c : list float) :
  iloc df i = Ok row -> columns df !! k = Some c ->
  length c = length (index df) ->
  exists v, getitem row k = Ok v.
Proof.
  unfold iloc, getitem.
  destruct (index df !! i) as [d|] eqn:Hd; [|discriminate].
  intros [= <-] Hc Hlen. cbn. rewrite lookup_omap, Hc. cbn.
  apply lookup_lt_Some in Hd. rewrite <- Hlen in Hd.
  apply lookup_lt_is_Some in Hd as [v ->]. eauto.
Qed.

Lemma bar_step_err commission slippage fr (close sig : list float) st i e :
  wf_frame fr ->
  columns fr !! "Close" = Some close -> columns fr !! "signal" = Some sig ->
  i < length (index fr) ->
  bar_step commission slippage fr st i = Err e ->
  e = OverflowError \/ e = ValueError.
Proof.
  intros Hwf Hc Hs Hi. unfold bar_step.
  destruct (iloc fr i) as [row|e'] eqn:Hrow.
  2:{ unfold iloc in Hrow. apply lookup_lt_is_Some in Hi as [d Hd].
      now rewrite Hd in Hrow. }
  destruct (getitem_present fr i row "Close" close Hrow Hc (Hwf _ _ Hc)) as [p Hp].
  destruct (getitem_present fr i row "signal" sig Hrow Hs (Hwf _ _ Hs)) as [v Hv].
  cbn. rewrite Hp. cbn. rewrite Hv. cbn.
  intros [H|(st1 & _ & H)]%bind_Err; [|discriminate].
  now apply trade_step_err in H.
Qed.

Lemma run_bars_err commission slippage fr (close sig : list float) idxs :
  wf_frame fr ->
  columns fr !! "Close" = Some close -> columns fr !! "signal" = Some sig ->
  Forall (fun i => i < length (index fr)) idxs ->
  forall st e,
    run_bars commission slippage fr st idxs = Err e ->
    e = OverflowError \/ e = ValueError.
Proof.
  intros Hwf Hc Hs Hall.
  induction Hall as [|i idxs Hi Hall IH]; intros st e; cbn; [discriminate|].
  intros [H|(st1 & _ & H)]%bind_Err.
  - eapply bar_step_err; eauto.
  - eapply IH; eauto.
Qed.

Lemma iloc_last_nonempty {A : Type} (l : list A) :
  l <> [] -> exists x, iloc_last l = Ok x.
Proof.
  intros Hl. unfold iloc_last.
  destruct (last l) as [x|] eqn:Hx; [eauto|].
  now apply last_None in Hx.
Qed.

Lemma liquidate_err commission slippage fr (close : list float) st e :
  wf_frame fr ->
  columns fr !! "Close" = Some close ->
  index fr <> [] ->
  liquidate commission slippage fr st = Err e -> False.
Proof.
  intros Hwf Hc Hne. unfold liquidate.
  destruct (0 <? shares st)%Z; [|discriminate].
  unfold getcol. rewrite Hc. cbn.
  assert (Hcl : close <> []).
  { intros ->. apply Hwf in Hc. destruct (index fr); [easy|discriminate]. }
  destruct (iloc_last_nonempty close Hcl) as [p ->].
  destruct (iloc_last_nonempty (index fr) Hne) as [d ->].
  discriminate.
Qed.

Lemma drawdown_nonempty eq : eq <> [] -> drawdown eq <> [].
Proof. destruct eq; [easy|]. discriminate. Qed.

Lemma cpm_err eq tr pos cfg e :
  eq <> [] ->
  calculate_performance_metrics eq tr pos cfg = Err e -> e = ZeroDivisionError.
Proof.
  intros Hne. unfold calculate_performance_metrics.
  destruct (iloc_last_nonempty eq Hne) as [fc ->]. cbn.
  unfold total_return_of.
  destruct ((length eq =? 1)%nat && _); cbn; [now intros [= <-]|].
  pose proof (drawdown_nonempty eq Hne) as Hd.
  destruct (drawdown eq); [easy|]. discriminate.
Qed.

Lemma backtest_failures fr (close sig : list float) config e :
  wf_frame fr ->
  columns fr !! "Close" = Some close -> columns fr !! "signal" = Some sig ->
  execute_backtest fr fr config = Err e -> numeric_error e.
Proof.
  intros Hwf Hc Hs. unfold execute_backtest, numeric_error. cbv zeta.
  intros [H|(st & Hrun & H)]%bind_Err.
  { eapply run_bars_err in H; eauto; [tauto|].
    apply List.Forall_forall. intros i Hi. apply in_seq in Hi. lia. }
  apply bind_Err in H as [H|(st' & Hliq & H)].
  - destruct (index fr) as [|d idx] eqn:Hidx.
    + cbn in Hrun. injection Hrun as <-. discriminate.
    + exfalso. eapply liquidate_err; eauto. now rewrite Hidx.
  - apply cpm_err in H; [tauto|].
    apply liquidate_inv in Hliq as (-> & _).
    apply run_equity in Hrun as (tail & -> & _). cbn. discriminate.
Qed.

(** X18. The frame a strategy returns can be handed to the backtest as both
    price data and signals: every column the backtest reads is there,
    so the run cannot fail with a missing column or row.  What can
    still go wrong is numeric: [int()] rejecting a non-finite share
    count, or the division by a zero initial capital. *)
Theorem strategy_frame_backtests s params (σ : store) data df close config :
  σ !! data = Some df ->
  columns df !! "Close" = Some close ->
  wf_frame df ->
  valid_params s params ->
  exists df',
    execute_strategy (strategy_id s) data params σ = Ret data (<[data := df']> σ) /\
    forall e, execute_backtest df' df' config = Err e -> numeric_error e.
Proof.
  intros Hσ Hc Hwf Hv.
  pose proof (Hwf _ _ Hc) as Hn.
  eexists. split; [exact (execute_strategy_plan _ _ _ _ _ _ Hσ Hc Hv)|].
  intros e. eapply backtest_failures.
  - apply write_all_wf; [exact Hwf|]. now apply columns_of_length.
  - rewrite lookup_write_all, plan_lookup_close. exact Hc.
  - rewrite lookup_write_all, plan_lookup_signal. reflexivity.
Qed.

Lemma strategy_frame_backtests_witness :
  exists df',
    execute_strategy "momentum" 0 None (<[0 := rising_prices]> ∅)
      = Ret 0 (<[0 := df']> (<[0 := rising_prices]> ∅)) /\
    forall e, execute_backtest df' df' None = Err e -> numeric_error e.
Proof.
  apply (strategy_frame_backtests Momentum None (<[0 := rising_prices]> ∅) 0
           rising_prices [10; 11; 12; 13; 14; 15]%float None).
  - reflexivity.
  - reflexivity.
  - exact rising_prices_wf.
  - apply valid_params_default.
Defined.

(** *** The catalogue and the registry *)

Lemma execute_strategy_body s data p1 p2 (σ : store) :
  body_of s p1 = body_of s p2 ->
  execute_strategy (strategy_id s) data p1 σ
  = execute_strategy (strategy_id s) data p2 σ.
Proof.
  intros Hb. unfold execute_strategy.
  rewrite lookup_strategy_method, method_body.
  unfold returning_data. now rewrite Hb.
Qed.

(** X19. The catalogue advertises exactly the strategies that can be run:
    an identifier is listed by [get_available_strategies] if and only
    if [execute_strategy] finds it in the registry. *)
Theorem catalogue_matches_registry (name : string) :
  In name (map i_id get_available_strategies) <-> is_Some (lookup_strategy name).
Proof.
  split.
  - intros H. apply strategies_known. unfold strategy_ids.
    cbn in H. repeat (destruct H as [<-|H]; [set_solver|]). destruct H.
  - intros H. destruct (decide (name ∈ strategy_ids)) as [Hin|Hout].
    + unfold strategy_ids in Hin. cbn.
      repeat (apply elem_of_cons in Hin as [->|Hin]; [tauto|]).
      now apply elem_of_nil in Hin.
    + apply strategies_unknown in Hout. rewrite Hout in H.
      now destruct H.
Qed.

Lemma pget_insert_same (params : Params) k d :
  params !! k = None -> pget (<[k := d]> params) k d = pget params k d.
Proof. intros H. unfold pget. now rewrite lookup_insert_eq, H. Qed.

Lemma pget_insert_other (params : Params) k k' d d' :
  k <> k' -> pget (<[k := d]> params) k' d' = pget params k' d'.
Proof. intros H. unfold pget. now rewrite lookup_insert_ne. Qed.

Ltac same_params Hk :=
  cbn [body_of];
  unfold moving_average_crossover_body, mean_reversion_body, momentum_body,
    bollinger_bands_body, rsi_divergence_body, macd_crossover_body,
    ma_fast_period, ma_slow_period,
    mr_bb_period, mr_bb_std, mr_rsi_period, mr_rsi_overbought, mr_rsi_oversold,
    mo_lookback_period, mo_threshold, bb_period, bb_std,
    rd_period, rd_divergence_period, macd_fast, macd_slow, macd_signal;
  cbn [default from_option a_default]; unfold id;
  rewrite ?(pget_insert_same _ _ _ Hk);
  rewrite ?pget_insert_other by discriminate;
  reflexivity.

(** X20. A parameter left out of [params] takes the default the catalogue
    advertises for it: adding that default to the dictionary by hand
    changes nothing in the run. *)
Theorem omitted_parameter_takes_catalogue_default s k d (params : Params)
    data (σ : store) :
  catalogue_default s k d ->
  params !! k = None ->
  execute_strategy (strategy_id s) data (Some params) σ
  = execute_strategy (strategy_id s) data (Some (<[k := d]> params)) σ.
Proof.
  intros (info & a & Hinfo & Hid & Hk & <-) Hnone.
  apply execute_strategy_body.
  cbn in Hinfo.
  repeat (destruct Hinfo as [<-|Hinfo];
          [destruct s; cbn in Hid; try discriminate Hid; cbn in Hk;
           repeat (destruct Hk as [[= <- <-]|Hk]; [same_params Hnone|]);
           destruct Hk|]).
  destruct Hinfo.
Qed.

Lemma omitted_parameter_takes_catalogue_default_witness :
  execute_strategy "momentum" 0 (Some ∅) (<[0 := rising_prices]> ∅)
  = execute_strategy "momentum" 0 (Some (<["threshold" := PFloat 0.05]> ∅))
      (<[0 := rising_prices]> ∅).
Proof.
  apply (omitted_parameter_takes_catalogue_default Momentum "threshold"
           (PFloat 0.05) ∅ 0 (<[0 := rising_prices]> ∅)).
  - eexists _, _. split; [right; right; left; reflexivity|].
    split; [reflexivity|]. split; [right; left; reflexivity|reflexivity].
  - reflexivity.
Defined.

Lemma pget_defaults (defaults : Params) k d :
  defaults !! k = Some d -> pget defaults k d = pget ∅ k d.
Proof. intros H. unfold pget. now rewrite H, lookup_empty. Qed.

(** X21. Calling a strategy without parameters is the same as calling it
    with an empty dictionary: the dictionary substituted for [None]
    holds the very values the [get] fallbacks supply. *)
Theorem no_params_is_empty_params s data (σ : store) :
  execute_strategy (strategy_id s) data None σ
  = execute_strategy (strategy_id s) data (Some ∅) σ.
Proof.
  apply execute_strategy_body.
  destruct s; cbn [body_of];
    unfold moving_average_crossover_body, mean_reversion_body, momentum_body,
      bollinger_bands_body, rsi_divergence_body, macd_crossover_body,
      ma_fast_period, ma_slow_period,
      mr_bb_period, mr_bb_std, mr_rsi_period, mr_rsi_overbought, mr_rsi_oversold,
      mo_lookback_period, mo_threshold, bb_period, bb_std,
      rd_period, rd_divergence_period, macd_fast, macd_slow, macd_signal;
    cbn [default from_option]; unfold id;
    rewrite !pget_defaults by reflexivity; reflexivity.
Qed.

(** *** Data preparation *)

Lemma insert_by_label_perm p l : Permutation (insert_by_label p l) (p :: l).
Proof.
  induction l as [|q t IH]; cbn; [reflexivity|].
  destruct (fst p <=? fst q)%Z; [reflexivity|].
  rewrite IH. apply perm_swap.
Qed.

Lemma sort_by_label_perm l : Permutation (sort_by_label l) l.
Proof.
  induction l as [|p t IH]; cbn; [reflexivity|].
  rewrite insert_by_label_perm. now constructor.
Qed.

Lemma insert_by_label_sorted p l :
  Sorted (fun a b => (fst a <= fst b)%Z) l ->
  Sorted (fun a b => (fst a <= fst b)%Z) (insert_by_label p l).
Proof.
  induction 1 as [|q t Hs IH Hhd]; cbn; [repeat constructor|].
  destruct (Z.leb_spec (fst p) (fst q)) as [Hle|Hgt].
  - constructor; [now constructor|]. now constructor.
  - constructor; [exact IH|].
    destruct t as [|q' t']; cbn.
    + constructor. lia.
    + destruct (fst p <=? fst q')%Z; constructor; [lia|].
      now inversion Hhd.
Qed.

Lemma sort_by_label_sorted l :
  Sorted (fun a b => (fst a <= fst b)%Z) (sort_by_label l).
Proof.
  induction l as [|p t IH]; cbn; [constructor|].
  now apply insert_by_label_sorted.
Qed.

Lemma sorted_labels (l : list (Z * nat)) :
  Sorted (fun a b => (fst a <= fst b)%Z) l -> Sorted Z.le (map fst l).
Proof.
  induction 1 as [|q t Hs IH Hhd]; cbn; constructor; [exact IH|].
  destruct Hhd; cbn; now constructor.
Qed.

Lemma zip_positions (idx : list Z) : forall start,
  Forall (fun p => idx !! (snd p - start) = Some (fst p) /\ start <= snd p)
    (zip idx (seq start (length idx))).
Proof.
  induction idx as [|k t IH]; intros start; cbn; constructor.
  - cbn. now rewrite Nat.sub_diag.
  - eapply Forall_impl; [apply (IH (S start))|].
    intros [k' i] [Hk Hi]. cbn in *. split; [|lia].
    replace (i - start) with (S (i - S start)) by lia. exact Hk.
Qed.

Lemma take_at_labels (idx : list Z) (ps : list (Z * nat)) :
  Forall (fun p => idx !! snd p = Some (fst p)) ps ->
  take_at (map snd ps) idx = map fst ps.
Proof.
  unfold take_at. induction 1 as [|[k i] t Hp Ht IH]; cbn; [reflexivity|].
  cbn in Hp. now rewrite Hp, IH.
Qed.

Lemma fst_zip_seq (idx : list Z) start :
  map fst (zip idx (seq start (length idx))) = idx.
Proof.
  revert start. induction idx as [|k t IH]; intros start; cbn; [reflexivity|].
  now rewrite IH.
Qed.

Lemma snd_zip_seq (idx : list Z) start :
  map snd (zip idx (seq start (length idx))) = seq start (length idx).
Proof.
  revert start. induction idx as [|k t IH]; intros start; cbn; [reflexivity|].
  now rewrite IH.
Qed.

Lemma argsort_perm idx : Permutation (argsort idx) (seq 0 (length idx)).
Proof.
  unfold argsort.
  etransitivity; [apply Permutation_map, sort_by_label_perm|].
  now rewrite snd_zip_seq.
Qed.

Lemma take_at_argsort idx :
  take_at (argsort idx) idx
  = map fst (sort_by_label (zip idx (seq 0 (length idx)))).
Proof.
  unfold argsort. apply take_at_labels.
  pose proof (zip_positions idx 0) as Hz.
  rewrite <- (sort_by_label_perm (zip idx (seq 0 (length idx)))) in Hz.
  eapply Forall_impl; [exact Hz|].
  intros [k i] [Hk _]. cbn in *. now rewrite Nat.sub_0_r in Hk.
Qed.

Lemma sort_index_sorted df : Sorted Z.le (index (sort_index df)).
Proof.
  unfold sort_index. cbn. rewrite take_at_argsort.
  apply sorted_labels, sort_by_label_sorted.
Qed.

Lemma sort_index_perm df : Permutation (index (sort_index df)) (index df).
Proof.
  unfold sort_index. cbn. rewrite take_at_argsort.
  etransitivity; [apply Permutation_map, sort_by_label_perm|].
  now rewrite fst_zip_seq.
Qed.

Lemma length_take_at {A : Type} (order : list nat) (l : list A) :
  Forall (fun i => i < length l) order ->
  length (take_at order l) = length order.
Proof.
  unfold take_at. induction 1 as [|i t Hi Ht IH]; cbn; [reflexivity|].
  apply lookup_lt_is_Some in Hi as [x ->]. cbn. now rewrite IH.
Qed.

Lemma argsort_bounds idx : Forall (fun i => i < length idx) (argsort idx).
Proof.
  apply List.Forall_forall. intros i Hi.
  apply (Permutation_in _ (argsort_perm idx)) in Hi.
  apply in_seq in Hi. lia.
Qed.

Lemma sort_index_wf df : wf_frame df -> wf_frame (sort_index df).
Proof.
  intros Hwf k c. unfold sort_index. cbn. rewrite lookup_fmap.
  destruct (columns df !! k) as [c0|] eqn:Hk; [|discriminate].
  intros [= <-]. pose proof (Hwf _ _ Hk) as Hlen.
  rewrite !length_take_at; [reflexivity| |].
  - apply argsort_bounds.
  - rewrite Hlen. apply argsort_bounds.
Qed.

Lemma prepare_body_run log df (close volume : list float) :
  columns df !! "Close" = Some close ->
  columns df !! "Volume" = Some volume ->
  prepare_data_body log df
  = Ret tt (write_all
              [("returns", Pd.pct_change 1 close);
               ("log_returns", Pd.diff (map log close));
               ("volume_ma", Pd.rolling_mean 20 volume);
               ("volume_ratio", Pd.div volume (Pd.rolling_mean 20 volume))] df).
Proof.
  intros Hc Hv. unfold prepare_data_body. frame_run. reflexivity.
Qed.

Lemma fresh_ref (σ : store) : σ !! fresh (dom σ) = None.
Proof. apply not_elem_of_dom, is_fresh. Qed.

(** X22. [prepare_data] works on a sorted copy: whatever it returns or
    raises, every frame the caller holds is afterwards what it was
    before, and a returned reference is a new object. *)
Theorem prepare_data_leaves_callers_frames log (σ : store) data r df0 :
  σ !! r = Some df0 ->
  match prepare_data log data σ with
  | Ret sorted σ' => σ !! sorted = None /\ σ' !! r = Some df0
  | Raise _ σ' => σ' !! r = Some df0
  end.
Proof.
  intros Hr. unfold prepare_data, deref, alloc, mbind, M_bind, bind, on_frame.
  destruct (σ !! data) as [df|] eqn:Hd; [|exact Hr].
  rewrite (insert_id _ _ _ Hd). cbv zeta.
  pose proof (fresh_ref σ) as Hf.
  assert (Hne : fresh (dom σ) <> r) by (intros Heq; rewrite Heq in Hf; congruence).
  generalize dependent (fresh (dom σ)). intros sorted Hf Hne.
  rewrite lookup_insert_eq.
  destruct (prepare_data_body log (sort_index df)) as [[] df'|e df'];
    unfold mret, M_ret, ret;
    rewrite insert_insert_eq, lookup_insert_ne by exact Hne; auto.
Qed.

Lemma prepare_data_leaves_callers_frames_witness :
  match prepare_data (fun x => x) 0 (<[0 := unsorted_bars]> ∅) with
  | Ret sorted σ' =>
      (<[0 := unsorted_bars]> ∅ : store) !! sorted = None /\
      σ' !! 0 = Some unsorted_bars
  | Raise _ σ' => σ' !! 0 = Some unsorted_bars
  end.
Proof.
  apply (prepare_data_leaves_callers_frames (fun x => x)
           (<[0 := unsorted_bars]> ∅) 0 0 unsorted_bars).
  reflexivity.
Defined.

Lemma prepare_data_run log (σ : store) data df o :
  σ !! data = Some df ->
  prepare_data_body log (sort_index df) = o ->
  prepare_data log data σ
  = match o with
    | Ret _ df' => Ret (fresh (dom σ)) (<[fresh (dom σ) := df']> σ)
    | Raise e df' => Raise e (<[fresh (dom σ) := df']> σ)
    end.
Proof.
  intros Hd <-. unfold prepare_data, deref, alloc, mbind, M_bind, bind, on_frame.
  rewrite Hd, (insert_id _ _ _ Hd). cbv zeta.
  rewrite lookup_insert_eq.
  destruct (prepare_data_body log (sort_index df)) as [[] df'|e df'];
    unfold mret, M_ret, ret; now rewrite insert_insert_eq.
Qed.

Lemma sort_index_column df k :
  columns (sort_index df) !! k = take_at (argsort (index df)) <$> columns df !! k.
Proof. unfold sort_index. cbn. apply lookup_fmap. Qed.

(** X23. On a rectangular frame with [Close] and [Volume], [prepare_data]
    returns a new frame whose rows are the input's rows in ascending
    index order: one permutation reorders the index and every input
    column, the four derived columns are added, and the result is
    rectangular again. *)
Theorem prepare_data_sorts_rows log (σ : store) data df close volume :
  σ !! data = Some df ->
  columns df !! "Close" = Some close ->
  columns df !! "Volume" = Some volume ->
  wf_frame df ->
  exists sorted df' order,
    prepare_data log data σ = Ret sorted (<[sorted := df']> σ) /\
    Permutation order (seq 0 (length (index df))) /\
    index df' = take_at order (index df) /\
    Sorted Z.le (index df') /\
    (forall k, k ∉ prepared_columns ->
       columns df' !! k = take_at order <$> columns df !! k) /\
    wf_frame df'.
Proof.
  intros Hd Hc Hv Hwf.
  pose proof (sort_index_column df "Close") as Hc'. rewrite Hc in Hc'.
  pose proof (sort_index_column df "Volume") as Hv'. rewrite Hv in Hv'.
  pose proof (sort_index_wf df Hwf) as Hwf'.
  pose proof (Hwf' _ _ Hc') as Hlc. pose proof (Hwf' _ _ Hv') as Hlv.
  exists (fresh (dom σ)). eexists. exists (argsort (index df)).
  split.
  { rewrite (prepare_data_run log σ data df _ Hd
               (prepare_body_run log _ _ _ Hc' Hv')). reflexivity. }
  split; [apply argsort_perm|].
  split; [now rewrite index_write_all|].
  split; [rewrite index_write_all; apply sort_index_sorted|].
  split.
  - intros k Hk. rewrite lookup_write_all, plan_lookup_none.
    + apply sort_index_column.
    + exact Hk.
  - apply write_all_wf; [exact Hwf'|].
    repeat constructor; cbn [snd]; len.
Qed.

Lemma unsorted_bars_wf : wf_frame unsorted_bars.
Proof.
  intros k c. unfold unsorted_bars. cbn.
  repeat (rewrite lookup_insert; case_decide;
          [intros [= <-]; reflexivity|]).
  now rewrite lookup_empty.
Qed.

Lemma prepare_data_sorts_rows_witness :
  exists sorted df' order,
    prepare_data (fun x => x) 0 (<[0 := unsorted_bars]> ∅)
      = Ret sorted (<[sorted := df']> (<[0 := unsorted_bars]> ∅)) /\
    Permutation order [0; 1; 2] /\
    Sorted Z.le (index df').
Proof.
  destruct (prepare_data_sorts_rows (fun x => x) (<[0 := unsorted_bars]> ∅) 0
              unsorted_bars [12; 10; 11]%float [300; 100; 200]%float)
    as (sorted & df' & order & Hrun & Hperm & _ & Hsorted & _).
  - reflexivity.
  - reflexivity.
  - reflexivity.
  - exact unsorted_bars_wf.
  - exists sorted, df', order. repeat split; assumption.
Defined.

(** X24. The derived columns are undefined where they have no history: the
    first row of [returns] and [log_returns], and the first 19 rows of
    [volume_ma] and [volume_ratio], are NaN. *)
Theorem prepared_columns_start_undefined log (σ : store) data df close volume :
  σ !! data = Some df ->
  columns df !! "Close" = Some close ->
  columns df !! "Volume" = Some volume ->
  exists sorted df' returns log_returns volume_ma volume_ratio,
    prepare_data log data σ = Ret sorted (<[sorted := df']> σ) /\
    columns df' !! "returns" = Some returns /\
    columns df' !! "log_returns" = Some log_returns /\
    columns df' !! "volume_ma" = Some volume_ma /\
    columns df' !! "volume_ratio" = Some volume_ratio /\
    (forall x, returns !! 0 = Some x -> is_nan x = true) /\
    (forall x, log_returns !! 0 = Some x -> is_nan x = true) /\
    (forall i x, i < 19 -> volume_ma !! i = Some x -> is_nan x = true) /\
    (forall i x, i < 19 -> volume_ratio !! i = Some x -> is_nan x = true).
Proof.
  intros Hd Hc Hv.
  pose proof (sort_index_column df "Close") as Hc'. rewrite Hc in Hc'.
  pose proof (sort_index_column df "Volume") as Hv'. rewrite Hv in Hv'.
  exists (fresh (dom σ)). do 5 eexists.
  split.
  { rewrite (prepare_data_run log σ data df _ Hd
               (prepare_body_run log _ _ _ Hc' Hv')). reflexivity. }
  do 4 (split; [rewrite lookup_write_all; reflexivity|]).
  repeat split.
  - intros x Hx. unfold Pd.pct_change in Hx.
    apply lookup_zip_with_Some in Hx as (c & y & -> & Hc0 & Hy).
    rewrite (lookup_shift_early _ _ _ _ Hc0) in Hy by lia.
    injection Hy as <-. apply sub_nan_l, div_nan_r. reflexivity.
  - intros x Hx. unfold Pd.diff in Hx.
    apply lookup_zip_with_Some in Hx as (c & y & -> & Hc0 & Hy).
    rewrite (lookup_shift_early _ _ _ _ Hc0) in Hy by lia.
    injection Hy as <-. apply sub_nan_r. reflexivity.
  - intros i x Hi Hx.
    destruct (lookup_lt_length (take_at (argsort (index df)) volume) i)
      as [v Hvi].
    { apply lookup_lt_Some in Hx. unfold Pd.rolling_mean in Hx.
      now rewrite length_imap in Hx. }
    rewrite (lookup_rolling_mean_warm _ _ _ _ Hvi) in Hx by lia.
    now injection Hx as <-.
  - intros i x Hi Hx. unfold Pd.div in Hx.
    apply lookup_zip_with_Some in Hx as (v & m & -> & Hvi & Hm).
    rewrite (lookup_rolling_mean_warm _ _ _ _ Hvi) in Hm by lia.
    injection Hm as <-. apply div_nan_r. reflexivity.
Qed.

Lemma prepared_columns_start_undefined_witness :
  exists sorted df' returns,
    prepare_data (fun x => x) 0 (<[0 := unsorted_bars]> ∅)
      = Ret sorted (<[sorted := df']> (<[0 := unsorted_bars]> ∅)) /\
    columns df' !! "returns" = Some returns /\
    (forall x, returns !! 0 = Some x -> is_nan x = true).
Proof.
  destruct (prepared_columns_start_undefined (fun x => x)
              (<[0 := unsorted_bars]> ∅) 0
              unsorted_bars [12; 10; 11]%float [300; 100; 200]%float)
    as (sorted & df' & returns & lr & vm & vr & Hrun & Hret & _ & _ & _ & H0 & _).
  - reflexivity.
  - reflexivity.
  - reflexivity.
  - exists sorted, df', returns. repeat split; assumption.
Defined.

(** X25. Without a [Close] or a [Volume] column [prepare_data] raises
    [KeyError]. *)
Theorem prepare_data_missing_column log (σ : store) data df :
  σ !! data = Some df ->
  columns df !! "Close" = None \/ columns df !! "Volume" = None ->
  exists σ', prepare_data log data σ = Raise KeyError σ'.
Proof.
  intros Hd Hmiss.
  rewrite (prepare_data_run log σ data df _ Hd eq_refl).
  unfold prepare_data_body.
  destruct (columns df !! "Close") as [close|] eqn:Hc.
  - destruct Hmiss as [Hm|Hm]; [discriminate|].
    pose proof (sort_index_column df "Close") as Hc'. rewrite Hc in Hc'.
    frame_run. rewrite run_col_none; [eexists; reflexivity|].
    rewrite !columns_set_col, !lookup_insert_ne by discriminate.
    now rewrite sort_index_column, Hm.
  - rewrite run_col_none; [eexists; reflexivity|].
    now rewrite sort_index_column, Hc.
Qed.

Lemma prepare_data_missing_column_witness :
  exists σ',
    prepare_data (fun x => x) 0 (<[0 := rising_prices]> ∅) = Raise KeyError σ'.
Proof.
  apply (prepare_data_missing_column (fun x => x) (<[0 := rising_prices]> ∅) 0
           rising_prices).
  - reflexivity.
  - right. reflexivity.
Defined.
